(** * IoT security dashboard backend: a shallow embedding and its properties

    The development follows [backend/app/auth.py] and [backend/app/main.py]:
    request authentication (API key, HMAC-SHA256 signature), the sliding
    window rate limiter, the WebSocket connection manager with its bounded
    backlog, the [/ingest] pipeline with its anomaly check, and the
    [/events] listing.

    Conventions.  Python [str] values are Rocq strings (one [ascii] per code
    point, which is exact for HTTP header values: the ASGI layer decodes
    them as latin-1).  Python [bytes] are lists of [byte].  Python [float]
    is the kernel's binary64 [float]; Python [int] is [Z].  A Python [dict]
    is an association list with distinct keys, in insertion order.

    Each coroutine is taken as one step on the shared state: the handlers
    run on a single event loop and the statements below are about one call,
    or a sequence of calls, at a time. *)

From Stdlib Require Import ZArith List String Ascii Strings.Byte Floats Bool Lia.
From stdpp Require Import gmap strings list sorting pretty.

Set Warnings "-inexact-float,-register-all".
Local Open Scope Z_scope.

(* ===================================================================== *)
(** ** Python values *)
(* ===================================================================== *)

Module Py.

Definition bytes := list byte.

Definition byte_of_Z (z : Z) : byte :=
  match Byte.of_N (Z.to_N (z mod 256)) with
  | Some b => b
  | None => x00
  end.

Definition Z_of_byte (b : byte) : Z := Z.of_N (Byte.to_N b).

Definition ord (c : ascii) : Z := Z.of_N (N_of_ascii c).

(** [str.encode()]: UTF-8.  Code points below 128 are one byte, the others
    of the modelled range (128..255) two bytes. *)
Definition encode_char (c : ascii) : bytes :=
  let n := ord c in
  if n <? 128 then [byte_of_Z n]
  else [byte_of_Z (Z.lor 192 (Z.shiftr n 6)); byte_of_Z (Z.lor 128 (Z.land n 63))].

Fixpoint encode (s : string) : bytes :=
  match s with
  | EmptyString => []
  | String c s' => encode_char c ++ encode s'
  end.

(** [str.isascii()] *)
Fixpoint isascii (s : string) : bool :=
  match s with
  | EmptyString => true
  | String c s' => (ord c <? 128) && isascii s'
  end.

(** Truthiness of an optional string: [None] and [""] are falsy. *)
Definition truthy (o : option string) : bool :=
  match o with
  | Some (String _ _) => true
  | _ => false
  end.

(** [o or ""] *)
Definition or_empty (o : option string) : string :=
  match o with
  | Some s => s
  | None => EmptyString
  end.

(** Exceptions the modelled code can raise.  [HTTPException] is FastAPI's;
    the others are Python built-ins, which the framework turns into a
    500 response when no handler catches them. *)
Inductive exn :=
| HTTPException (status_code : Z) (detail : string)
| TypeError
| ValueError
| AttributeError
| IndexError
| OverflowError.

Inductive outcome (A : Type) :=
| Ret (a : A)
| Raise (e : exn).
Arguments Ret {A} a.
Arguments Raise {A} e.

Definition obind {A B : Type} (o : outcome A) (k : A -> outcome B) : outcome B :=
  match o with
  | Ret a => k a
  | Raise e => Raise e
  end.

(** The status line the client sees. *)
Definition http_status {A : Type} (o : outcome A) : Z :=
  match o with
  | Ret _ => 200
  | Raise (HTTPException s _) => s
  | Raise _ => 500
  end.

End Py.
Import Py.

(* ===================================================================== *)
(** ** hashlib.sha256 and hmac.new (FIPS 180-4, RFC 2104) *)
(* ===================================================================== *)

Module Sha256.

Definition wrap (x : Z) : Z := x mod 2 ^ 32.
Definition add32 (x y : Z) : Z := wrap (x + y).
Definition rotr (n x : Z) : Z :=
  Z.lor (Z.shiftr x n) (wrap (Z.shiftl x (32 - n))).
Definition not32 (x : Z) : Z := Z.lxor x (2 ^ 32 - 1).

Definition Ch (x y z : Z) : Z := Z.lxor (Z.land x y) (Z.land (not32 x) z).
Definition Maj (x y z : Z) : Z :=
  Z.lxor (Z.lxor (Z.land x y) (Z.land x z)) (Z.land y z).
Definition Sigma0 (x : Z) : Z := Z.lxor (Z.lxor (rotr 2 x) (rotr 13 x)) (rotr 22 x).
Definition Sigma1 (x : Z) : Z := Z.lxor (Z.lxor (rotr 6 x) (rotr 11 x)) (rotr 25 x).
Definition sigma0 (x : Z) : Z := Z.lxor (Z.lxor (rotr 7 x) (rotr 18 x)) (Z.shiftr x 3).
Definition sigma1 (x : Z) : Z := Z.lxor (Z.lxor (rotr 17 x) (rotr 19 x)) (Z.shiftr x 10).

(** The first 64 primes. *)
Definition is_prime (n : Z) : bool :=
  forallb (fun d => negb (n mod Z.of_nat d =? 0)) (seq 2 (Z.to_nat n - 2)).

Definition primes : list Z :=
  Eval vm_compute in filter (fun n => is_prime n = true) (map Z.of_nat (seq 2 310)).

(** Integer cube root, bit by bit from [2^fuel] down. *)
Fixpoint icbrt (fuel : nat) (n r : Z) : Z :=
  match fuel with
  | O => r
  | S k =>
      let c := r + 2 ^ Z.of_nat k in
      icbrt k n (if c * c * c <=? n then c else r)
  end.

(** Round constants: the first 32 bits of the fractional parts of the cube
    roots of the primes. *)
Definition K : list Z :=
  Eval vm_compute in map (fun p => wrap (icbrt 36 (p * 2 ^ 96) 0)) primes.

(** The eight working variables / chaining values. *)
Record state := mkState
  { sa : Z; sb : Z; sc : Z; sd : Z; se : Z; sf : Z; sg : Z; sh : Z }.

(** Initial hash value: the first 32 bits of the fractional parts of the
    square roots of the first eight primes. *)
Definition iv (p : Z) : Z := wrap (Z.sqrt (p * 2 ^ 64)).

Definition H0 : state :=
  Eval vm_compute in
    mkState (iv 2) (iv 3) (iv 5) (iv 7) (iv 11) (iv 13) (iv 17) (iv 19).

(** Padding: a 1 bit, zeros up to 56 mod 64, the bit length on 8 bytes. *)
Definition be_bytes (n : nat) (x : Z) : list Z :=
  map (fun i => (Z.shiftr x (8 * Z.of_nat i)) mod 256) (rev (seq 0 n)).

Definition pad (msg : list Z) : list Z :=
  let len := Z.of_nat (length msg) in
  let zeros := Z.to_nat ((55 - len) mod 64) in
  msg ++ [128] ++ repeat 0 zeros ++ be_bytes 8 (8 * len).

Definition word_of (b3 b2 b1 b0 : Z) : Z :=
  Z.lor (Z.lor (Z.shiftl b3 24) (Z.shiftl b2 16)) (Z.lor (Z.shiftl b1 8) b0).

Fixpoint words (bs : list Z) : list Z :=
  match bs with
  | b3 :: b2 :: b1 :: b0 :: rest => word_of b3 b2 b1 b0 :: words rest
  | _ => []
  end.

(** Message schedule: [w] holds W[t-1], W[t-2], ... (newest first). *)
Fixpoint schedule (n : nat) (w : list Z) : list Z :=
  match n with
  | O => w
  | S n' =>
      let wt := add32 (add32 (sigma1 (nth 1 w 0)) (nth 6 w 0))
                      (add32 (sigma0 (nth 14 w 0)) (nth 15 w 0)) in
      schedule n' (wt :: w)
  end.

Definition round (s : state) (kw : Z * Z) : state :=
  let '(k, w) := kw in
  let t1 := add32 (add32 (add32 (sh s) (Sigma1 (se s))) (Ch (se s) (sf s) (sg s)))
                  (add32 k w) in
  let t2 := add32 (Sigma0 (sa s)) (Maj (sa s) (sb s) (sc s)) in
  mkState (add32 t1 t2) (sa s) (sb s) (sc s) (add32 (sd s) t1) (se s) (sf s) (sg s).

Definition compress (h : state) (block : list Z) : state :=
  let w := rev (schedule 48 (rev (words block))) in
  let s := fold_left round (combine K w) h in
  mkState (add32 (sa h) (sa s)) (add32 (sb h) (sb s)) (add32 (sc h) (sc s))
          (add32 (sd h) (sd s)) (add32 (se h) (se s)) (add32 (sf h) (sf s))
          (add32 (sg h) (sg s)) (add32 (sh h) (sh s)).

Fixpoint blocks (n : nat) (bs : list Z) (h : state) : state :=
  match n with
  | O => h
  | S n' =>
      match bs with
      | [] => h
      | _ => blocks n' (skipn 64 bs) (compress h (firstn 64 bs))
      end
  end.

Definition word_bytes (x : Z) : bytes :=
  [ byte_of_Z (Z.shiftr x 24); byte_of_Z (Z.shiftr x 16);
    byte_of_Z (Z.shiftr x 8); byte_of_Z x ].

Definition state_bytes (s : state) : bytes :=
  word_bytes (sa s) ++ word_bytes (sb s) ++ word_bytes (sc s) ++ word_bytes (sd s) ++
  word_bytes (se s) ++ word_bytes (sf s) ++ word_bytes (sg s) ++ word_bytes (sh s).

(** [hashlib.sha256(msg).digest()] *)
Definition sha256 (msg : bytes) : bytes :=
  let p := pad (map Z_of_byte msg) in
  state_bytes (blocks (length p) p H0).

(** [hmac.new(key, msg, hashlib.sha256).digest()] *)
Definition block_key (key : bytes) : bytes :=
  let k := if (64 <? Z.of_nat (length key)) then sha256 key else key in
  k ++ repeat x00 (64 - length k)%nat.

Definition xor_pad (c : Z) (key : bytes) : bytes :=
  map (fun b => byte_of_Z (Z.lxor (Z_of_byte b) c)) key.

Definition hmac_digest (key msg : bytes) : bytes :=
  let k := block_key key in
  sha256 (xor_pad 0x5c k ++ sha256 (xor_pad 0x36 k ++ msg)).

(** [.hexdigest()]: two lowercase hexadecimal digits per byte. *)
Definition hex_digit (n : Z) : ascii :=
  ascii_of_N (Z.to_N (if n <? 10 then 48 + n else 87 + n)).

Fixpoint hex (bs : bytes) : string :=
  match bs with
  | [] => EmptyString
  | b :: bs' =>
      String (hex_digit (Z_of_byte b / 16))
        (String (hex_digit (Z_of_byte b mod 16)) (hex bs'))
  end.

Definition hexdigest (key msg : bytes) : string := hex (hmac_digest key msg).

End Sha256.

Import Sha256.

(* ===================================================================== *)
(** ** JSON documents and Python's [float()] *)
(* ===================================================================== *)

Module Json.

Inductive json :=
| JNull
| JBool (v : bool)
| JInt (z : Z)
| JFloat (f : float)
| JStr (s : string)
| JArr (items : list json)
| JObj (fields : list (string * json)).

Definition dict := list (string * json).

(** [k in d] and [d.get(k)] *)
Fixpoint dict_get (k : string) (d : dict) : option json :=
  match d with
  | [] => None
  | (k', v) :: d' => if String.eqb k k' then Some v else dict_get k d'
  end.

(** [d[k] = v]: an existing key keeps its position, a new one goes last. *)
Fixpoint dict_set (k : string) (v : json) (d : dict) : dict :=
  match d with
  | [] => [(k, v)]
  | (k', v') :: d' =>
      if String.eqb k k' then (k, v) :: d' else (k', v') :: dict_set k v d'
  end.

(** [{**d, **e}] *)
Definition dict_update (d e : dict) : dict :=
  fold_left (fun acc kv => dict_set (fst kv) (snd kv) acc) e d.

(** [o.get(k, default)]: only a dict has [get]; anything else raises
    [AttributeError]. *)
Definition py_get (o : json) (k : string) (default : json) : outcome json :=
  match o with
  | JObj d =>
      match dict_get k d with
      | Some v => Ret v
      | None => Ret default
      end
  | _ => Raise AttributeError
  end.

(** [float(n)] for an int: round to nearest even, [OverflowError] past the
    largest double. *)
Definition float_of_int (z : Z) : outcome float :=
  let f := SF2Prim (binary_normalize prec emax z 0 false) in
  if PrimFloat.is_infinity f then Raise OverflowError else Ret f.

Section Float.
(** [float(s)] for a [str] is Python's own parser; [None] is [ValueError]. *)
Variable float_of_str : string -> option float.

Definition py_float (v : json) : outcome float :=
  match v with
  | JFloat f => Ret f
  | JInt z => float_of_int z
  | JBool true => Ret 1%float
  | JBool false => Ret 0%float
  | JStr s =>
      match float_of_str s with
      | Some f => Ret f
      | None => Raise ValueError
      end
  | JNull | JArr _ | JObj _ => Raise TypeError
  end.
End Float.

End Json.
Import Json.

(* ===================================================================== *)
(** ** backend/app/models.py *)
(* ===================================================================== *)

Module models.

(** A row of the [events] table.  [timestamp] is the instant the database
    assigned, in microseconds. *)
Record Event := mkEvent
  { id : Z; device_id : string; timestamp : Z; payload : dict }.

End models.

(* ===================================================================== *)
(** ** backend/app/auth.py *)
(* ===================================================================== *)

Module auth.

(** The two secrets as [os.getenv] returned them when the module was
    imported ([None]: unset). *)
Record Secrets := mkSecrets
  { API_KEY : option string; HMAC_SECRET : option string }.

(** [hmac.compare_digest(a, b)] on two [str]: both must be ASCII, otherwise
    it raises [TypeError]. *)
Definition compare_digest (a c : string) : outcome bool :=
  if isascii a && isascii c then Ret (String.eqb a c) else Raise TypeError.

Section Auth.
Variable env : Secrets.

Definition require_api_key (api_key : option string) : outcome bool :=
  if negb (truthy (API_KEY env)) then
    Raise (HTTPException 500 "API_KEY not configured on server")
  else if negb (bool_decide (api_key = API_KEY env)) then
    Raise (HTTPException 401 "Invalid or missing API Key")
  else Ret true.

Definition verify_hmac (body : bytes) (signature : option string) : outcome bool :=
  match HMAC_SECRET env with
  | Some (String c0 s0) =>
      if negb (truthy signature) then
        Raise (HTTPException 401 "Missing X-Signature header")
      else
        let expected := hexdigest (encode (String c0 s0)) body in
        match compare_digest expected (or_empty signature) with
        | Raise e => Raise e
        | Ret false => Raise (HTTPException 401 "Invalid HMAC signature")
        | Ret true => Ret true
        end
  | _ => Raise (HTTPException 500 "HMAC_SECRET not configured on server")
  end.

End Auth.
End auth.

(* ===================================================================== *)
(** ** backend/app/main.py *)
(* ===================================================================== *)

Module main.

(** A WebSocket object, by identity. *)
Definition WebSocket := nat.

(** A broadcast message: a JSON object. *)
Definition message := dict.

(** One [ws.send_json(message)] call and whether it returned ([true]) or
    raised ([false]). *)
Definition frame := (WebSocket * message * bool)%type.

Record Metrics := mkMetrics { temperature : float; vibration : float }.

Record IngestEvent := mkIngestEvent
  { device_id : string; payload : dict; metrics : option Metrics }.

(** What the handlers call and this repository does not define: the JSON
    parser, the pydantic constructor of [IngestEvent] applied to the parsed
    document ([inl e]: it raised [e]), [float] on a [str], [datetime.isoformat], and the
    transport under [ws.send_json], whose [n]-th call overall succeeds or
    raises. *)
Class Runtime := mkRuntime
  { json_loads : bytes -> option json;
    IngestEvent_validate : json -> string + IngestEvent;
    float_of_str : string -> option float;
    isoformat : Z -> string;
    send_json : nat -> WebSocket -> message -> bool }.

(** Module-level configuration read from the environment. *)
Record Config := mkConfig
  { secrets : auth.Secrets;
    RATE_LIMIT_WINDOW : Z;
    RATE_LIMIT_MAX : Z }.

Record ConnectionManager := mkManager
  { active_connections : list WebSocket;
    frontend_ready : bool;
    _backlog : list message;
    _max_backlog : Z }.

(** [ConnectionManager()] with [BACKLOG_SIZE] from the environment. *)
Definition ConnectionManager_init (BACKLOG_SIZE : Z) : ConnectionManager :=
  mkManager [] false [] BACKLOG_SIZE.

(** The process state the handlers share, the [events] table, and two
    histories kept for the statements only: [wire], every [send_json] call
    so far, and [broadcasts], the argument of every [manager.broadcast]
    call so far. *)
Record World := mkWorld
  { _rate_store : gmap string (list float);
    table : list models.Event;
    manager : ConnectionManager;
    wire : list frame;
    broadcasts : list message }.

Definition with_rate_store (r : gmap string (list float)) (w : World) : World :=
  mkWorld r (table w) (manager w) (wire w) (broadcasts w).
Definition with_table (t : list models.Event) (w : World) : World :=
  mkWorld (_rate_store w) t (manager w) (wire w) (broadcasts w).
Definition with_manager (m : ConnectionManager) (w : World) : World :=
  mkWorld (_rate_store w) (table w) m (wire w) (broadcasts w).
Definition with_wire (l : list frame) (w : World) : World :=
  mkWorld (_rate_store w) (table w) (manager w) l (broadcasts w).
Definition with_broadcasts (l : list message) (w : World) : World :=
  mkWorld (_rate_store w) (table w) (manager w) (wire w) l.

(** *** A state and exception monad for the handlers *)

Definition M (A : Type) : Type := World -> outcome A * World.

Definition ret {A} (a : A) : M A := fun w => (Ret a, w).
Definition raise {A} (e : exn) : M A := fun w => (Raise e, w).
Definition lift {A} (o : outcome A) : M A := fun w => (o, w).
Definition bind {A B} (m : M A) (k : A -> M B) : M B :=
  fun w =>
    match m w with
    | (Ret a, w') => k a w'
    | (Raise e, w') => (Raise e, w')
    end.
(** [try: m  except Exception: pass] *)
Definition try_pass (m : M unit) : M unit :=
  fun w => (Ret tt, snd (m w)).

Notation "x <- c1 ;; c2" := (bind c1 (fun x => c2))
  (at level 100, c1 at next level, c2 at level 200, only parsing, right associativity).
Notation "c1 ;;; c2" := (bind c1 (fun _ => c2))
  (at level 100, c2 at level 200, only parsing, right associativity).

(** *** In-memory rate limiter *)

Section RateLimit.
Variable cfg : Config.

(** [now - RATE_LIMIT_WINDOW]: the int is converted to a float first. *)
Definition window_start (now : float) : outcome float :=
  match float_of_int (RATE_LIMIT_WINDOW cfg) with
  | Ret w => Ret (PrimFloat.sub now w)
  | Raise e => Raise e
  end.

(** [t >= window_start] *)
Definition in_window (start t : float) : bool := PrimFloat.leb start t.

Definition check_rate_limit (ip : string) (now : float) : M bool :=
  fun w =>
    let timestamps := default [] (_rate_store w !! ip) in
    match window_start now with
    | Raise e => (Raise e, w)
    | Ret start =>
        let timestamps := filter (fun t => in_window start t = true) timestamps in
        if Z.of_nat (length timestamps) >=? RATE_LIMIT_MAX cfg then (Ret false, w)
        else (Ret true, with_rate_store (<[ip := timestamps ++ [now]]> (_rate_store w)) w)
    end.

End RateLimit.

(** *** Connection manager *)

Section Manager.
Context {rt : Runtime}.

Fixpoint list_remove (ws : WebSocket) (l : list WebSocket) : list WebSocket :=
  match l with
  | [] => []
  | x :: l' => if Nat.eqb x ws then l' else x :: list_remove ws l'
  end.

Definition connect (ws : WebSocket) (m : ConnectionManager) : ConnectionManager :=
  mkManager (active_connections m ++ [ws]) (frontend_ready m) (_backlog m) (_max_backlog m).

Definition disconnect (ws : WebSocket) (m : ConnectionManager) : ConnectionManager :=
  let conns :=
    if existsb (Nat.eqb ws) (active_connections m)
    then list_remove ws (active_connections m)
    else active_connections m in
  mkManager conns
    (match conns with [] => false | _ => frontend_ready m end)
    (_backlog m) (_max_backlog m).

(** The first loop of [_safe_broadcast]: one [send_json] per connection of
    the snapshot, collecting the ones that raised. *)
Fixpoint send_pass (conns : list WebSocket) (msg : message) (sent : list frame)
  : list WebSocket * list frame :=
  match conns with
  | [] => ([], sent)
  | ws :: rest =>
      let ok := send_json (length sent) ws msg in
      let '(stale, sent') := send_pass rest msg (sent ++ [(ws, msg, ok)]) in
      (if ok then stale else ws :: stale, sent')
  end.

Definition _safe_broadcast (msg : message) (w : World) : World :=
  let '(stale, sent) := send_pass (active_connections (manager w)) msg (wire w) in
  with_wire sent
    (with_manager (fold_left (fun m ws => disconnect ws m) stale (manager w)) w).

(** [l[start:]] *)
Definition slice_from {A} (start : Z) (l : list A) : list A :=
  let n := Z.of_nat (length l) in
  drop (Z.to_nat (if start <? 0 then Z.max 0 (n + start) else Z.min start n)) l.

Definition set_ready (v : bool) (m : ConnectionManager) : ConnectionManager :=
  mkManager (active_connections m) v (_backlog m) (_max_backlog m).
Definition set_backlog (l : list message) (m : ConnectionManager) : ConnectionManager :=
  mkManager (active_connections m) (frontend_ready m) l (_max_backlog m).

Definition mark_ready (w : World) : World :=
  let w1 := with_manager (set_ready true (manager w)) w in
  let m1 := manager w1 in
  let w2 :=
    match _backlog m1, active_connections m1 with
    | _ :: _, _ :: _ =>
        fold_left (fun w ev => _safe_broadcast ev w)
                  (slice_from (- _max_backlog m1) (_backlog m1)) w1
    | _, _ => w1
    end in
  with_manager (set_backlog [] (manager w2)) w2.

Definition broadcast (msg : message) : M unit :=
  fun w =>
    let w := with_broadcasts (broadcasts w ++ [msg]) w in
    let m := manager w in
    if negb (frontend_ready m) then
      if Z.of_nat (length (_backlog m)) >=? _max_backlog m then
        match _backlog m with
        | [] => (Raise IndexError, w)
        | _ :: rest => (Ret tt, with_manager (set_backlog (rest ++ [msg]) m) w)
        end
      else (Ret tt, with_manager (set_backlog (_backlog m ++ [msg]) m) w)
    else (Ret tt, _safe_broadcast msg w).

End Manager.

(** *** Ingestion endpoint *)

(** The parts of a [POST /ingest] request the handler reads. *)
Record Request := mkRequest
  { client_host : option string;
    x_api_key : option string;
    x_signature : option string;
    body : bytes }.

(** What the handler reads from outside during one call: [time.time()] in
    the rate limiter and the database's [now()] for the new row. *)
Record Clock := mkClock { time_time : float; func_now : Z }.

(** Modelled from the spec: the database session ([backend/app/db.py] and
    the SQL engine are not among the sources).  [add], [commit] and
    [refresh] append one row whose id is server-assigned, unique and
    increasing and whose timestamp is the insertion time; the JSON column
    gives the payload back as stored. *)
Definition db_add (device : string) (p : dict) (now : Z) : M models.Event :=
  fun w =>
    let e := models.mkEvent (Z.of_nat (length (table w)) + 1) device now p in
    (Ret e, with_table (table w ++ [e]) w).

(** [evt.metrics.dict()] *)
Definition Metrics_dict (m : Metrics) : dict :=
  [("temperature", JFloat (temperature m)); ("vibration", JFloat (vibration m))]%string.

(** [evt.payload or {"metrics": evt.metrics.dict() if evt.metrics else {}}] *)
Definition db_event_payload (evt : IngestEvent) : dict :=
  match payload evt with
  | _ :: _ => payload evt
  | [] =>
      [("metrics"%string,
        match metrics evt with
        | Some m => JObj (Metrics_dict m)
        | None => JObj []
        end)]
  end.

Definition event_data_of {rt : Runtime} (e : models.Event) : dict :=
  [ ("id", JInt (models.id e));
    ("device_id", JStr (models.device_id e));
    ("timestamp", JStr (isoformat (models.timestamp e)));
    ("payload", JObj (models.payload e)) ]%string.

(** [{"type": "anomaly", **event_data}] *)
Definition anomaly_message (event_data : dict) : message :=
  dict_update [("type", JStr "anomaly")]%string event_data.

(** [temp < 18 or temp > 25 or vib > 0.8] *)
Definition is_anomaly (temp vib : float) : bool :=
  PrimFloat.ltb temp 18 || PrimFloat.ltb 25 temp || PrimFloat.ltb 0.8 vib.

Section Ingest.
Context {rt : Runtime}.
Variable cfg : Config.

(** The inline signature check of the handler. *)
Definition check_signature (body : bytes) (signature : string) : M unit :=
  match auth.HMAC_SECRET (secrets cfg) with
  | Some (String c0 s0) =>
      let expected := hexdigest (encode (String c0 s0)) body in
      ok <- lift (auth.compare_digest expected signature) ;;
      if negb ok then raise (HTTPException 401 "Invalid HMAC signature")
      else ret tt
  | _ => ret tt
  end.

(** The numeric extraction of the [try] block: [metrics], then [temp],
    then [vib]. *)
Definition extract_metrics (event_data : dict) : outcome (float * float) :=
  obind (py_get (JObj event_data) "payload" (JObj [])) (fun p =>
  obind (py_get p "metrics" (JObj [])) (fun metrics =>
  obind (py_get metrics "temperature" (JInt 0)) (fun t =>
  obind (py_float float_of_str t) (fun temp =>
  obind (py_get metrics "vibration" (JInt 0)) (fun v =>
  obind (py_float float_of_str v) (fun vib =>
  Ret (temp, vib))))))).

(** The [try] block after the first broadcast. *)
Definition anomaly_detection (event_data : dict) : M unit :=
  try_pass
    (tv <- lift (extract_metrics event_data) ;;
     if is_anomaly (fst tv) (snd tv) then broadcast (anomaly_message event_data)
     else ret tt).

Definition ingest_event (request : Request) (clock : Clock) : M dict :=
  (* dependencies=[Depends(require_api_key)] runs before the body *)
  lift (auth.require_api_key (secrets cfg) (x_api_key request)) ;;;
  let client_ip := default "unknown"%string (client_host request) in
  allowed <- check_rate_limit cfg client_ip (time_time clock) ;;
  if negb allowed then raise (HTTPException 429 "Rate limit exceeded") else
  let signature := default ""%string (x_signature request) in
  check_signature (body request) (or_empty (Some signature)) ;;;
  parsed <- match json_loads (body request) with
            | Some j => ret j
            | None => raise (HTTPException 400 "Invalid JSON payload")
            end ;;
  evt <- match IngestEvent_validate parsed with
         | inr evt => ret evt
         | inl e => raise (HTTPException 400 ("Invalid event structure: " ++ e))
         end ;;
  db_event <- db_add (device_id evt) (db_event_payload evt) (func_now clock) ;;
  let event_data := event_data_of db_event in
  broadcast event_data ;;;
  anomaly_detection event_data ;;;
  ret [("status", JStr "accepted"); ("id", JInt (models.id db_event))]%string.

End Ingest.

(** *** Event listing *)

Section Listing.
Context {rt : Runtime}.

(** The query [order_by(Event.timestamp.desc()).limit(limit).all()] runs in
    the SQL engine.  [order_by_desc] is its ordering of the table; what a
    negative [LIMIT] returns depends on the engine. *)
Variable order_by_desc : list models.Event -> list models.Event.
Variable negative_limit : Z -> list models.Event -> list models.Event.

Definition query_limit (limit : Z) (rows : list models.Event) : list models.Event :=
  if limit <? 0 then negative_limit limit rows else take (Z.to_nat limit) rows.

Definition list_events (limit : Z) (w : World) : list dict :=
  let q := query_limit limit (order_by_desc (table w)) in
  map event_data_of (rev q).

End Listing.

End main.

Import main.

(** Orders on rows by timestamp: descending for the query, ascending for
    the response. *)
Definition newer_first (a c : models.Event) : Prop :=
  models.timestamp c <= models.timestamp a.
Definition older_first (a c : models.Event) : Prop :=
  models.timestamp a <= models.timestamp c.

#[global] Instance newer_first_dec : RelDecision newer_first :=
  fun a c => decide (models.timestamp c <= models.timestamp a).

(* ===================================================================== *)
(** ** Python's [str] methods used by the rest of main.py *)
(* ===================================================================== *)

Module PyStr.

(** [c.isspace()] for a code point below 256. *)
Definition isspace (c : ascii) : bool :=
  let n := ord c in
  ((9 <=? n) && (n <=? 13)) || ((28 <=? n) && (n <=? 32)) || (n =? 133) || (n =? 160).

(** [s.lstrip()], [s.rstrip()], [s.strip()] *)
Fixpoint lstrip (s : string) : string :=
  match s with
  | EmptyString => EmptyString
  | String c s' => if isspace c then lstrip s' else s
  end.

Fixpoint rstrip (s : string) : string :=
  match s with
  | EmptyString => EmptyString
  | String c s' =>
      match rstrip s' with
      | EmptyString => if isspace c then EmptyString else String c EmptyString
      | r => String c r
      end
  end.

Definition strip (s : string) : string := rstrip (lstrip s).

(** [s.lower()] for code points below 256: A-Z and the accented capitals
    of Latin-1 move up by 32, everything else stays. *)
Definition lower_char (c : ascii) : ascii :=
  let n := ord c in
  if ((65 <=? n) && (n <=? 90)) || ((192 <=? n) && (n <=? 222) && negb (n =? 215))
  then ascii_of_N (Z.to_N (n + 32)) else c.

Fixpoint lower (s : string) : string :=
  match s with
  | EmptyString => EmptyString
  | String c s' => String (lower_char c) (lower s')
  end.

(** [s.split(sep)] for a one-character separator. *)
Fixpoint split (sep : ascii) (s : string) : list string :=
  match s with
  | EmptyString => [EmptyString]
  | String c s' =>
      if Ascii.eqb c sep then EmptyString :: split sep s'
      else match split sep s' with
           | h :: t => String c h :: t
           | [] => [String c EmptyString]
           end
  end.

(** [sep.join(l)] *)
Fixpoint join (sep : ascii) (l : list string) : string :=
  match l with
  | [] => EmptyString
  | [x] => x
  | x :: rest => (x ++ String sep (join sep rest))%string
  end.

(** Truthiness of a [str]. *)
Definition nonempty (s : string) : bool :=
  match s with
  | EmptyString => false
  | String _ _ => true
  end.

(** [s[:3]] and [s[-3:]] *)
Definition first3 (s : string) : string := substring 0 3 s.
Definition last3 (s : string) : string := substring (String.length s - 3) 3 s.

End PyStr.
Import PyStr.

(* ===================================================================== *)
(** ** backend/app/main.py: startup, middleware, simulator, WebSocket route *)
(* ===================================================================== *)

Module routes.

(** [mask_secret(secret)] *)
Definition mask_secret (secret : option string) : string :=
  match secret with
  | Some s =>
      if nonempty s && (6 <? String.length s)%nat
      then (first3 s ++ "***" ++ last3 s)%string
      else "MISSING"%string
  | None => "MISSING"%string
  end.

(** [WS_FRONTEND_TOKEN = (os.getenv("WS_FRONTEND_TOKEN") or "").strip()] *)
Definition WS_FRONTEND_TOKEN (getenv : option string) : string :=
  strip (or_empty getenv).

(** [origins = [o.strip() for o in origins_env.split(",") if o.strip()]],
    with [origins_env = os.getenv("CORS_ORIGINS", "http://localhost:3000")]. *)
Definition origins_env (getenv : option string) : string :=
  default "http://localhost:3000"%string getenv.

Definition origins (origins_env : string) : list string :=
  map strip (filter (fun o => nonempty (strip o) = true) (split "," origins_env)).

(** *** Middleware: limit body size *)

(** What the middleware answers: its own plain-text response, or whatever
    the rest of the application answered. *)
Inductive Reply (A : Type) :=
| PlainTextResponse (content : string) (status_code : Z)
| Passed (o : outcome A).
Arguments PlainTextResponse {A} content status_code.
Arguments Passed {A} o.

Section LimitBody.
(** [int(length)] on the header value is Python's own parser; [None] is
    [ValueError]. *)
Variable py_int : string -> option Z.
Variable max_bytes : Z.

Definition dispatch {A} (content_length : option string) (call_next : M A)
  : World -> Reply A * World :=
  fun w =>
    let next := let '(o, w') := call_next w in (Passed o, w') in
    match content_length with
    | Some length =>
        match py_int length with
        | Some n =>
            if max_bytes <? n then (PlainTextResponse "Payload too large" 413, w)
            else next
        | None => next
        end
    | None => next
    end.

End LimitBody.

(** *** Health and readiness *)

(** [GET /ready] *)
Definition ready_status (w : World) : dict :=
  [("ready"%string, JBool (frontend_ready (manager w)))].

(** *** Simulator toggle: the state is the module global
    [SIMULATION_ACTIVE], initially [True]. *)

Definition SIMULATION_ACTIVE_init : bool := true.

Definition simulator_state (SIMULATION_ACTIVE : bool) : dict :=
  [("active"%string, JBool SIMULATION_ACTIVE)].

Definition simulator_toggle (env : auth.Secrets) (api_key : option string)
           (SIMULATION_ACTIVE : bool) : outcome dict * bool :=
  match auth.require_api_key env api_key with
  | Raise e => (Raise e, SIMULATION_ACTIVE)
  | Ret _ =>
      let SIMULATION_ACTIVE := negb SIMULATION_ACTIVE in
      (Ret [("active"%string, JBool SIMULATION_ACTIVE)], SIMULATION_ACTIVE)
  end.

(** *** WebSocket endpoint *)

Section WebSocketRoute.
Context {rt : Runtime}.
(** The module global, as loaded at startup. *)
Variable WS_TOKEN : string.

(** The handshake: [None] is an accepted and registered connection,
    [Some 1008] a close without accepting. *)
Definition ws_open (websocket : WebSocket) (token_param : option string)
  : World -> option Z * World :=
  fun w =>
    let token := strip (or_empty (Some (default EmptyString token_param))) in
    let expected := strip (or_empty (Some WS_TOKEN)) in
    if nonempty expected && negb (String.eqb token WS_TOKEN) then (Some 1008, w)
    else (None, with_manager (connect websocket (manager w)) w).

(** One turn of the receive loop. *)
Definition ws_receive (msg : string) (w : World) : World :=
  if String.eqb (lower (strip msg)) "frontend:ready" then mark_ready w else w.

(** [WebSocketDisconnect] or any other exception ends the loop. *)
Definition ws_closed (websocket : WebSocket) (w : World) : World :=
  with_manager (disconnect websocket (manager w)) w.

(** A whole session that nothing else interleaves with: the handshake, the
    text frames received, then the end of the connection. *)
Definition websocket_endpoint (websocket : WebSocket) (token_param : option string)
           (frames : list string) (w : World) : option Z * World :=
  match ws_open websocket token_param w with
  | (Some code, w') => (Some code, w')
  | (None, w1) =>
      (None, ws_closed websocket (fold_left (fun w msg => ws_receive msg w) frames w1))
  end.

End WebSocketRoute.

End routes.
Import routes.

(* ===================================================================== *)
(** ** A concrete runtime and concrete requests *)
(* ===================================================================== *)

Module Demo.

Local Open Scope string_scope.

Definition quote : string := String (ascii_of_nat 34) EmptyString.
Definition quoted (s : string) : string := quote ++ s ++ quote.

(** [{"device_id":"dev-1","metrics":{"temperature":22.0,"vibration":0.1}}] *)
Definition body_metrics : bytes :=
  list_byte_of_string
    ("{" ++ quoted "device_id" ++ ":" ++ quoted "dev-1" ++ "," ++ quoted "metrics" ++ ":{"
     ++ quoted "temperature" ++ ":22.0," ++ quoted "vibration" ++ ":0.1}}").

(** [{"device_id":"dev-1"}] *)
Definition body_bare : bytes :=
  list_byte_of_string ("{" ++ quoted "device_id" ++ ":" ++ quoted "dev-1" ++ "}").

(** [{"device_id":"dev-1","payload":{"metrics":{"temperature":null}}}] *)
Definition body_null_temperature : bytes :=
  list_byte_of_string
    ("{" ++ quoted "device_id" ++ ":" ++ quoted "dev-1" ++ "," ++ quoted "payload" ++ ":{"
     ++ quoted "metrics" ++ ":{" ++ quoted "temperature" ++ ":null}}}").

(** [{"device_id":"dev-1","metrics":{"temperature":30.0,"vibration":0.1}}] *)
Definition body_hot : bytes :=
  list_byte_of_string
    ("{" ++ quoted "device_id" ++ ":" ++ quoted "dev-1" ++ "," ++ quoted "metrics" ++ ":{"
     ++ quoted "temperature" ++ ":30.0," ++ quoted "vibration" ++ ":0.1}}").

Definition same_bytes (x y : bytes) : bool :=
  String.eqb (string_of_list_byte x) (string_of_list_byte y).

(** [json.loads] on the bodies above; every other input is rejected. *)
Definition demo_json_loads (body : bytes) : option json :=
  if same_bytes body body_metrics then
    Some (JObj [("device_id", JStr "dev-1");
                ("metrics", JObj [("temperature", JFloat 22); ("vibration", JFloat 0.1)])])
  else if same_bytes body body_hot then
    Some (JObj [("device_id", JStr "dev-1");
                ("metrics", JObj [("temperature", JFloat 30); ("vibration", JFloat 0.1)])])
  else if same_bytes body body_bare then
    Some (JObj [("device_id", JStr "dev-1")])
  else if same_bytes body body_null_temperature then
    Some (JObj [("device_id", JStr "dev-1");
                ("payload", JObj [("metrics", JObj [("temperature", JNull)])])])
  else None.

Definition number (v : json) : option float :=
  match v with
  | JFloat f => Some f
  | JInt z => match float_of_int z with Ret f => Some f | Raise _ => None end
  | _ => None
  end.

Definition between (lo hi x : float) : bool := PrimFloat.leb lo x && PrimFloat.leb x hi.

(** The [Metrics] schema: both fields required, within their bounds. *)
Definition demo_Metrics (v : json) : option Metrics :=
  match v with
  | JObj d =>
      match dict_get "temperature" d, dict_get "vibration" d with
      | Some t, Some vb =>
          match number t, number vb with
          | Some t, Some vb =>
              if between (-50) 200 t && between 0 100 vb
              then Some (mkMetrics t vb) else None
          | _, _ => None
          end
      | _, _ => None
      end
  | _ => None
  end.

(** The [IngestEvent] schema, read strictly: [device_id] a string of 1 to
    128 characters, [payload] an object (default empty), [metrics] absent,
    null or a valid [Metrics]. *)
Definition demo_validate (v : json) : string + IngestEvent :=
  match v with
  | JObj d =>
      match dict_get "device_id" d with
      | Some (JStr dev) =>
          if (1 <=? String.length dev)%nat && (String.length dev <=? 128)%nat then
            match match dict_get "payload" d with
                  | None => Some []
                  | Some (JObj p) => Some p
                  | Some _ => None
                  end with
            | None => inl "payload: not a dict"
            | Some p =>
                match dict_get "metrics" d with
                | None | Some JNull => inr (mkIngestEvent dev p None)
                | Some m =>
                    match demo_Metrics m with
                    | Some m => inr (mkIngestEvent dev p (Some m))
                    | None => inl "metrics: invalid"
                    end
                end
            end
          else inl "device_id: length"
      | _ => inl "device_id: missing"
      end
  | _ => inl "not a mapping"
  end.

Definition demo_float_of_str (s : string) : option float :=
  if String.eqb s "30" then Some 30%float
  else if String.eqb s "20" then Some 20%float
  else None.

(** Every send succeeds. *)
Definition reliable : Runtime :=
  mkRuntime demo_json_loads demo_validate demo_float_of_str pretty (fun _ _ _ => true).

(** Every send raises. *)
Definition broken : Runtime :=
  mkRuntime demo_json_loads demo_validate demo_float_of_str pretty (fun _ _ _ => false).

Definition cfg (hmac : option string) : Config :=
  mkConfig (auth.mkSecrets (Some "api-key-1") hmac) 60 120.

Definition world0 (BACKLOG_SIZE : Z) : World :=
  mkWorld ∅ [] (ConnectionManager_init BACKLOG_SIZE) [] [].

Definition clock0 : Clock := mkClock 1000 1700000000000000.

Definition request (signature : option string) (body : bytes) : Request :=
  mkRequest (Some "10.0.0.1") (Some "api-key-1") signature body.

(** The messages [{"id": 1}], ..., [{"id": n}]. *)
Definition numbered (n : nat) : list message :=
  map (fun i => [("id", JInt (Z.of_nat i))]) (seq 1 n).

(** A fresh manager with the given connections already registered. *)
Definition hub (conns : list WebSocket) (BACKLOG_SIZE : Z) : World :=
  mkWorld ∅ [] (mkManager conns false [] BACKLOG_SIZE) [] [].

(** A table of four rows inserted at the given instants. *)
Definition rows : list models.Event :=
  [ models.mkEvent 1 "dev-1" 10 [];
    models.mkEvent 2 "dev-2" 30 [];
    models.mkEvent 3 "dev-1" 20 [];
    models.mkEvent 4 "dev-3" 40 [] ].

(** An engine: a merge sort by descending timestamp, and SQLite's reading
    of a negative [LIMIT] (no limit). *)
Definition demo_order_by_desc (l : list models.Event) : list models.Event :=
  merge_sort newer_first l.
Definition demo_negative_limit (limit : Z) (l : list models.Event) : list models.Event := l.

(** [n] request times from [t] on, a quarter of a second apart. *)
Fixpoint ticks (n : nat) (t : float) : list float :=
  match n with
  | O => []
  | S n' => t :: ticks n' (PrimFloat.add t 0.25)
  end.

(** A byte above 127 in a header value, as latin-1 decodes it. *)
Definition e_acute : ascii := ascii_of_nat 233.

End Demo.


(* ===================================================================== *)
(** ** Vocabulary of the statements *)
(* ===================================================================== *)

(** [s] with its [i]-th character replaced by [c] (unchanged past the end). *)
Fixpoint str_replace (i : nat) (c : ascii) (s : string) : string :=
  match s, i with
  | EmptyString, _ => EmptyString
  | String _ s', O => String c s'
  | String a s', S i' => String a (str_replace i' c s')
  end.

(** The last [n] elements of a list. *)
Definition lastn {A} (n : nat) (l : list A) : list A := drop (length l - n) l.

(** How often [ws] is registered. *)
Definition registrations (ws : WebSocket) (conns : list WebSocket) : nat :=
  length (filter (fun x => x = ws) conns).

(** The messages [ws] received: the frames sent to it that did not raise. *)
Definition delivered_to (ws : WebSocket) (sent : list frame) : list message :=
  omap (fun fr : frame =>
          let '(x, msg, ok) := fr in
          if Nat.eqb x ws && ok then Some msg else None) sent.

(** A connection every send to which succeeds. *)
Definition reliable_ws {rt : Runtime} (ws : WebSocket) : Prop :=
  forall n msg, send_json n ws msg = true.

(** The ready flag is up, or nobody is connected. *)
Definition ready_or_empty (m : ConnectionManager) : Prop :=
  frontend_ready m = true \/ active_connections m = [].

(** The backlog is within its (positive) bound. *)
Definition backlog_within_bound (m : ConnectionManager) : Prop :=
  0 < _max_backlog m /\ Z.of_nat (length (_backlog m)) <= _max_backlog m.

(** Calls on the manager other than [mark_ready]. *)
Inductive op :=
| Connect (ws : WebSocket)
| Disconnect (ws : WebSocket)
| Broadcast (msg : message).

Definition run_op {rt : Runtime} (o : op) : M unit :=
  match o with
  | Connect ws => fun w => (Ret tt, with_manager (connect ws (manager w)) w)
  | Disconnect ws => fun w => (Ret tt, with_manager (disconnect ws (manager w)) w)
  | Broadcast msg => broadcast msg
  end.

Fixpoint run_ops {rt : Runtime} (ops : list op) : M unit :=
  match ops with
  | [] => ret tt
  | o :: rest => run_op o ;;; run_ops rest
  end.

Definition broadcast_of (o : op) : option message :=
  match o with
  | Broadcast msg => Some msg
  | _ => None
  end.

(** Consecutive rate-limit checks of one client at the given times. *)
Fixpoint requests (cfg : Config) (ip : string) (times : list float) : M (list bool) :=
  match times with
  | [] => ret []
  | now :: rest =>
      r <- check_rate_limit cfg ip now ;;
      rs <- requests cfg ip rest ;;
      ret (r :: rs)
  end.

(** The payload rule as the specification words it: the supplied payload
    when non-empty, else the metrics document when metrics was supplied,
    else an empty document. *)
Definition payload_rule_as_specified (evt : IngestEvent) : dict :=
  match payload evt, metrics evt with
  | _ :: _, _ => payload evt
  | [], Some m => [("metrics"%string, JObj (Metrics_dict m))]
  | [], None => []
  end.

(** The stored payload holds no JSON number as [temperature] under
    [metrics]. *)
Definition no_numeric_temperature (p : dict) : bool :=
  match dict_get "metrics" p with
  | Some (JObj m) =>
      match dict_get "temperature" m with
      | Some (JInt _) | Some (JFloat _) => false
      | _ => true
      end
  | _ => true
  end.

(** Every request of [times] falls within the window of each later one,
    and so do the earlier timestamps [pre]: the comparison is the rate
    limiter's own, [t >= now - window]. *)
Fixpoint within_one_window (wf : float) (pre times : list float) : bool :=
  match times with
  | [] => true
  | now :: rest =>
      forallb (in_window (PrimFloat.sub now wf)) pre &&
      within_one_window wf (pre ++ [now]) rest
  end.

(** At [now] the window has fully elapsed for the timestamps [ts]. *)
Definition window_elapsed (wf now : float) (ts : list float) : bool :=
  forallb (fun t => negb (in_window (PrimFloat.sub now wf) t)) ts.

Definition accepted (id : Z) : dict :=
  [("status", JStr "accepted"); ("id", JInt id)]%string.

(** The row [/ingest] adds for a validated event. *)
Definition new_event (evt : IngestEvent) (clock : Clock) (w : World) : models.Event :=
  models.mkEvent (Z.of_nat (length (table w)) + 1) (device_id evt) (func_now clock)
                 (db_event_payload evt).

(** The signature the handler compares: the header, or the empty string. *)
Definition presented_signature (request : Request) : string :=
  or_empty (Some (default EmptyString (x_signature request))).

Definition client_ip (request : Request) : string :=
  default "unknown"%string (client_host request).

(** *** Vocabulary of the further properties *)

(** Rate-limit checks of several clients, in their order of arrival. *)
Fixpoint checks (cfg : Config) (reqs : list (string * float)) : M (list bool) :=
  match reqs with
  | [] => ret []
  | (ip, now) :: rest =>
      r <- check_rate_limit cfg ip now ;;
      rs <- checks cfg rest ;;
      ret (r :: rs)
  end.

(** What one client contributes to such a run, and what it is answered. *)
Definition times_of (ip : string) (reqs : list (string * float)) : list float :=
  omap (fun r : string * float =>
          if String.eqb (fst r) ip then Some (snd r) else None) reqs.

Definition verdicts_of (ip : string) (reqs : list (string * float)) (rs : list bool)
  : list bool :=
  omap (fun p : (string * float) * bool =>
          if String.eqb (fst (fst p)) ip then Some (snd p) else None) (zip reqs rs).

(** The parts of a frame of the wire. *)
Definition frame_ws (fr : frame) : WebSocket := fst (fst fr).
Definition frame_ok (fr : frame) : bool := snd fr.

(** The connections whose send succeeded, and those whose send raised. *)
Definition succeeded (sent : list frame) : list WebSocket :=
  omap (fun fr => if frame_ok fr then Some (frame_ws fr) else None) sent.
Definition failed (sent : list frame) : list WebSocket :=
  omap (fun fr => if frame_ok fr then None else Some (frame_ws fr)) sent.

(** One [send_json(msg)] per connection, in the order of the list, when
    [n] sends were made before. *)
Definition attempts {rt : Runtime} (n : nat) (conns : list WebSocket) (msg : message)
  : list frame :=
  imap (fun i ws => (ws, msg, send_json (n + i) ws msg)) conns.

(** What reaches the application while it runs: WebSocket handshakes, text
    frames and closes, direct broadcasts and [POST /ingest] requests.  A
    step keeps the state the call leaves behind, whatever it answered. *)
Inductive event :=
| Handshake (ws : WebSocket) (token : option string)
| Text (msg : string)
| Hangup (ws : WebSocket)
| Publish (msg : message)
| Post (request : Request) (clock : Clock).

Definition step {rt : Runtime} (cfg : Config) (WS_TOKEN : string) (ev : event)
           (w : World) : World :=
  match ev with
  | Handshake ws token => snd (ws_open WS_TOKEN ws token w)
  | Text msg => ws_receive msg w
  | Hangup ws => ws_closed ws w
  | Publish msg => snd (broadcast msg w)
  | Post request clock => snd (ingest_event cfg request clock w)
  end.

Definition run {rt : Runtime} (cfg : Config) (WS_TOKEN : string) (evs : list event)
           (w : World) : World :=
  fold_left (fun w ev => step cfg WS_TOKEN ev w) evs w.

(** The backlog respects the bound [n] fixed at start-up. *)
Definition bounded_by (n : Z) (m : ConnectionManager) : Prop :=
  _max_backlog m = n /\ backlog_within_bound m.

(** A string of whitespace only. *)
Fixpoint blank (s : string) : bool :=
  match s with
  | EmptyString => true
  | String c s' => isspace c && blank s'
  end.

(** No message waits in the backlog while the frontend is flagged ready. *)
Definition drained (m : ConnectionManager) : Prop :=
  frontend_ready m = true -> _backlog m = [].

(** [mark_ready] in the stretches its awaits cut it into: up to the loop
    (the flag is raised and the entries to deliver are fixed), one
    [_safe_broadcast] per entry, and the clearing of the backlog after the
    loop.  The lock is held throughout; a broadcast that finds the flag up
    does not take it. *)
Definition mark_ready_begin (w : World) : list message * World :=
  let w1 := with_manager (set_ready true (manager w)) w in
  let m1 := manager w1 in
  (match _backlog m1, active_connections m1 with
   | _ :: _, _ :: _ => slice_from (- _max_backlog m1) (_backlog m1)
   | _, _ => []
   end,
   w1).

Definition flush {rt : Runtime} (evs : list message) (w : World) : World :=
  fold_left (fun w ev => _safe_broadcast ev w) evs w.

Definition mark_ready_end (w : World) : World :=
  with_manager (set_backlog [] (manager w)) w.

(** [c in s] *)
Fixpoint has_char (c : ascii) (s : string) : bool :=
  match s with
  | EmptyString => false
  | String d s' => Ascii.eqb d c || has_char c s'
  end.

(** Successive [POST /simulator/toggle] requests with the given
    [X-API-KEY] headers: the responses and the flag at the end. *)
Fixpoint toggles (env : auth.Secrets) (keys : list (option string)) (active : bool)
  : list (outcome dict) * bool :=
  match keys with
  | [] => ([], active)
  | k :: rest =>
      let '(o, active1) := simulator_toggle env k active in
      let '(os, active2) := toggles env rest active1 in
      (o :: os, active2)
  end.

(** How many of the presented keys the server accepts. *)
Definition authorised (env : auth.Secrets) (keys : list (option string)) : nat :=
  if truthy (auth.API_KEY env)
  then length (filter (fun k => k = auth.API_KEY env) keys)
  else 0%nat.

(* ===================================================================== *)
(** ** Signatures *)
(* ===================================================================== *)

Section SignatureFacts.

Lemma hex_byte_isascii (x : byte) :
  (ord (hex_digit (Z_of_byte x / 16)) <? 128) &&
  (ord (hex_digit (Z_of_byte x mod 16)) <? 128) = true.
Proof. destruct x; vm_compute; reflexivity. Qed.

Lemma hex_isascii (bs : bytes) : isascii (hex bs) = true.
Proof.
  induction bs as [|x bs IH]; [reflexivity|].
  pose proof (hex_byte_isascii x) as Hx.
  apply andb_true_iff in Hx as [H1 H2].
  cbn [hex isascii]. rewrite H1, H2, IH. reflexivity.
Qed.

Lemma hexdigest_isascii (key body : bytes) : isascii (hexdigest key body) = true.
Proof. apply hex_isascii. Qed.

Lemma hex_length (bs : bytes) : String.length (hex bs) = (2 * length bs)%nat.
Proof. induction bs as [|x bs IH]; cbn [hex String.length length]; lia. Qed.

Lemma sha256_length (msg : bytes) : length (sha256 msg) = 32%nat.
Proof. reflexivity. Qed.

Lemma hexdigest_length (key body : bytes) : String.length (hexdigest key body) = 64%nat.
Proof. unfold hexdigest, hmac_digest. rewrite hex_length, sha256_length. reflexivity. Qed.

Lemma hexdigest_truthy (key body : bytes) : truthy (Some (hexdigest key body)) = true.
Proof.
  pose proof (hexdigest_length key body) as H.
  destruct (hexdigest key body); [discriminate H | reflexivity].
Qed.

Lemma compare_digest_same (a : string) :
  isascii a = true -> auth.compare_digest a a = Ret true.
Proof.
  intros Ha. unfold auth.compare_digest. rewrite Ha, String.eqb_refl. reflexivity.
Qed.

Lemma compare_digest_differ (a c : string) :
  isascii a = true -> isascii c = true -> a <> c ->
  auth.compare_digest a c = Ret false.
Proof.
  intros Ha Hc Hne. unfold auth.compare_digest. rewrite Ha, Hc. cbn.
  destruct (String.eqb_spec a c); [contradiction | reflexivity].
Qed.

Lemma compare_digest_non_ascii (a c : string) :
  isascii c = false -> auth.compare_digest a c = Raise TypeError.
Proof.
  intros Hc. unfold auth.compare_digest. rewrite Hc, andb_false_r. reflexivity.
Qed.

Lemma str_replace_differs (i : nat) (c old : ascii) (s : string) :
  String.get i s = Some old -> old <> c -> str_replace i c s <> s.
Proof.
  revert i. induction s as [|a s IH]; intros i Hget Hne; [discriminate Hget|].
  destruct i as [|i]; cbn in *.
  - injection Hget as ->. intros Heq. injection Heq as Heq. congruence.
  - intros Heq. injection Heq as Heq. exact (IH i Hget Hne Heq).
Qed.

Lemma str_replace_isascii (i : nat) (c : ascii) (s : string) :
  isascii s = true -> ord c < 128 -> isascii (str_replace i c s) = true.
Proof.
  revert i. induction s as [|a s IH]; intros i Hs Hc; [destruct i; reflexivity|].
  cbn [isascii] in Hs. apply andb_true_iff in Hs as [Ha Hs].
  destruct i as [|i]; cbn [str_replace isascii].
  - rewrite Hs. apply Z.ltb_lt in Hc. rewrite Hc. reflexivity.
  - rewrite Ha, (IH i Hs Hc). reflexivity.
Qed.

Lemma str_replace_non_ascii (i : nat) (c : ascii) (s : string) :
  (i < String.length s)%nat -> 128 <= ord c -> isascii (str_replace i c s) = false.
Proof.
  revert i. induction s as [|a s IH]; intros i Hi Hc; cbn [String.length] in Hi; [lia|].
  destruct i as [|i]; cbn [str_replace isascii].
  - apply Z.ltb_ge in Hc. rewrite Hc. reflexivity.
  - rewrite (IH i); [apply andb_false_r | lia | exact Hc].
Qed.

Lemma str_replace_truthy (i : nat) (c : ascii) (s : string) :
  truthy (Some (str_replace i c s)) = truthy (Some s).
Proof. destruct s, i; reflexivity. Qed.

End SignatureFacts.

(* ===================================================================== *)
(** ** The ingestion pipeline, stage by stage *)
(* ===================================================================== *)

Section IngestFacts.
Context {rt : Runtime}.
Variable cfg : Config.

(** The handler as a cascade of its stages. *)
Lemma ingest_event_unfold (request : Request) (clock : Clock) (w : World) :
  ingest_event cfg request clock w =
  match auth.require_api_key (secrets cfg) (x_api_key request) with
  | Raise e => (Raise e, w)
  | Ret _ =>
    match check_rate_limit cfg (client_ip request) (time_time clock) w with
    | (Raise e, w1) => (Raise e, w1)
    | (Ret false, w1) => (Raise (HTTPException 429 "Rate limit exceeded"), w1)
    | (Ret true, w1) =>
      match check_signature cfg (body request) (presented_signature request) w1 with
      | (Raise e, w2) => (Raise e, w2)
      | (Ret _, w2) =>
        match json_loads (body request) with
        | None => (Raise (HTTPException 400 "Invalid JSON payload"), w2)
        | Some parsed =>
          match IngestEvent_validate parsed with
          | inl e => (Raise (HTTPException 400 ("Invalid event structure: " ++ e)), w2)
          | inr evt =>
            let e := new_event evt clock w2 in
            match broadcast (event_data_of e) (with_table (table w2 ++ [e]) w2) with
            | (Raise x, w3) => (Raise x, w3)
            | (Ret _, w3) =>
                (Ret (accepted (models.id e)),
                 snd (anomaly_detection (event_data_of e) w3))
            end
          end
        end
      end
    end
  end.
Proof.
  unfold ingest_event, bind, lift, client_ip, presented_signature.
  destruct (auth.require_api_key _ _); [|reflexivity].
  destruct (check_rate_limit _ _ _ _) as [[[|]|] w1]; cbn; try reflexivity.
  destruct (check_signature _ _ _ _) as [[|] w2]; cbn; try reflexivity.
  destruct (json_loads _); cbn; [|reflexivity].
  destruct (IngestEvent_validate _); cbn; [reflexivity|].
  unfold db_add, new_event.
  destruct (broadcast _ _) as [[|] w3]; cbn; reflexivity.
Qed.

(** Which parts of the world each stage leaves alone. *)

Lemma check_rate_limit_frame (ip : string) (now : float) (w : World) :
  let w1 := snd (check_rate_limit cfg ip now w) in
  table w1 = table w /\ manager w1 = manager w /\
  wire w1 = wire w /\ broadcasts w1 = broadcasts w.
Proof.
  unfold check_rate_limit. destruct (window_start cfg now); cbn; [|tauto].
  destruct (_ >=? _); cbn; tauto.
Qed.

Lemma check_signature_frame (bd : bytes) (sig : string) (w : World) :
  snd (check_signature cfg bd sig w) = w.
Proof.
  unfold check_signature, bind, lift, raise, ret.
  destruct (auth.HMAC_SECRET (secrets cfg)) as [[|c0 s0]|]; try reflexivity.
  destruct (auth.compare_digest _ _) as [[|]|]; reflexivity.
Qed.

Lemma safe_broadcast_frame (msg : message) (w : World) :
  table (_safe_broadcast msg w) = table w /\
  broadcasts (_safe_broadcast msg w) = broadcasts w.
Proof.
  unfold _safe_broadcast. destruct (send_pass _ _ _). cbn. tauto.
Qed.

Lemma broadcast_frame (msg : message) (w : World) :
  table (snd (broadcast msg w)) = table w /\
  broadcasts (snd (broadcast msg w)) = broadcasts w ++ [msg].
Proof.
  unfold broadcast. cbn.
  destruct (frontend_ready (manager w)); cbn.
  - unfold _safe_broadcast. cbn. destruct (send_pass _ _ _). cbn. tauto.
  - destruct (_ >=? _); cbn; [|tauto].
    destruct (_backlog (manager w)); cbn; tauto.
Qed.

(** With a positive bound, [broadcast] never raises. *)
Lemma broadcast_returns (msg : message) (w : World) :
  0 < _max_backlog (manager w) -> fst (broadcast msg w) = Ret tt.
Proof.
  intros Hmax. unfold broadcast. cbn.
  destruct (frontend_ready (manager w)); cbn; [reflexivity|].
  destruct (Z.geb_spec (Z.of_nat (length (_backlog (manager w)))) (_max_backlog (manager w)))
    as [Hge|Hlt]; [|reflexivity].
  destruct (_backlog (manager w)); [cbn in Hge; lia | reflexivity].
Qed.

(** The [try] block never raises, and leaves the table alone. *)
Lemma anomaly_detection_returns (event_data : dict) (w : World) :
  fst (anomaly_detection event_data w) = Ret tt.
Proof. reflexivity. Qed.

Lemma anomaly_detection_table (event_data : dict) (w : World) :
  table (snd (anomaly_detection event_data w)) = table w.
Proof.
  unfold anomaly_detection, try_pass, bind, lift, ret. cbn.
  destruct (extract_metrics event_data) as [[temp vib]|]; cbn; [|reflexivity].
  destruct (is_anomaly temp vib); [apply broadcast_frame | reflexivity].
Qed.

(** The broadcasts of the [try] block, by the outcome of the extraction. *)
Lemma anomaly_detection_broadcasts (event_data : dict) (w : World) :
  broadcasts (snd (anomaly_detection event_data w)) =
  match extract_metrics event_data with
  | Ret (temp, vib) =>
      if is_anomaly temp vib
      then broadcasts w ++ [anomaly_message event_data]
      else broadcasts w
  | Raise _ => broadcasts w
  end.
Proof.
  unfold anomaly_detection, try_pass, bind, lift, ret. cbn.
  destruct (extract_metrics event_data) as [[temp vib]|]; cbn; [|reflexivity].
  destruct (is_anomaly temp vib); [apply broadcast_frame | reflexivity].
Qed.

(** An accepted request went through every stage. *)
Lemma ingest_event_accepted (request : Request) (clock : Clock) (w w' : World)
      (resp : dict) :
  ingest_event cfg request clock w = (Ret resp, w') ->
  exists w1 parsed evt w3,
    auth.require_api_key (secrets cfg) (x_api_key request) = Ret true /\
    check_rate_limit cfg (client_ip request) (time_time clock) w = (Ret true, w1) /\
    check_signature cfg (body request) (presented_signature request) w1 = (Ret tt, w1) /\
    json_loads (body request) = Some parsed /\
    IngestEvent_validate parsed = inr evt /\
    broadcast (event_data_of (new_event evt clock w))
              (with_table (table w ++ [new_event evt clock w]) w1) = (Ret tt, w3) /\
    w' = snd (anomaly_detection (event_data_of (new_event evt clock w)) w3) /\
    resp = accepted (models.id (new_event evt clock w)).
Proof.
  rewrite ingest_event_unfold.
  destruct (auth.require_api_key _ _) as [k|] eqn:Hkey; [|discriminate].
  destruct (check_rate_limit _ _ _ _) as [[[|]|] w1] eqn:Hrate; try discriminate.
  destruct (check_signature _ _ _ _) as [[[]|] w2] eqn:Hsig; try discriminate.
  destruct (json_loads _) as [parsed|] eqn:Hjson; [|discriminate].
  destruct (IngestEvent_validate _) as [|evt] eqn:Hval; [discriminate|].
  cbv zeta.
  pose proof (check_signature_frame (body request) (presented_signature request) w1) as Hw2.
  rewrite Hsig in Hw2. cbn in Hw2. subst w2.
  pose proof (check_rate_limit_frame (client_ip request) (time_time clock) w) as Hfr.
  rewrite Hrate in Hfr. cbn in Hfr. destruct Hfr as (Htab & _).
  assert (Hnew : new_event evt clock w1 = new_event evt clock w)
    by (unfold new_event; rewrite Htab; reflexivity).
  rewrite Hnew, Htab.
  destruct (broadcast _ _) as [[[]|] w3] eqn:Hb; [|discriminate].
  intros Heq. injection Heq as <- <-.
  exists w1, parsed, evt, w3.
  assert (Hk : k = true).
  { unfold auth.require_api_key in Hkey.
    destruct (negb _); [discriminate|]. destruct (negb _); [discriminate|].
    congruence. }
  subst k. repeat split; first [assumption | reflexivity].
Qed.

(** The table after an accepted request: one more row. *)
Lemma ingest_event_table (request : Request) (clock : Clock) (w w' : World)
      (resp : dict) :
  ingest_event cfg request clock w = (Ret resp, w') ->
  exists parsed evt,
    json_loads (body request) = Some parsed /\
    IngestEvent_validate parsed = inr evt /\
    table w' = table w ++ [new_event evt clock w].
Proof.
  intros Hrun.
  destruct (ingest_event_accepted _ _ _ _ _ Hrun)
    as (w1 & parsed & evt & w3 & _ & _ & _ & Hjson & Hval & Hb & -> & _).
  exists parsed, evt. repeat split; try assumption.
  rewrite anomaly_detection_table.
  pose proof (broadcast_frame (event_data_of (new_event evt clock w))
                (with_table (table w ++ [new_event evt clock w]) w1)) as [Ht _].
  rewrite Hb in Ht. exact Ht.
Qed.

(** The forward reading: a request that passes every stage is accepted,
    whatever the [try] block does. *)
Lemma ingest_event_run (request : Request) (clock : Clock) (w w1 : World)
      (parsed : json) (evt : IngestEvent) :
  auth.require_api_key (secrets cfg) (x_api_key request) = Ret true ->
  check_rate_limit cfg (client_ip request) (time_time clock) w = (Ret true, w1) ->
  check_signature cfg (body request) (presented_signature request) w1 = (Ret tt, w1) ->
  json_loads (body request) = Some parsed ->
  IngestEvent_validate parsed = inr evt ->
  let e := new_event evt clock w in
  let sent := broadcast (event_data_of e) (with_table (table w ++ [e]) w1) in
  fst sent = Ret tt ->
  ingest_event cfg request clock w =
  (Ret (accepted (models.id e)), snd (anomaly_detection (event_data_of e) (snd sent))).
Proof.
  intros Hkey Hrate Hsig Hjson Hval e sent Hsent.
  rewrite ingest_event_unfold, Hkey, Hrate, Hsig, Hjson, Hval. cbv zeta.
  pose proof (check_rate_limit_frame (client_ip request) (time_time clock) w) as Hfr.
  rewrite Hrate in Hfr. cbn in Hfr. destruct Hfr as (Htab & _).
  assert (Hnew : new_event evt clock w1 = e)
    by (unfold e, new_event; rewrite Htab; reflexivity).
  rewrite Hnew, Htab. fold sent.
  destruct sent as [[[]|] w3]; [reflexivity | discriminate Hsent].
Qed.

Lemma check_signature_unconfigured (bd : bytes) (sig : string) (w : World) :
  truthy (auth.HMAC_SECRET (secrets cfg)) = false ->
  check_signature cfg bd sig w = (Ret tt, w).
Proof.
  unfold check_signature.
  destruct (auth.HMAC_SECRET (secrets cfg)) as [[|c0 s0]|]; cbn;
    [reflexivity | discriminate | reflexivity].
Qed.

Lemma check_signature_configured (secret : string) (bd : bytes) (sig : string) (w : World) :
  auth.HMAC_SECRET (secrets cfg) = Some secret ->
  secret <> EmptyString ->
  check_signature cfg bd sig w =
  match auth.compare_digest (hexdigest (encode secret) bd) sig with
  | Raise e => (Raise e, w)
  | Ret false => (Raise (HTTPException 401 "Invalid HMAC signature"), w)
  | Ret true => (Ret tt, w)
  end.
Proof.
  intros Hs Hne. unfold check_signature, bind, lift, raise, ret. rewrite Hs.
  destruct secret as [|c0 s0]; [contradiction|].
  destruct (auth.compare_digest _ _) as [[|]|]; reflexivity.
Qed.

End IngestFacts.

Lemma verify_hmac_configured (env : auth.Secrets) (secret : string) (bd : bytes)
      (sig : option string) :
  auth.HMAC_SECRET env = Some secret ->
  secret <> EmptyString ->
  truthy sig = true ->
  auth.verify_hmac env bd sig =
  match auth.compare_digest (hexdigest (encode secret) bd) (or_empty sig) with
  | Raise e => Raise e
  | Ret false => Raise (HTTPException 401 "Invalid HMAC signature")
  | Ret true => Ret true
  end.
Proof.
  intros Hs Hne Hsig. unfold auth.verify_hmac. rewrite Hs.
  destruct secret as [|c0 s0]; [contradiction|].
  rewrite Hsig. reflexivity.
Qed.

(* ===================================================================== *)
(** ** Authentication of [/ingest] *)
(* ===================================================================== *)

(** C1.  The claim says that [/ingest] fails closed (500, nothing
    persisted) whenever no HMAC secret is configured.  The handler does
    not: its inline check is skipped when the secret is unset, so a request
    with a valid API key and a well-formed body is accepted and its event
    persisted, with or without a signature.  The dependency [verify_hmac],
    which does answer 500 in that configuration, is imported by
    [main.py] and never attached to the route. *)
Theorem ingest_without_hmac_secret_is_accepted
    (rt : Runtime) (cfg : Config) (request : Request) (clock : Clock)
    (w w1 : World) (parsed : json) (evt : IngestEvent) :
  truthy (auth.HMAC_SECRET (secrets cfg)) = false ->
  auth.require_api_key (secrets cfg) (x_api_key request) = Ret true ->
  check_rate_limit cfg (client_ip request) (time_time clock) w = (Ret true, w1) ->
  json_loads (body request) = Some parsed ->
  IngestEvent_validate parsed = inr evt ->
  0 < _max_backlog (manager w) ->
  exists w',
    ingest_event cfg request clock w =
      (Ret (accepted (Z.of_nat (length (table w)) + 1)), w') /\
    http_status (fst (ingest_event cfg request clock w)) = 200 /\
    table w' = table w ++ [new_event evt clock w] /\
    auth.verify_hmac (secrets cfg) (body request) (x_signature request) =
      Raise (HTTPException 500 "HMAC_SECRET not configured on server").
Proof.
  intros Hsecret Hkey Hrate Hjson Hval Hmax.
  pose proof (check_rate_limit_frame cfg (client_ip request) (time_time clock) w) as Hfr.
  rewrite Hrate in Hfr. cbn in Hfr. destruct Hfr as (_ & Hmgr & _).
  set (e := new_event evt clock w).
  assert (Hsent : fst (broadcast (event_data_of e) (with_table (table w ++ [e]) w1)) = Ret tt).
  { apply broadcast_returns. cbn. rewrite Hmgr. exact Hmax. }
  pose proof (ingest_event_run cfg request clock w w1 parsed evt Hkey Hrate
                (check_signature_unconfigured cfg _ _ w1 Hsecret) Hjson Hval Hsent) as Hrun.
  eexists. split; [exact Hrun|]. split; [rewrite Hrun; reflexivity|]. split.
  - rewrite anomaly_detection_table.
    apply (broadcast_frame (event_data_of e) (with_table (table w ++ [e]) w1)).
  - unfold auth.verify_hmac.
    destruct (auth.HMAC_SECRET (secrets cfg)) as [[|c0 s0]|];
      [reflexivity | discriminate Hsecret | reflexivity].
Qed.

Lemma ingest_without_hmac_secret_is_accepted_witness :
  exists w',
    ingest_event (rt := Demo.reliable) (Demo.cfg None) (Demo.request None Demo.body_bare)
                 Demo.clock0 (Demo.world0 500) = (Ret (accepted 1), w') /\
    http_status (fst (ingest_event (rt := Demo.reliable) (Demo.cfg None)
                        (Demo.request None Demo.body_bare) Demo.clock0 (Demo.world0 500))) = 200 /\
    table w' = [models.mkEvent 1 "dev-1" 1700000000000000 [("metrics"%string, JObj [])]] /\
    auth.verify_hmac (secrets (Demo.cfg None)) Demo.body_bare None =
      Raise (HTTPException 500 "HMAC_SECRET not configured on server").
Proof.
  refine (ingest_without_hmac_secret_is_accepted Demo.reliable (Demo.cfg None)
            (Demo.request None Demo.body_bare) Demo.clock0 (Demo.world0 500)
            (snd (check_rate_limit (Demo.cfg None) "10.0.0.1" 1000%float (Demo.world0 500)))
            (JObj [("device_id"%string, JStr "dev-1")])
            (mkIngestEvent "dev-1" [] None) _ _ _ _ _ _).
  - reflexivity.
  - vm_compute. reflexivity.
  - vm_compute. reflexivity.
  - vm_compute. reflexivity.
  - vm_compute. reflexivity.
  - cbn. lia.
Defined.

(** The correct signature verifies, in the handler's inline check and in
    [verify_hmac]. *)
Lemma signature_round_trip (cfg : Config) (secret : string)
      (bd : bytes) (w : World) :
  auth.HMAC_SECRET (secrets cfg) = Some secret ->
  secret <> EmptyString ->
  check_signature cfg bd (hexdigest (encode secret) bd) w = (Ret tt, w) /\
  auth.verify_hmac (secrets cfg) bd (Some (hexdigest (encode secret) bd)) = Ret true.
Proof.
  intros Hs Hne. split.
  - rewrite (check_signature_configured cfg secret bd _ w Hs Hne).
    rewrite compare_digest_same by apply hexdigest_isascii. reflexivity.
  - rewrite (verify_hmac_configured _ secret bd _ Hs Hne (hexdigest_truthy _ _)).
    cbn [or_empty]. rewrite compare_digest_same by apply hexdigest_isascii.
    reflexivity.
Qed.

(** Replacing one character of the correct signature by a different ASCII
    character is answered 401. *)
Lemma signature_ascii_flip_is_401 (cfg : Config) (secret : string)
      (bd : bytes) (w : World) (i : nat) (c old : ascii) :
  auth.HMAC_SECRET (secrets cfg) = Some secret ->
  secret <> EmptyString ->
  String.get i (hexdigest (encode secret) bd) = Some old ->
  old <> c ->
  ord c < 128 ->
  let forged := str_replace i c (hexdigest (encode secret) bd) in
  check_signature cfg bd forged w =
    (Raise (HTTPException 401 "Invalid HMAC signature"), w) /\
  auth.verify_hmac (secrets cfg) bd (Some forged) =
    Raise (HTTPException 401 "Invalid HMAC signature").
Proof.
  intros Hs Hne Hget Hold Hc forged.
  assert (Hcmp : auth.compare_digest (hexdigest (encode secret) bd) forged = Ret false).
  { apply compare_digest_differ.
    - apply hexdigest_isascii.
    - apply str_replace_isascii; [apply hexdigest_isascii | exact Hc].
    - intros Heq. symmetry in Heq. revert Heq.
      exact (str_replace_differs i c old _ Hget Hold). }
  split.
  - rewrite (check_signature_configured cfg secret bd _ w Hs Hne), Hcmp. reflexivity.
  - rewrite (verify_hmac_configured _ secret bd _ Hs Hne).
    + cbn [or_empty]. rewrite Hcmp. reflexivity.
    + unfold forged. rewrite str_replace_truthy. apply hexdigest_truthy.
Qed.

(** C2.  The claim says that changing any single character of the correct
    signature is answered 401.  When the new character is not ASCII (a
    header byte above 127), [hmac.compare_digest] raises [TypeError], which
    neither the handler nor [verify_hmac] catches: the request ends in an
    unhandled exception (500), not in 401. *)
Theorem signature_non_ascii_flip_is_unhandled
    (rt : Runtime) (cfg : Config) (secret : string) (request : Request)
    (clock : Clock) (w w1 : World) (i : nat) (c : ascii) :
  auth.HMAC_SECRET (secrets cfg) = Some secret ->
  secret <> EmptyString ->
  (i < 64)%nat ->
  128 <= ord c ->
  x_signature request =
    Some (str_replace i c (hexdigest (encode secret) (body request))) ->
  auth.require_api_key (secrets cfg) (x_api_key request) = Ret true ->
  check_rate_limit cfg (client_ip request) (time_time clock) w = (Ret true, w1) ->
  ingest_event cfg request clock w = (Raise TypeError, w1) /\
  http_status (fst (ingest_event cfg request clock w)) = 500 /\
  auth.verify_hmac (secrets cfg) (body request) (x_signature request) = Raise TypeError.
Proof.
  intros Hs Hne Hi Hc Hsig Hkey Hrate.
  set (forged := str_replace i c (hexdigest (encode secret) (body request))) in *.
  assert (Hcmp : auth.compare_digest (hexdigest (encode secret) (body request)) forged
                 = Raise TypeError).
  { apply compare_digest_non_ascii. apply str_replace_non_ascii; [|exact Hc].
    rewrite hexdigest_length. exact Hi. }
  assert (Hrun : ingest_event cfg request clock w = (Raise TypeError, w1)).
  { rewrite ingest_event_unfold, Hkey, Hrate.
    unfold presented_signature. rewrite Hsig.
    change (or_empty (Some (default EmptyString (Some forged)))) with forged.
    rewrite (check_signature_configured cfg secret _ _ w1 Hs Hne), Hcmp. reflexivity. }
  split; [exact Hrun|]. split; [rewrite Hrun; reflexivity|].
  rewrite Hsig, (verify_hmac_configured _ secret _ _ Hs Hne).
  - cbn [or_empty]. rewrite Hcmp. reflexivity.
  - unfold forged. rewrite str_replace_truthy. apply hexdigest_truthy.
Qed.

Lemma signature_non_ascii_flip_is_unhandled_witness :
  let secret := "s3cr3t-key"%string in
  let forged := str_replace 0 Demo.e_acute (hexdigest (encode secret) Demo.body_metrics) in
  let rq := Demo.request (Some forged) Demo.body_metrics in
  let w := Demo.world0 500 in
  hexdigest (encode secret) Demo.body_metrics =
    "db926c9d0af2ed7a524d4cc62d41188f94da11608ca831ff07620ba460100f1d"%string /\
  ingest_event (rt := Demo.reliable) (Demo.cfg (Some secret)) rq Demo.clock0 w =
    (Raise TypeError,
     snd (check_rate_limit (Demo.cfg (Some secret)) "10.0.0.1" 1000%float w)) /\
  http_status (fst (ingest_event (rt := Demo.reliable) (Demo.cfg (Some secret)) rq
                                 Demo.clock0 w)) = 500 /\
  auth.verify_hmac (secrets (Demo.cfg (Some secret))) Demo.body_metrics (Some forged)
    = Raise TypeError.
Proof.
  cbv zeta. split; [vm_compute; reflexivity|].
  refine (signature_non_ascii_flip_is_unhandled Demo.reliable
            (Demo.cfg (Some "s3cr3t-key"%string)) "s3cr3t-key"
            (Demo.request (Some (str_replace 0 Demo.e_acute
               (hexdigest (encode "s3cr3t-key") Demo.body_metrics))) Demo.body_metrics)
            Demo.clock0 (Demo.world0 500) _ 0%nat Demo.e_acute _ _ _ _ _ _ _).
  - reflexivity.
  - discriminate.
  - lia.
  - vm_compute. discriminate.
  - reflexivity.
  - vm_compute. reflexivity.
  - vm_compute. reflexivity.
Defined.

(* ===================================================================== *)
(** ** The persisted payload and the anomaly check *)
(* ===================================================================== *)

Section AnomalyFacts.
Context {rt : Runtime}.
Variable cfg : Config.

(** [{"type": "anomaly", **event_data}] puts the marker first and keeps
    the four fields of the event. *)
Lemma anomaly_message_event (e : models.Event) :
  anomaly_message (event_data_of e) = ("type"%string, JStr "anomaly") :: event_data_of e.
Proof. reflexivity. Qed.

Lemma float_of_int_0 : float_of_int 0 = Ret 0%float.
Proof. reflexivity. Qed.

(** What the [try] block extracts from the event it broadcasts. *)
Lemma extract_metrics_event (e : models.Event) :
  extract_metrics (event_data_of e) =
  match dict_get "metrics" (models.payload e) with
  | None => Ret (0%float, 0%float)
  | Some (JObj m) =>
      obind (py_float float_of_str (default (JInt 0) (dict_get "temperature" m))) (fun temp =>
      obind (py_float float_of_str (default (JInt 0) (dict_get "vibration" m))) (fun vib =>
      Ret (temp, vib)))
  | Some _ => Raise AttributeError
  end.
Proof.
  unfold extract_metrics, event_data_of. cbn.
  destruct (dict_get "metrics" (models.payload e)) as [v|]; cbn; [|reflexivity].
  destruct v; cbn; try reflexivity.
  destruct (dict_get "temperature" fields); cbn;
    destruct (dict_get "vibration" fields); reflexivity.
Qed.

(** The broadcasts of one accepted call. *)
Lemma ingest_event_broadcasts (request : Request) (clock : Clock) (w w' : World)
      (resp : dict) :
  ingest_event cfg request clock w = (Ret resp, w') ->
  exists parsed evt,
    json_loads (body request) = Some parsed /\
    IngestEvent_validate parsed = inr evt /\
    let e := new_event evt clock w in
    table w' = table w ++ [e] /\
    broadcasts w' =
      (broadcasts w ++ [event_data_of e]) ++
      match extract_metrics (event_data_of e) with
      | Ret (temp, vib) =>
          if is_anomaly temp vib then [anomaly_message (event_data_of e)] else []
      | Raise _ => []
      end.
Proof.
  intros Hrun.
  destruct (ingest_event_accepted cfg _ _ _ _ _ Hrun)
    as (w1 & parsed & evt & w3 & _ & Hrate & _ & Hjson & Hval & Hb & Hw' & _).
  exists parsed, evt. split; [exact Hjson|]. split; [exact Hval|]. cbv zeta.
  set (e := new_event evt clock w) in *.
  pose proof (check_rate_limit_frame cfg (client_ip request) (time_time clock) w) as Hfr.
  rewrite Hrate in Hfr. cbn in Hfr. destruct Hfr as (_ & _ & _ & Hbc).
  pose proof (broadcast_frame (event_data_of e) (with_table (table w ++ [e]) w1)) as [Ht Hb3].
  rewrite Hb in Ht, Hb3. cbn in Ht, Hb3. rewrite Hbc in Hb3.
  subst w'. split.
  - rewrite anomaly_detection_table. exact Ht.
  - rewrite anomaly_detection_broadcasts, Hb3.
    destruct (extract_metrics (event_data_of e)) as [[temp vib]|];
      [destruct (is_anomaly temp vib)|]; rewrite ?app_nil_r; reflexivity.
Qed.

End AnomalyFacts.

(** C3, as the claim states it, fails: with neither payload nor metrics
    the stored payload is [{"metrics": {}}], not the empty document. *)
Lemma persisted_payload_not_as_specified :
  ~ (forall (rt : Runtime) (cfg : Config) (request : Request) (clock : Clock)
            (w w' : World) (resp : dict) (parsed : json) (evt : IngestEvent),
        ingest_event cfg request clock w = (Ret resp, w') ->
        json_loads (body request) = Some parsed ->
        IngestEvent_validate parsed = inr evt ->
        exists e, table w' = table w ++ [e] /\
                  models.payload e = payload_rule_as_specified evt).
Proof.
  intros Hclaim.
  destruct (Hclaim Demo.reliable (Demo.cfg None) (Demo.request None Demo.body_bare)
              Demo.clock0 (Demo.world0 500)
              (snd (ingest_event (rt := Demo.reliable) (Demo.cfg None)
                      (Demo.request None Demo.body_bare) Demo.clock0 (Demo.world0 500)))
              (accepted 1) (JObj [("device_id"%string, JStr "dev-1")])
              (mkIngestEvent "dev-1" [] None))
    as (e & Htab & Hpay).
  - vm_compute. reflexivity.
  - vm_compute. reflexivity.
  - vm_compute. reflexivity.
  - vm_compute in Htab. injection Htab as <-. discriminate Hpay.
Qed.

(** C3 (amended).  For every accepted [/ingest] request the payload of the
    row it adds is the supplied payload when that is non-empty; otherwise
    [{"metrics": <metrics document>}] when metrics was supplied; otherwise
    [{"metrics": {}}]. *)
Theorem ingest_persists_payload
    (rt : Runtime) (cfg : Config) (request : Request) (clock : Clock)
    (w w' : World) (resp : dict) :
  ingest_event cfg request clock w = (Ret resp, w') ->
  exists parsed evt e,
    json_loads (body request) = Some parsed /\
    IngestEvent_validate parsed = inr evt /\
    table w' = table w ++ [e] /\
    models.device_id e = device_id evt /\
    models.payload e =
      match payload evt, metrics evt with
      | _ :: _, _ => payload evt
      | [], Some m =>
          [("metrics"%string,
            JObj [("temperature"%string, JFloat (temperature m));
                  ("vibration"%string, JFloat (vibration m))])]
      | [], None => [("metrics"%string, JObj [])]
      end.
Proof.
  intros Hrun.
  destruct (ingest_event_table cfg _ _ _ _ _ Hrun) as (parsed & evt & Hjson & Hval & Htab).
  exists parsed, evt, (new_event evt clock w).
  repeat split; try assumption.
  unfold new_event, db_event_payload. cbn.
  destruct (payload evt); [destruct (metrics evt)|]; reflexivity.
Qed.

Lemma ingest_persists_payload_witness :
  exists w',
    ingest_event (rt := Demo.reliable) (Demo.cfg None) (Demo.request None Demo.body_metrics)
                 Demo.clock0 (Demo.world0 500) = (Ret (accepted 1), w') /\
    map models.payload (table w') =
      [[("metrics"%string,
         JObj [("temperature"%string, JFloat 22); ("vibration"%string, JFloat 0.1)])]].
Proof.
  eexists. split; [vm_compute; reflexivity|].
  destruct (ingest_persists_payload Demo.reliable (Demo.cfg None)
              (Demo.request None Demo.body_metrics) Demo.clock0 (Demo.world0 500) _ _
              ltac:(vm_compute; reflexivity))
    as (parsed & evt & e & Hjson & Hval & Htab & _ & Hpay).
  vm_compute in Hjson. injection Hjson as <-.
  vm_compute in Hval. injection Hval as <-.
  rewrite Htab. cbn. rewrite Hpay. reflexivity.
Defined.

(** C4.  One accepted [/ingest] call produces the plain event message and,
    exactly when the extraction succeeds with temperature below 18 or
    above 25 or vibration above 0.8, a second message that is the same
    document with ["type": "anomaly"] added in front; otherwise it produces
    the plain message alone.  A missing [metrics], [temperature] or
    [vibration] counts as 0; a failed extraction produces no anomaly
    message, and the [try] block never raises, so the request is accepted
    whatever the extraction does. *)
Theorem ingest_broadcast_count
    (rt : Runtime) (cfg : Config) (request : Request) (clock : Clock)
    (w w' : World) (resp : dict) :
  ingest_event cfg request clock w = (Ret resp, w') ->
  exists parsed evt,
    json_loads (body request) = Some parsed /\
    IngestEvent_validate parsed = inr evt /\
    let e := new_event evt clock w in
    let ev := event_data_of e in
    (* the messages of this call, by the outcome of the extraction *)
    match extract_metrics ev with
    | Ret (temp, vib) =>
        if PrimFloat.ltb temp 18 || PrimFloat.ltb 25 temp || PrimFloat.ltb 0.8 vib
        then broadcasts w' = broadcasts w ++ [ev; ("type"%string, JStr "anomaly") :: ev]
        else broadcasts w' = broadcasts w ++ [ev]
    | Raise _ => broadcasts w' = broadcasts w ++ [ev]
    end /\
    (* missing fields default to 0, anything without [get] fails *)
    extract_metrics ev =
      match dict_get "metrics" (models.payload e) with
      | None => Ret (0%float, 0%float)
      | Some (JObj m) =>
          obind (py_float float_of_str (default (JInt 0) (dict_get "temperature" m)))
            (fun temp =>
          obind (py_float float_of_str (default (JInt 0) (dict_get "vibration" m)))
            (fun vib => Ret (temp, vib)))
      | Some _ => Raise AttributeError
      end /\
    (* the try block never fails the request *)
    (forall w3, fst (anomaly_detection ev w3) = Ret tt) /\
    resp = accepted (models.id e).
Proof.
  intros Hrun.
  destruct (ingest_event_broadcasts cfg _ _ _ _ _ Hrun)
    as (parsed & evt & Hjson & Hval & _ & Hbc).
  destruct (ingest_event_accepted cfg _ _ _ _ _ Hrun)
    as (_ & parsed' & evt' & _ & _ & _ & _ & Hjson' & Hval' & _ & _ & Hresp).
  assert (parsed' = parsed) by congruence. subst parsed'.
  assert (evt' = evt) by congruence. subst evt'.
  exists parsed, evt. split; [exact Hjson|]. split; [exact Hval|].
  cbv zeta in *. split; [|split; [apply extract_metrics_event|split; [reflexivity|exact Hresp]]].
  rewrite Hbc, anomaly_message_event. unfold is_anomaly.
  destruct (extract_metrics _) as [[temp vib]|].
  - destruct (_ || _); rewrite <- app_assoc; reflexivity.
  - rewrite app_nil_r. reflexivity.
Qed.

Lemma ingest_broadcast_count_witness :
  (* temperature 30: the event and its anomaly copy *)
  (let w' := snd (ingest_event (rt := Demo.reliable) (Demo.cfg None)
                    (Demo.request None Demo.body_hot) Demo.clock0 (Demo.world0 500)) in
   map (dict_get "type") (broadcasts w') = [None; Some (JStr "anomaly")]) /\
  (* temperature 22, vibration 0.1: the event alone *)
  (let w' := snd (ingest_event (rt := Demo.reliable) (Demo.cfg None)
                    (Demo.request None Demo.body_metrics) Demo.clock0 (Demo.world0 500)) in
   map (dict_get "type") (broadcasts w') = [None]).
Proof.
  split; intros w'.
  - destruct (ingest_broadcast_count Demo.reliable (Demo.cfg None)
                (Demo.request None Demo.body_hot) Demo.clock0 (Demo.world0 500)
                w' (accepted 1) ltac:(vm_compute; reflexivity))
      as (parsed & evt & Hjson & Hval & Hbc & _).
    vm_compute in Hjson. injection Hjson as <-.
    vm_compute in Hval. injection Hval as <-.
    set (bw := broadcasts w') in *. clearbody bw.
    vm_compute in Hbc. rewrite Hbc. reflexivity.
  - destruct (ingest_broadcast_count Demo.reliable (Demo.cfg None)
                (Demo.request None Demo.body_metrics) Demo.clock0 (Demo.world0 500)
                w' (accepted 1) ltac:(vm_compute; reflexivity))
      as (parsed & evt & Hjson & Hval & Hbc & _).
    vm_compute in Hjson. injection Hjson as <-.
    vm_compute in Hval. injection Hval as <-.
    set (bw := broadcasts w') in *. clearbody bw.
    vm_compute in Hbc. rewrite Hbc. reflexivity.
Defined.

(** C10, as the claim states it, fails: a stored payload whose
    [temperature] is [null] holds no numeric temperature, yet [float(None)]
    raises inside the [try] block and no anomaly message is produced. *)
Lemma anomaly_not_for_every_missing_temperature :
  ~ (forall (rt : Runtime) (cfg : Config) (request : Request) (clock : Clock)
            (w w' : World) (resp : dict) (e : models.Event),
        ingest_event cfg request clock w = (Ret resp, w') ->
        table w' = table w ++ [e] ->
        no_numeric_temperature (models.payload e) = true ->
        broadcasts w' =
          broadcasts w ++ [event_data_of e; anomaly_message (event_data_of e)]).
Proof.
  intros Hclaim.
  specialize (Hclaim Demo.reliable (Demo.cfg None)
                (Demo.request None Demo.body_null_temperature)
                Demo.clock0 (Demo.world0 500)
                (snd (ingest_event (rt := Demo.reliable) (Demo.cfg None)
                        (Demo.request None Demo.body_null_temperature)
                        Demo.clock0 (Demo.world0 500)))
                (accepted 1)
                (models.mkEvent 1 "dev-1" 1700000000000000
                   [("metrics"%string, JObj [("temperature"%string, JNull)])])).
  assert (Hlen : forall l1 l2 : list message, l1 = l2 -> length l1 = length l2)
    by (intros ? ? ->; reflexivity).
  apply Hlen in Hclaim.
  - vm_compute in Hclaim. discriminate Hclaim.
  - vm_compute. reflexivity.
  - vm_compute. reflexivity.
  - reflexivity.
Qed.

(** C10 (amended).  For every accepted [/ingest] request whose stored
    payload has no ["metrics"] key, or whose ["metrics"] is an object
    without a ["temperature"] key and with a ["vibration"] that is absent
    or converts to a float, the temperature is read as 0, which is below
    18, and the anomaly message follows the event message.  This covers
    the request that supplies neither payload nor metrics.  When
    ["metrics"] is not an object, or ["temperature"] or ["vibration"]
    holds a value [float] rejects (null, a list, an object, a string that
    is no number), the extraction fails inside the [try] block and the
    event message is the only one. *)
Theorem anomaly_for_absent_temperature
    (rt : Runtime) (cfg : Config) (request : Request) (clock : Clock)
    (w w' : World) (resp : dict) :
  ingest_event cfg request clock w = (Ret resp, w') ->
  exists parsed evt,
    json_loads (body request) = Some parsed /\
    IngestEvent_validate parsed = inr evt /\
    let e := new_event evt clock w in
    let ev := event_data_of e in
    table w' = table w ++ [e] /\
    (dict_get "metrics" (models.payload e) = None \/
     (exists m vib,
        dict_get "metrics" (models.payload e) = Some (JObj m) /\
        dict_get "temperature" m = None /\
        py_float float_of_str (default (JInt 0) (dict_get "vibration" m)) = Ret vib) ->
     broadcasts w' = broadcasts w ++ [ev; ("type"%string, JStr "anomaly") :: ev]) /\
    (payload evt = [] -> metrics evt = None ->
     broadcasts w' = broadcasts w ++ [ev; ("type"%string, JStr "anomaly") :: ev]) /\
    (* a failed extraction: the event message alone *)
    ((exists v, dict_get "metrics" (models.payload e) = Some v /\
                forall m, v <> JObj m) \/
     (exists m x,
        dict_get "metrics" (models.payload e) = Some (JObj m) /\
        (py_float float_of_str (default (JInt 0) (dict_get "temperature" m)) = Raise x \/
         py_float float_of_str (default (JInt 0) (dict_get "vibration" m)) = Raise x)) ->
     broadcasts w' = broadcasts w ++ [ev]) /\
    (* the values [float] rejects *)
    (forall m t,
        dict_get "metrics" (models.payload e) = Some (JObj m) ->
        dict_get "temperature" m = Some t \/ dict_get "vibration" m = Some t ->
        t = JNull \/ (exists l, t = JArr l) \/ (exists d, t = JObj d) \/
        (exists s, t = JStr s /\ float_of_str s = None) ->
        broadcasts w' = broadcasts w ++ [ev]).
Proof.
  intros Hrun.
  destruct (ingest_event_broadcasts cfg _ _ _ _ _ Hrun)
    as (parsed & evt & Hjson & Hval & Htab & Hbc).
  exists parsed, evt. split; [exact Hjson|]. split; [exact Hval|].
  cbv zeta in *. split; [exact Htab|].
  set (e := new_event evt clock w) in *.
  assert (Hzero : forall vib, is_anomaly 0 vib = true) by reflexivity.
  assert (Hgo : dict_get "metrics" (models.payload e) = None \/
     (exists m vib,
        dict_get "metrics" (models.payload e) = Some (JObj m) /\
        dict_get "temperature" m = None /\
        py_float float_of_str (default (JInt 0) (dict_get "vibration" m)) = Ret vib) ->
     broadcasts w' =
       broadcasts w ++ [event_data_of e; ("type"%string, JStr "anomaly") :: event_data_of e]).
  { intros Hcase. rewrite Hbc, anomaly_message_event, extract_metrics_event.
    destruct Hcase as [Hnone | (m & vib & Hm & Ht & Hv)].
    - rewrite Hnone, Hzero, <- app_assoc. reflexivity.
    - rewrite Hm, Ht. cbn [default from_option id]. cbn [py_float].
      rewrite float_of_int_0. cbn [obind]. rewrite Hv. cbn [obind].
      rewrite Hzero, <- app_assoc. reflexivity. }
  assert (Hfail : (exists v, dict_get "metrics" (models.payload e) = Some v /\
                             forall m, v <> JObj m) \/
     (exists m x,
        dict_get "metrics" (models.payload e) = Some (JObj m) /\
        (py_float float_of_str (default (JInt 0) (dict_get "temperature" m)) = Raise x \/
         py_float float_of_str (default (JInt 0) (dict_get "vibration" m)) = Raise x)) ->
     broadcasts w' = broadcasts w ++ [event_data_of e]).
  { intros Hcase. rewrite Hbc, extract_metrics_event.
    destruct Hcase as [(v & Hv & Hobj) | (m & x & Hm & [Ht|Hvb])].
    - rewrite Hv. destruct v; try (rewrite app_nil_r; reflexivity).
      contradiction (Hobj fields). reflexivity.
    - rewrite Hm, Ht. cbn [obind]. rewrite app_nil_r. reflexivity.
    - rewrite Hm, Hvb.
      destruct (py_float float_of_str (default (JInt 0) (dict_get "temperature" m)));
        cbn [obind]; rewrite app_nil_r; reflexivity. }
  split; [exact Hgo|]. split.
  - intros Hp Hm. apply Hgo. right. exists [], 0%float.
    unfold e, new_event, db_event_payload. cbn. rewrite Hp, Hm. cbn. auto.
  - split; [exact Hfail|].
    intros m t Hm Hkey Hrej. apply Hfail. right.
    assert (Hraise : exists x, py_float float_of_str t = Raise x).
    { destruct Hrej as [->|[(l & ->)|[(d & ->)|(s & -> & Hs)]]]; cbn [py_float];
        [eexists; reflexivity..|]. rewrite Hs. eexists. reflexivity. }
    destruct Hraise as (x & Hx). exists m, x. split; [exact Hm|].
    destruct Hkey as [Hk|Hk]; rewrite Hk; cbn [default from_option id]; auto.
Qed.

Lemma anomaly_for_absent_temperature_witness :
  let w' := snd (ingest_event (rt := Demo.reliable) (Demo.cfg None)
                   (Demo.request None Demo.body_bare) Demo.clock0 (Demo.world0 500)) in
  let v' := snd (ingest_event (rt := Demo.reliable) (Demo.cfg None)
                   (Demo.request None Demo.body_null_temperature) Demo.clock0
                   (Demo.world0 500)) in
  map (dict_get "type") (broadcasts w') = [None; Some (JStr "anomaly")] /\
  map (dict_get "type") (broadcasts v') = [None].
Proof.
  intros w' v'. split.
  - destruct (anomaly_for_absent_temperature Demo.reliable (Demo.cfg None)
                (Demo.request None Demo.body_bare) Demo.clock0 (Demo.world0 500)
                w' (accepted 1) ltac:(vm_compute; reflexivity))
      as (parsed & evt & Hjson & Hval & _ & _ & Hbc & _).
    vm_compute in Hjson. injection Hjson as <-.
    vm_compute in Hval. injection Hval as <-.
    rewrite (Hbc eq_refl eq_refl). reflexivity.
  - destruct (anomaly_for_absent_temperature Demo.reliable (Demo.cfg None)
                (Demo.request None Demo.body_null_temperature) Demo.clock0
                (Demo.world0 500) v' (accepted 1) ltac:(vm_compute; reflexivity))
      as (parsed & evt & Hjson & Hval & _ & _ & _ & _ & Hrej).
    vm_compute in Hjson. injection Hjson as <-.
    vm_compute in Hval. injection Hval as <-.
    rewrite (Hrej [("temperature"%string, JNull)] JNull eq_refl
               (or_introl eq_refl) (or_introl eq_refl)).
    reflexivity.
Defined.

(* ===================================================================== *)
(** ** Rate limiter *)
(* ===================================================================== *)

Section RateLimitFacts.
Variable cfg : Config.
Variable wf : float.
Hypothesis window_float : float_of_int (RATE_LIMIT_WINDOW cfg) = Ret wf.

Lemma filter_all_in_window (start : float) (ts : list float) :
  forallb (in_window start) ts = true ->
  filter (fun t => in_window start t = true) ts = ts.
Proof.
  induction ts as [|t ts IH]; intros Hall; [reflexivity|].
  cbn [forallb] in Hall. apply andb_true_iff in Hall as [Ht Hts].
  rewrite filter_cons_True by exact Ht. rewrite (IH Hts). reflexivity.
Qed.

Lemma filter_none_in_window (start : float) (ts : list float) :
  forallb (fun t => negb (in_window start t)) ts = true ->
  filter (fun t => in_window start t = true) ts = [].
Proof.
  induction ts as [|t ts IH]; intros Hall; [reflexivity|].
  cbn [forallb] in Hall. apply andb_true_iff in Hall as [Ht Hts].
  rewrite filter_cons_False.
  - exact (IH Hts).
  - destruct (in_window start t); [discriminate Ht | discriminate].
Qed.

(** One check: prune, count, then reject without recording or record and
    accept. *)
Lemma check_rate_limit_step (ip : string) (now : float) (w : World) :
  check_rate_limit cfg ip now w =
  let kept := filter (fun t => in_window (PrimFloat.sub now wf) t = true)
                     (default [] (_rate_store w !! ip)) in
  if Z.of_nat (length kept) >=? RATE_LIMIT_MAX cfg then (Ret false, w)
  else (Ret true, with_rate_store (<[ip := kept ++ [now]]> (_rate_store w)) w).
Proof.
  unfold check_rate_limit, window_start. rewrite window_float. reflexivity.
Qed.

(** Requests that stay within one window and within the maximum are all
    accepted and all recorded. *)
Lemma requests_within_window (ip : string) (times pre : list float) (w : World) :
  default [] (_rate_store w !! ip) = pre ->
  Z.of_nat (length pre + length times) <= RATE_LIMIT_MAX cfg ->
  within_one_window wf pre times = true ->
  exists w',
    requests cfg ip times w = (Ret (replicate (length times) true), w') /\
    default [] (_rate_store w' !! ip) = pre ++ times /\
    table w' = table w /\ manager w' = manager w /\
    wire w' = wire w /\ broadcasts w' = broadcasts w.
Proof.
  revert pre w. induction times as [|now rest IH]; intros pre w Hpre Hlen Hwin.
  - exists w. rewrite app_nil_r. repeat split; first [exact Hpre | reflexivity].
  - cbn [within_one_window] in Hwin. apply andb_true_iff in Hwin as [Hnow Hrest].
    cbn [requests]. unfold bind at 1. rewrite check_rate_limit_step. cbv zeta.
    rewrite Hpre, (filter_all_in_window _ _ Hnow).
    destruct (Z.geb_spec (Z.of_nat (length pre)) (RATE_LIMIT_MAX cfg)) as [Hge|Hlt];
      [cbn [length] in Hlen; lia|].
    set (w1 := with_rate_store _ w).
    destruct (IH (pre ++ [now]) w1) as (w' & Hrun & Hstore & Ht & Hm & Hw & Hb).
    + unfold w1. cbn. rewrite lookup_insert_eq. reflexivity.
    + rewrite length_app. cbn [length] in *. lia.
    + exact Hrest.
    + exists w'. unfold bind. rewrite Hrun. cbn [length replicate]. unfold ret.
      rewrite Hstore, <- app_assoc. unfold w1 in *. cbn in *.
      repeat split; first [assumption | reflexivity].
Qed.

Lemma within_one_window_app (pre a c : list float) :
  within_one_window wf pre (a ++ c) =
  within_one_window wf pre a && within_one_window wf (pre ++ a) c.
Proof.
  revert pre. induction a as [|t a IH]; intros pre; cbn [app within_one_window].
  - rewrite app_nil_r. reflexivity.
  - rewrite IH, <- app_assoc, andb_assoc. reflexivity.
Qed.

Lemma requests_app (ip : string) (a c : list float) (w : World) :
  requests cfg ip (a ++ c) w =
  match requests cfg ip a w with
  | (Ret ra, w1) =>
      match requests cfg ip c w1 with
      | (Ret rc, w2) => (Ret (ra ++ rc), w2)
      | (Raise e, w2) => (Raise e, w2)
      end
  | (Raise e, w1) => (Raise e, w1)
  end.
Proof.
  revert w. induction a as [|t a IH]; intros w; cbn [app requests]; unfold bind, ret.
  - destruct (requests cfg ip c w) as [[rc|e] w2]; reflexivity.
  - destruct (check_rate_limit cfg ip t w) as [[r|e] w1]; [|reflexivity].
    rewrite IH.
    destruct (requests cfg ip a w1) as [[ra|e] w2]; [|reflexivity].
    destruct (requests cfg ip c w2) as [[rc|e] w3]; reflexivity.
Qed.

End RateLimitFacts.

(** A rejected check leaves the world as it was. *)
Lemma check_rate_limit_rejects (cfg : Config) (ip : string) (now : float) (w w1 : World) :
  check_rate_limit cfg ip now w = (Ret false, w1) -> w1 = w.
Proof.
  unfold check_rate_limit. destruct (window_start cfg now); [|discriminate].
  destruct (_ >=? _); [|discriminate]. intros Heq. injection Heq as <-. reflexivity.
Qed.

(** C5.  A rate-limit check of a client prunes the stored timestamps older
    than [now - W], rejects without recording when at least [M] remain,
    and otherwise records [now] and accepts.  Hence [M] requests of a new
    client within one window all succeed, the next one within that window
    is rejected (and answered 429 by [/ingest]), and a request after the
    window has elapsed succeeds again. *)
Theorem rate_limit_window
    (cfg : Config) (wf : float) (ip : string) (w : World)
    (times : list float) (t_over t_late : float) :
  float_of_int (RATE_LIMIT_WINDOW cfg) = Ret wf ->
  0 < RATE_LIMIT_MAX cfg ->
  _rate_store w !! ip = None ->
  Z.of_nat (length times) = RATE_LIMIT_MAX cfg ->
  within_one_window wf [] (times ++ [t_over]) = true ->
  window_elapsed wf t_late times = true ->
  (* one check *)
  (forall now w0,
      let kept := filter (fun t => in_window (PrimFloat.sub now wf) t = true)
                         (default [] (_rate_store w0 !! ip)) in
      check_rate_limit cfg ip now w0 =
      if Z.of_nat (length kept) >=? RATE_LIMIT_MAX cfg then (Ret false, w0)
      else (Ret true, with_rate_store (<[ip := kept ++ [now]]> (_rate_store w0)) w0)) /\
  (* M accepted, the next rejected, the one after the window accepted *)
  (exists w',
      requests cfg ip (times ++ [t_over; t_late]) w =
        (Ret (replicate (length times) true ++ [false; true]), w') /\
      _rate_store w' !! ip = Some [t_late]) /\
  (* a rejected check is answered 429 and changes nothing *)
  (forall (rt : Runtime) (request : Request) (clock : Clock) (w0 w1 : World),
      auth.require_api_key (secrets cfg) (x_api_key request) = Ret true ->
      check_rate_limit cfg (client_ip request) (time_time clock) w0 = (Ret false, w1) ->
      ingest_event cfg request clock w0 =
        (Raise (HTTPException 429 "Rate limit exceeded"), w0)).
Proof.
  intros Hwf Hmax Hfresh Hlen Hwin Hlate.
  split; [intros now w0; apply (check_rate_limit_step cfg wf Hwf)|].
  split.
  - rewrite within_one_window_app in Hwin. apply andb_true_iff in Hwin as [Hin Hover].
    cbn in Hover. rewrite andb_true_r in Hover.
    destruct (requests_within_window cfg wf Hwf ip times [] w) as (w1 & Hrun & Hstore & _).
    + rewrite Hfresh. reflexivity.
    + cbn [length]. lia.
    + exact Hin.
    + cbn [app] in Hstore.
      rewrite (requests_app cfg), Hrun. cbn [requests]. unfold bind, ret.
      (* the request over the maximum *)
      rewrite (check_rate_limit_step cfg wf Hwf). cbv zeta.
      rewrite Hstore, (filter_all_in_window _ _ Hover).
      destruct (Z.geb_spec (Z.of_nat (length times)) (RATE_LIMIT_MAX cfg)) as [_|Hlt]; [|lia].
      (* the request after the window *)
      rewrite (check_rate_limit_step cfg wf Hwf). cbv zeta.
      rewrite Hstore, (filter_none_in_window _ _ Hlate).
      destruct (Z.geb_spec (Z.of_nat (length (@nil float))) (RATE_LIMIT_MAX cfg)) as [Hge|_];
        [cbn in Hge; lia|].
      eexists. split; [reflexivity|]. cbn. apply lookup_insert_eq.
  - intros rt request clock w0 w1 Hkey Hcheck.
    rewrite ingest_event_unfold, Hkey, Hcheck.
    rewrite (check_rate_limit_rejects _ _ _ _ _ Hcheck). reflexivity.
Qed.

Lemma rate_limit_window_witness :
  exists w',
    requests (Demo.cfg None) "10.0.0.1" (Demo.ticks 120 1000 ++ [1030; 1100]%float)
             (Demo.world0 500) =
      (Ret (replicate 120 true ++ [false; true]), w') /\
    _rate_store w' !! "10.0.0.1"%string = Some [1100%float].
Proof.
  refine (proj1 (proj2 (rate_limit_window (Demo.cfg None) 60%float "10.0.0.1"
                          (Demo.world0 500) (Demo.ticks 120 1000) 1030 1100
                          _ _ _ _ _ _))).
  - vm_compute. reflexivity.
  - cbn. lia.
  - apply lookup_empty.
  - vm_compute. reflexivity.
  - vm_compute. reflexivity.
  - vm_compute. reflexivity.
Defined.

(* ===================================================================== *)
(** ** Connection manager *)
(* ===================================================================== *)

(** Close a conjunction of equations that hold by hypothesis or by
    computation. *)
Ltac conj_done := repeat split; first [assumption | reflexivity | congruence].

Section ListFacts.
Context {A : Type}.

Lemma lastn_short (n : nat) (l : list A) : (length l <= n)%nat -> lastn n l = l.
Proof.
  intros Hle. unfold lastn. replace (length l - n)%nat with 0%nat by lia. reflexivity.
Qed.

Lemma lastn_length (n : nat) (l : list A) : (length (lastn n l) <= n)%nat.
Proof. unfold lastn. rewrite length_drop. lia. Qed.

Lemma lastn_full_snoc (n : nat) (l : list A) (x : A) :
  (0 < n)%nat -> length l = n -> lastn n (l ++ [x]) = tail l ++ [x].
Proof.
  intros Hn Hlen. unfold lastn. rewrite length_app. cbn [length].
  replace (length l + 1 - n)%nat with 1%nat by lia.
  destruct l as [|y l]; [cbn in Hlen; lia | reflexivity].
Qed.

Lemma lastn_lastn_app (n : nat) (a c : list A) :
  lastn n (lastn n a ++ c) = lastn n (a ++ c).
Proof.
  unfold lastn. rewrite !length_app, length_drop, !drop_app, drop_drop, length_drop.
  f_equal; f_equal; lia.
Qed.

End ListFacts.

Section ManagerFacts.
Context {rt : Runtime}.

(** *** Buffering while not ready *)

(** While the frontend is not ready and the bound is positive, a broadcast
    delivers nothing and appends to the backlog, dropping the oldest entry
    when the backlog is full. *)
Lemma broadcast_buffers (msg : message) (w : World) :
  frontend_ready (manager w) = false ->
  0 < _max_backlog (manager w) ->
  broadcast msg w =
  (Ret tt,
   with_manager
     (set_backlog
        ((if Z.of_nat (length (_backlog (manager w))) >=? _max_backlog (manager w)
          then tail (_backlog (manager w)) else _backlog (manager w)) ++ [msg])
        (manager w))
     (with_broadcasts (broadcasts w ++ [msg]) w)).
Proof.
  intros Hready Hmax. unfold broadcast. cbn. rewrite Hready. cbn.
  destruct (Z.geb_spec (Z.of_nat (length (_backlog (manager w)))) (_max_backlog (manager w)))
    as [Hge|Hlt]; [|reflexivity].
  destruct (_backlog (manager w)); [cbn in Hge; lia | reflexivity].
Qed.

Lemma buffered_lastn (n : Z) (bl : list message) (msg : message) :
  0 < n -> Z.of_nat (length bl) <= n ->
  (if Z.of_nat (length bl) >=? n then tail bl else bl) ++ [msg] =
  lastn (Z.to_nat n) (bl ++ [msg]).
Proof.
  intros Hn Hle.
  destruct (Z.geb_spec (Z.of_nat (length bl)) n) as [Hge|Hlt].
  - rewrite lastn_full_snoc; [reflexivity | lia | lia].
  - rewrite lastn_short; [reflexivity|]. rewrite length_app. cbn [length]. lia.
Qed.

Lemma disconnect_not_ready (ws : WebSocket) (m : ConnectionManager) :
  frontend_ready m = false -> frontend_ready (disconnect ws m) = false.
Proof.
  intros Hready. unfold disconnect. cbn. rewrite Hready.
  destruct (if existsb _ _ then _ else _); reflexivity.
Qed.

Lemma disconnect_last (ws : WebSocket) (m : ConnectionManager) :
  active_connections (disconnect ws m) = [] -> frontend_ready (disconnect ws m) = false.
Proof.
  unfold disconnect. cbn. intros ->. reflexivity.
Qed.

(** Any run of connects, disconnects and broadcasts that starts not ready
    stays not ready, delivers nothing, and keeps the newest messages. *)
Lemma run_ops_not_ready (ops : list op) (w : World) :
  frontend_ready (manager w) = false ->
  0 < _max_backlog (manager w) ->
  Z.of_nat (length (_backlog (manager w))) <= _max_backlog (manager w) ->
  exists w',
    run_ops ops w = (Ret tt, w') /\
    frontend_ready (manager w') = false /\
    wire w' = wire w /\
    _max_backlog (manager w') = _max_backlog (manager w) /\
    _backlog (manager w') =
      lastn (Z.to_nat (_max_backlog (manager w)))
            (_backlog (manager w) ++ omap broadcast_of ops) /\
    broadcasts w' = broadcasts w ++ omap broadcast_of ops.
Proof.
  revert w. induction ops as [|o ops IH]; intros w Hready Hmax Hlen.
  - exists w. cbn. rewrite !app_nil_r, lastn_short by lia. conj_done.
  - cbn [run_ops]. unfold bind at 1.
    assert (Hstep : exists w1,
               run_op o w = (Ret tt, w1) /\
               frontend_ready (manager w1) = false /\
               wire w1 = wire w /\
               _max_backlog (manager w1) = _max_backlog (manager w) /\
               _backlog (manager w1) =
                 lastn (Z.to_nat (_max_backlog (manager w)))
                       (_backlog (manager w) ++ from_option (fun x => [x]) [] (broadcast_of o)) /\
               broadcasts w1 = broadcasts w ++ from_option (fun x => [x]) [] (broadcast_of o)).
    { destruct o as [ws|ws|msg]; cbn [run_op broadcast_of from_option].
      - eexists. split; [reflexivity|]. cbn.
        rewrite !app_nil_r, lastn_short by lia. conj_done.
      - eexists. split; [reflexivity|]. cbn [manager with_manager wire broadcasts].
        rewrite (disconnect_not_ready _ _ Hready). cbn.
        rewrite !app_nil_r, lastn_short by lia. conj_done.
      - rewrite (broadcast_buffers msg w Hready Hmax).
        eexists. split; [reflexivity|]. cbn. rewrite Hready.
        rewrite (buffered_lastn _ _ msg Hmax Hlen). conj_done. }
    destruct Hstep as (w1 & Hrun1 & Hr1 & Hw1 & Hm1 & Hb1 & Hc1).
    rewrite Hrun1.
    destruct (IH w1 Hr1) as (w' & Hrun & Hr & Hw & Hm & Hb & Hc).
    + rewrite Hm1. exact Hmax.
    + rewrite Hm1, Hb1. pose proof (lastn_length (Z.to_nat (_max_backlog (manager w)))
        (_backlog (manager w) ++ from_option (fun x => [x]) [] (broadcast_of o))). lia.
    + exists w'. split; [exact Hrun|]. split; [exact Hr|].
      split; [congruence|]. split; [congruence|].
      rewrite Hb, Hc, Hm1, Hb1, Hc1, lastn_lastn_app, <- !app_assoc.
      destruct o; cbn; conj_done.
Qed.

(** *** Delivery *)

Lemma delivered_to_app (ws : WebSocket) (a c : list frame) :
  delivered_to ws (a ++ c) = delivered_to ws a ++ delivered_to ws c.
Proof. unfold delivered_to. apply omap_app. Qed.

Lemma registrations_cons (ws x : WebSocket) (l : list WebSocket) :
  registrations ws (x :: l) =
  if Nat.eqb x ws then S (registrations ws l) else registrations ws l.
Proof.
  unfold registrations. destruct (Nat.eqb_spec x ws) as [->|Hne].
  - rewrite filter_cons_True by reflexivity. reflexivity.
  - rewrite filter_cons_False by exact Hne. reflexivity.
Qed.

Lemma registrations_pos (ws : WebSocket) (l : list WebSocket) :
  ws ∈ l -> (0 < registrations ws l)%nat.
Proof.
  induction 1 as [x l|x y l Hin IH]; rewrite registrations_cons.
  - rewrite Nat.eqb_refl. lia.
  - destruct (Nat.eqb y x); lia.
Qed.

(** One pass over the snapshot: a reliable connection receives the message
    once per registration and is not reported stale. *)
Lemma send_pass_reliable (ws : WebSocket) (conns : list WebSocket) (msg : message)
      (sent : list frame) :
  reliable_ws ws ->
  delivered_to ws (snd (send_pass conns msg sent)) =
    delivered_to ws sent ++ replicate (registrations ws conns) msg /\
  ws ∉ fst (send_pass conns msg sent).
Proof.
  intros Hrel. revert sent. induction conns as [|x conns IH]; intros sent.
  - cbn. rewrite app_nil_r. split; [reflexivity | apply not_elem_of_nil].
  - cbn [send_pass].
    destruct (send_pass conns msg (sent ++ [(x, msg, send_json (length sent) x msg)]))
      as [stale sent'] eqn:Hpass.
    specialize (IH (sent ++ [(x, msg, send_json (length sent) x msg)])).
    rewrite Hpass in IH. cbn [fst snd] in IH |- *. destruct IH as [IHd IHs].
    rewrite IHd, delivered_to_app, registrations_cons.
    unfold delivered_to at 2. cbn [omap].
    destruct (Nat.eqb_spec x ws) as [->|Hne].
    + rewrite Hrel. cbn. rewrite Nat.eqb_refl, <- app_assoc.
      split; [reflexivity | exact IHs].
    + cbn. rewrite (proj2 (Nat.eqb_neq x ws) Hne). cbn. rewrite app_nil_r.
      split; [reflexivity|].
      destruct (send_json _ _ _); [exact IHs|].
      intros Hin. apply elem_of_cons in Hin as [->|Hin]; [congruence | exact (IHs Hin)].
Qed.

Lemma list_remove_other (ws x : WebSocket) (l : list WebSocket) :
  x <> ws -> registrations ws (list_remove x l) = registrations ws l.
Proof.
  intros Hne. induction l as [|y l IH]; [reflexivity|].
  cbn [list_remove]. destruct (Nat.eqb_spec y x) as [->|Hyx].
  - rewrite registrations_cons. destruct (Nat.eqb_spec x ws); [contradiction | reflexivity].
  - rewrite !registrations_cons, IH. reflexivity.
Qed.

Lemma disconnect_other (ws x : WebSocket) (m : ConnectionManager) :
  x <> ws ->
  registrations ws (active_connections (disconnect x m)) =
  registrations ws (active_connections m).
Proof.
  intros Hne. unfold disconnect. cbn.
  destruct (existsb _ _); [apply list_remove_other; exact Hne | reflexivity].
Qed.

(** What [disconnect] keeps: the backlog, its bound, and the fact that the
    ready flag is up unless nobody is connected. *)
Lemma disconnect_keeps (x : WebSocket) (m : ConnectionManager) :
  _backlog (disconnect x m) = _backlog m /\
  _max_backlog (disconnect x m) = _max_backlog m /\
  (ready_or_empty m -> ready_or_empty (disconnect x m)).
Proof.
  split; [reflexivity|]. split; [reflexivity|].
  unfold ready_or_empty, disconnect. cbn. intros [Hr|He].
  - destruct (if existsb _ _ then _ else _); [right; reflexivity | left; exact Hr].
  - rewrite He. cbn. right. reflexivity.
Qed.

Lemma disconnect_all_keeps (ws : WebSocket) (stale : list WebSocket) (m : ConnectionManager) :
  ws ∉ stale ->
  let m' := fold_left (fun m x => disconnect x m) stale m in
  registrations ws (active_connections m') = registrations ws (active_connections m) /\
  _backlog m' = _backlog m /\
  _max_backlog m' = _max_backlog m /\
  (ready_or_empty m -> ready_or_empty m').
Proof.
  revert m. induction stale as [|x stale IH]; intros m Hnot; cbn [fold_left].
  - tauto.
  - apply not_elem_of_cons in Hnot as [Hne Hnot].
    destruct (IH (disconnect x m) Hnot) as (Hreg & Hb & Hm & Hp).
    destruct (disconnect_keeps x m) as (Hb1 & Hm1 & Hp1).
    cbv zeta. rewrite Hreg, Hb, Hm, disconnect_other by congruence.
    repeat split; auto.
Qed.

Lemma safe_broadcast_reliable (ws : WebSocket) (msg : message) (w : World) :
  reliable_ws ws ->
  let w' := _safe_broadcast msg w in
  delivered_to ws (wire w') =
    delivered_to ws (wire w) ++
    replicate (registrations ws (active_connections (manager w))) msg /\
  registrations ws (active_connections (manager w')) =
    registrations ws (active_connections (manager w)) /\
  _backlog (manager w') = _backlog (manager w) /\
  _max_backlog (manager w') = _max_backlog (manager w) /\
  (ready_or_empty (manager w) -> ready_or_empty (manager w')).
Proof.
  intros Hrel. unfold _safe_broadcast.
  pose proof (send_pass_reliable ws (active_connections (manager w)) msg (wire w) Hrel)
    as [Hd Hs].
  destruct (send_pass _ _ _) as [stale sent]. cbn [fst snd] in Hd, Hs. cbn.
  split; [exact Hd|]. exact (disconnect_all_keeps ws stale (manager w) Hs).
Qed.

Lemma flush_reliable (ws : WebSocket) (evs : list message) (w : World) :
  reliable_ws ws ->
  let w' := fold_left (fun w ev => _safe_broadcast ev w) evs w in
  delivered_to ws (wire w') =
    delivered_to ws (wire w) ++
    flat_map (replicate (registrations ws (active_connections (manager w)))) evs /\
  registrations ws (active_connections (manager w')) =
    registrations ws (active_connections (manager w)) /\
  _backlog (manager w') = _backlog (manager w) /\
  _max_backlog (manager w') = _max_backlog (manager w) /\
  (ready_or_empty (manager w) -> ready_or_empty (manager w')).
Proof.
  intros Hrel. revert w. induction evs as [|ev evs IH]; intros w; cbn [fold_left flat_map].
  - rewrite app_nil_r. tauto.
  - destruct (safe_broadcast_reliable ws ev w Hrel) as (Hd & Hreg & Hb & Hm & Hp).
    destruct (IH (_safe_broadcast ev w)) as (Hd' & Hreg' & Hb' & Hm' & Hp').
    cbv zeta. rewrite Hd', Hreg', Hb', Hm', Hd, Hreg, Hb, Hm, <- app_assoc.
    repeat split; auto.
Qed.

(** The same without a reliable connection at hand. *)
Lemma disconnect_all_keeps_state (stale : list WebSocket) (m : ConnectionManager) :
  let m' := fold_left (fun m x => disconnect x m) stale m in
  _backlog m' = _backlog m /\
  _max_backlog m' = _max_backlog m /\
  (ready_or_empty m -> ready_or_empty m').
Proof.
  revert m. induction stale as [|x stale IH]; intros m; cbn [fold_left]; [tauto|].
  destruct (IH (disconnect x m)) as (H1 & H2 & H3).
  destruct (disconnect_keeps x m) as (H4 & H5 & H6).
  cbv zeta. rewrite H1, H2. repeat split; auto.
Qed.

Lemma safe_broadcast_keeps (msg : message) (w : World) :
  let w' := _safe_broadcast msg w in
  _backlog (manager w') = _backlog (manager w) /\
  _max_backlog (manager w') = _max_backlog (manager w) /\
  (ready_or_empty (manager w) -> ready_or_empty (manager w')).
Proof.
  unfold _safe_broadcast. destruct (send_pass _ _ _) as [stale sent]. cbn.
  apply disconnect_all_keeps_state.
Qed.

Lemma flush_keeps (evs : list message) (w : World) :
  let w' := fold_left (fun w ev => _safe_broadcast ev w) evs w in
  _backlog (manager w') = _backlog (manager w) /\
  _max_backlog (manager w') = _max_backlog (manager w) /\
  (ready_or_empty (manager w) -> ready_or_empty (manager w')).
Proof.
  revert w. induction evs as [|ev evs IH]; intros w; cbn [fold_left]; [tauto|].
  destruct (IH (_safe_broadcast ev w)) as (Hb & Hm & Hp).
  destruct (safe_broadcast_keeps ev w) as (Hb1 & Hm1 & Hp1).
  cbv zeta. rewrite Hb, Hm. repeat split; auto.
Qed.

(** *** Mark ready *)

(** The entries [mark_ready] hands to [_safe_broadcast], oldest first. *)
Lemma mark_ready_backlog_empty (w : World) : _backlog (manager (mark_ready w)) = [].
Proof. reflexivity. Qed.

Lemma mark_ready_idle (w : World) :
  _backlog (manager w) = [] \/ active_connections (manager w) = [] ->
  mark_ready w =
  with_manager (mkManager (active_connections (manager w)) true [] (_max_backlog (manager w))) w.
Proof.
  intros Hidle. unfold mark_ready. cbn.
  destruct (_backlog (manager w)) as [|ev bl] eqn:Hbl; [reflexivity|].
  destruct (active_connections (manager w)) as [|c conns] eqn:Hconns.
  - unfold with_manager, set_backlog, set_ready. cbn. rewrite Hconns. reflexivity.
  - destruct Hidle; discriminate.
Qed.

(** [mark_ready] is the flush followed by the clearing of the backlog. *)
Lemma mark_ready_parts (w : World) :
  let w1 := with_manager (set_ready true (manager w)) w in
  let w2 :=
    match _backlog (manager w), active_connections (manager w) with
    | _ :: _, _ :: _ =>
        fold_left (fun w ev => _safe_broadcast ev w)
                  (slice_from (- _max_backlog (manager w)) (_backlog (manager w))) w1
    | _, _ => w1
    end in
  wire (mark_ready w) = wire w2 /\
  active_connections (manager (mark_ready w)) = active_connections (manager w2) /\
  frontend_ready (manager (mark_ready w)) = frontend_ready (manager w2) /\
  _max_backlog (manager (mark_ready w)) = _max_backlog (manager w2).
Proof. cbv zeta. unfold mark_ready. cbn. repeat split; reflexivity. Qed.

Lemma mark_ready_ready_or_empty (w : World) : ready_or_empty (manager (mark_ready w)).
Proof.
  destruct (mark_ready_parts w) as (_ & Ha & Hr & _). cbv zeta in Ha, Hr.
  unfold ready_or_empty. rewrite Ha, Hr.
  destruct (_backlog (manager w)) as [|ev bl]; [left; reflexivity|].
  destruct (active_connections (manager w)) as [|c conns]; [left; reflexivity|].
  apply flush_keeps. left. reflexivity.
Qed.

Lemma mark_ready_reliable (ws : WebSocket) (w : World) :
  reliable_ws ws ->
  delivered_to ws (wire (mark_ready w)) =
    delivered_to ws (wire w) ++
    match _backlog (manager w), active_connections (manager w) with
    | _ :: _, _ :: _ =>
        flat_map (replicate (registrations ws (active_connections (manager w))))
                 (slice_from (- _max_backlog (manager w)) (_backlog (manager w)))
    | _, _ => []
    end /\
  registrations ws (active_connections (manager (mark_ready w))) =
    registrations ws (active_connections (manager w)).
Proof.
  intros Hrel.
  destruct (mark_ready_parts w) as (Hw & Ha & _). cbv zeta in Hw, Ha.
  rewrite Hw, Ha.
  destruct (_backlog (manager w)) as [|ev bl] eqn:Hbl;
    [rewrite app_nil_r; split; reflexivity|].
  destruct (active_connections (manager w)) as [|c conns] eqn:Hconns;
    [rewrite app_nil_r; cbn; rewrite Hconns; split; reflexivity|].
  destruct (flush_reliable ws (slice_from (- _max_backlog (manager w)) (ev :: bl))
              (with_manager (set_ready true (manager w)) w) Hrel) as (Hd & Hreg & _).
  cbv zeta in Hd, Hreg. rewrite Hd, Hreg.
  change (active_connections (manager (with_manager (set_ready true (manager w)) w)))
    with (active_connections (manager w)).
  change (wire (with_manager (set_ready true (manager w)) w)) with (wire w).
  rewrite Hconns. split; reflexivity.
Qed.

(** A reliable connection that is registered keeps the flag up. *)
Lemma mark_ready_ready (ws : WebSocket) (w : World) :
  reliable_ws ws -> ws ∈ active_connections (manager w) ->
  frontend_ready (manager (mark_ready w)) = true.
Proof.
  intros Hrel Hin.
  destruct (mark_ready_reliable ws w Hrel) as (_ & Hreg).
  pose proof (registrations_pos ws _ Hin) as Hpos. rewrite <- Hreg in Hpos.
  destruct (mark_ready_ready_or_empty w) as [Hr|He]; [exact Hr|].
  rewrite He in Hpos. cbn in Hpos. lia.
Qed.

Lemma flat_map_replicate_1 {A} (l : list A) : flat_map (replicate 1) l = l.
Proof. induction l as [|x l IH]; [reflexivity|]. cbn. f_equal. exact IH. Qed.

Lemma slice_from_retained {A} (n : Z) (l : list A) :
  0 < n -> slice_from (- n) l = lastn (Z.to_nat n) l.
Proof.
  intros Hn. unfold slice_from, lastn.
  destruct (Z.ltb_spec (- n) 0) as [_|Hge]; [|lia].
  f_equal. lia.
Qed.

End ManagerFacts.

Lemma omap_broadcast_of (msgs : list message) :
  omap broadcast_of (map Broadcast msgs) = msgs.
Proof. induction msgs as [|m msgs IH]; [reflexivity|]. cbn. f_equal. exact IH. Qed.

(** C6.  Whatever connects, disconnects or is broadcast before any
    readiness signal, the broadcasts only fill the backlog: it never holds
    more than [BACKLOG_SIZE] messages, a broadcast on a full backlog drops
    the oldest entry, and what it holds is the newest messages in their
    order.  On readiness these are delivered in that order; with
    [BACKLOG_SIZE] = 500 and 501 messages, the first message is gone and
    the other 500 are delivered. *)
Theorem backlog_bounded_fifo (rt : Runtime) (w : World) (ops : list op) :
  frontend_ready (manager w) = false ->
  _backlog (manager w) = [] ->
  0 < _max_backlog (manager w) ->
  let n := Z.to_nat (_max_backlog (manager w)) in
  let msgs := omap broadcast_of ops in
  exists w',
    run_ops ops w = (Ret tt, w') /\
    (length (_backlog (manager w')) <= n)%nat /\
    _backlog (manager w') = drop (length msgs - n) msgs /\
    wire w' = wire w /\
    (* one more broadcast on a full backlog evicts the oldest entry *)
    (forall msg, length (_backlog (manager w')) = n ->
       fst (broadcast msg w') = Ret tt /\
       _backlog (manager (snd (broadcast msg w'))) = tail (_backlog (manager w')) ++ [msg]) /\
    (* on readiness, each reliable connection receives the backlog in order *)
    (forall ws, reliable_ws ws ->
       registrations ws (active_connections (manager w')) = 1%nat ->
       delivered_to ws (wire (mark_ready w')) =
         delivered_to ws (wire w) ++ drop (length msgs - n) msgs) /\
    (_max_backlog (manager w) = 500 -> length msgs = 501%nat ->
     exists oldest newest,
       msgs = oldest :: newest /\ length newest = 500%nat /\
       _backlog (manager w') = newest /\
       forall ws, reliable_ws ws ->
         registrations ws (active_connections (manager w')) = 1%nat ->
         delivered_to ws (wire (mark_ready w')) = delivered_to ws (wire w) ++ newest).
Proof.
  intros Hready Hempty Hmax n msgs.
  destruct (run_ops_not_ready ops w Hready Hmax)
    as (w' & Hrun & Hr & Hw & Hm & Hb & _); [rewrite Hempty; cbn; lia|].
  rewrite Hempty in Hb. cbn [app] in Hb. fold n msgs in Hb.
  assert (Hlen : (length (_backlog (manager w')) <= n)%nat)
    by (rewrite Hb; apply lastn_length).
  assert (Hflush : forall ws, reliable_ws ws ->
            registrations ws (active_connections (manager w')) = 1%nat ->
            delivered_to ws (wire (mark_ready w')) =
              delivered_to ws (wire w) ++ drop (length msgs - n) msgs).
  { intros ws Hrel Hreg.
    destruct (mark_ready_reliable ws w' Hrel) as (Hd & _).
    rewrite Hd, Hw, Hreg. f_equal.
    destruct (_backlog (manager w')) as [|ev bl] eqn:Hbl; [exact Hb|].
    destruct (active_connections (manager w')) as [|c conns]; [discriminate Hreg|].
    rewrite flat_map_replicate_1, Hm, slice_from_retained by exact Hmax.
    fold n. rewrite lastn_short by exact Hlen. exact Hb. }
  exists w'. split; [exact Hrun|]. split; [exact Hlen|]. split; [exact Hb|].
  split; [exact Hw|]. split; [|split; [exact Hflush|]].
  - intros msg Hfull.
    rewrite (broadcast_buffers msg w' Hr) by (rewrite Hm; exact Hmax).
    split; [reflexivity|]. cbn.
    destruct (Z.geb_spec (Z.of_nat (length (_backlog (manager w')))) (_max_backlog (manager w')))
      as [_|Hlt]; [reflexivity|].
    rewrite Hm in Hlt. unfold n in Hfull. lia.
  - intros H500 H501.
    destruct msgs as [|oldest newest]; [discriminate H501|].
    exists oldest, newest. cbn [length] in H501.
    assert (Hn : n = 500%nat) by (unfold n; rewrite H500; reflexivity).
    assert (Hdrop : drop (length (oldest :: newest) - n) (oldest :: newest) = newest).
    { cbn [length]. replace (S (length newest) - n)%nat with 1%nat by lia. reflexivity. }
    split; [reflexivity|]. split; [lia|]. split; [rewrite Hb; exact Hdrop|].
    intros ws Hrel Hreg. rewrite (Hflush ws Hrel Hreg), Hdrop. reflexivity.
Qed.

(** C7.  After every [mark_ready] the backlog is empty.  The flag is raised
    first; it is still up afterwards unless delivery failures removed
    every connection while the backlog was delivered (the reset on an
    empty connection set), and it is up whenever a registered connection's
    sends succeed.  Nothing is sent when the backlog or the connection set
    is empty, so a non-empty backlog with no connection is dropped
    undelivered; otherwise the retained entries, oldest first, go to the
    connections. *)
Theorem mark_ready_flushes (rt : Runtime) (w : World) :
  let m := manager w in
  let w' := mark_ready w in
  _backlog (manager w') = [] /\
  (frontend_ready (manager w') = true \/ active_connections (manager w') = []) /\
  (forall ws, reliable_ws ws -> ws ∈ active_connections m ->
     frontend_ready (manager w') = true) /\
  (_backlog m = [] \/ active_connections m = [] ->
     wire w' = wire w /\ frontend_ready (manager w') = true /\
     active_connections (manager w') = active_connections m) /\
  (forall ws, reliable_ws ws ->
     delivered_to ws (wire w') =
       delivered_to ws (wire w) ++
       match _backlog m, active_connections m with
       | _ :: _, _ :: _ =>
           flat_map (replicate (registrations ws (active_connections m)))
                    (slice_from (- _max_backlog m) (_backlog m))
       | _, _ => []
       end) /\
  (0 < _max_backlog m ->
     slice_from (- _max_backlog m) (_backlog m) =
     drop (length (_backlog m) - Z.to_nat (_max_backlog m)) (_backlog m)).
Proof.
  cbv zeta.
  split; [apply mark_ready_backlog_empty|].
  split; [apply mark_ready_ready_or_empty|].
  split; [intros ws Hrel Hin; exact (mark_ready_ready ws w Hrel Hin)|].
  split; [|split].
  - intros Hidle. rewrite (mark_ready_idle w Hidle). cbn. auto.
  - intros ws Hrel. apply (mark_ready_reliable ws w Hrel).
  - intros Hmax. apply slice_from_retained. exact Hmax.
Qed.

Lemma backlog_bounded_fifo_witness :
  let ops := Connect 7%nat :: map Broadcast (Demo.numbered 501) in
  exists w',
    run_ops (rt := Demo.reliable) ops (Demo.world0 500) = (Ret tt, w') /\
    _backlog (manager w') = tail (Demo.numbered 501) /\
    delivered_to 7%nat (wire (mark_ready (rt := Demo.reliable) w')) =
      tail (Demo.numbered 501).
Proof.
  cbv zeta.
  destruct (backlog_bounded_fifo Demo.reliable (Demo.world0 500)
              (Connect 7%nat :: map Broadcast (Demo.numbered 501))
              eq_refl eq_refl ltac:(cbn; lia))
    as (w' & Hrun & _ & _ & _ & _ & _ & H501).
  destruct (H501 eq_refl ltac:(vm_compute; reflexivity))
    as (oldest & newest & Hsplit & _ & Hb & Hd).
  assert (Htail : tail (Demo.numbered 501) = newest).
  { vm_compute in Hsplit. injection Hsplit as _ <-. vm_compute. reflexivity. }
  exists w'. rewrite Htail.
  split; [exact Hrun|]. split; [exact Hb|].
  apply (Hd 7%nat); [intros k msg; reflexivity|].
  pose proof Hrun as Hw'. vm_compute in Hw'. injection Hw' as <-.
  vm_compute. reflexivity.
Defined.

(** The corner of C7: when every send of the flush raises, the connections
    are dropped and the flag is down again after [mark_ready]. *)
Example mark_ready_all_stale :
  let w := mkWorld ∅ [] (mkManager [7%nat] false (Demo.numbered 2) 500) [] [] in
  manager (mark_ready (rt := Demo.broken) w) = mkManager [] false [] 500 /\
  map (fun fr : frame => snd fr) (wire (mark_ready (rt := Demo.broken) w)) = [false].
Proof. vm_compute. split; reflexivity. Qed.

(** With no connection the backlog is dropped and nothing is sent. *)
Example mark_ready_no_connection :
  let w := mkWorld ∅ [] (mkManager [] false (Demo.numbered 2) 500) [] [] in
  manager (mark_ready (rt := Demo.reliable) w) = mkManager [] true [] 500 /\
  wire (mark_ready (rt := Demo.reliable) w) = [].
Proof. vm_compute. split; reflexivity. Qed.

(** C8.  When the last active connection disconnects, [frontend_ready] is
    false.  From then on, whatever connects, disconnects or is broadcast,
    the flag stays false, nothing is delivered, and every broadcast message
    goes to the end of the backlog (the oldest entries making room once it
    is full), until [mark_ready] is called again, which raises the flag
    for a connection whose sends succeed. *)
Theorem readiness_reset_buffers (rt : Runtime) (w : World) (ws : WebSocket) (ops : list op) :
  active_connections (disconnect ws (manager w)) = [] ->
  0 < _max_backlog (manager w) ->
  Z.of_nat (length (_backlog (manager w))) <= _max_backlog (manager w) ->
  let w0 := with_manager (disconnect ws (manager w)) w in
  frontend_ready (manager w0) = false /\
  (* one broadcast while not ready: buffered at the end, not delivered *)
  (forall msg w1,
      frontend_ready (manager w1) = false -> 0 < _max_backlog (manager w1) ->
      fst (broadcast msg w1) = Ret tt /\
      wire (snd (broadcast msg w1)) = wire w1 /\
      frontend_ready (manager (snd (broadcast msg w1))) = false /\
      exists kept, _backlog (manager (snd (broadcast msg w1))) = kept ++ [msg]) /\
  (* any run without a readiness signal *)
  exists w',
    run_ops ops w0 = (Ret tt, w') /\
    frontend_ready (manager w') = false /\
    wire w' = wire w /\
    _backlog (manager w') =
      lastn (Z.to_nat (_max_backlog (manager w)))
            (_backlog (manager w) ++ omap broadcast_of ops) /\
    (forall ws', reliable_ws ws' -> ws' ∈ active_connections (manager w') ->
       frontend_ready (manager (mark_ready w')) = true).
Proof.
  intros Hlast Hmax Hlen w0.
  assert (Hdown : frontend_ready (manager w0) = false)
    by (apply disconnect_last; exact Hlast).
  split; [exact Hdown|]. split.
  - intros msg w1 Hr1 Hm1. rewrite (broadcast_buffers msg w1 Hr1 Hm1). cbn.
    repeat split; [exact Hr1|]. eexists. reflexivity.
  - destruct (run_ops_not_ready ops w0 Hdown Hmax Hlen)
      as (w' & Hrun & Hr & Hw & _ & Hb & _).
    exists w'. split; [exact Hrun|]. split; [exact Hr|]. split; [exact Hw|].
    split; [exact Hb|].
    intros ws' Hrel Hin. exact (mark_ready_ready ws' w' Hrel Hin).
Qed.

Lemma readiness_reset_buffers_witness :
  let w := mkWorld ∅ [] (mkManager [7%nat] true [] 500) [] [] in
  let w0 := with_manager (disconnect 7%nat (manager w)) w in
  frontend_ready (manager w0) = false /\
  exists w',
    run_ops (rt := Demo.reliable)
            (Connect 8%nat :: map Broadcast (Demo.numbered 2)) w0 = (Ret tt, w') /\
    frontend_ready (manager w') = false /\
    wire w' = [] /\
    _backlog (manager w') = Demo.numbered 2.
Proof.
  cbv zeta.
  destruct (readiness_reset_buffers Demo.reliable
              (mkWorld ∅ [] (mkManager [7%nat] true [] 500) [] []) 7%nat
              (Connect 8%nat :: map Broadcast (Demo.numbered 2))
              eq_refl ltac:(cbn; lia) ltac:(cbn; lia))
    as (Hdown & _ & w' & Hrun & Hr & Hw & Hb & _).
  split; [exact Hdown|]. exists w'. repeat split; assumption.
Defined.

(* ===================================================================== *)
(** ** Event listing *)
(* ===================================================================== *)

#[local] Instance newer_first_trans : Transitive newer_first.
Proof. intros a c d. unfold newer_first. lia. Qed.

#[local] Instance newer_first_total : Total newer_first.
Proof. intros a c. unfold newer_first. lia. Qed.

Lemma rev_reverse {A} (l : list A) : rev l = reverse l.
Proof. unfold reverse. apply rev_alt. Qed.

Section ListingFacts.
Context {rt : Runtime}.
Variable order_by_desc : list models.Event -> list models.Event.
Variable negative_limit : Z -> list models.Event -> list models.Event.
Hypothesis order_by_desc_perm : forall l, order_by_desc l ≡ₚ l.
Hypothesis order_by_desc_sorted : forall l, Sorted newer_first (order_by_desc l).

Lemma query_limit_take (limit : Z) (l : list models.Event) :
  0 <= limit -> query_limit negative_limit limit l = take (Z.to_nat limit) l.
Proof.
  intros Hpos. unfold query_limit.
  destruct (Z.ltb_spec limit 0) as [Hneg|_]; [lia | reflexivity].
Qed.

(** The rows the query selects and the rows it leaves. *)
Lemma query_selects (limit : Z) (l : list models.Event) :
  0 <= limit ->
  let q := query_limit negative_limit limit (order_by_desc l) in
  let rest := drop (Z.to_nat limit) (order_by_desc l) in
  l ≡ₚ rev q ++ rest /\
  (forall e r, e ∈ rev q -> r ∈ rest -> models.timestamp r <= models.timestamp e) /\
  Sorted older_first (rev q) /\
  length q = Nat.min (Z.to_nat limit) (length l).
Proof.
  intros Hpos. cbv zeta. rewrite (query_limit_take _ _ Hpos).
  set (n := Z.to_nat limit). set (sorted := order_by_desc l).
  assert (Hss : StronglySorted newer_first (take n sorted ++ drop n sorted)).
  { rewrite take_drop. apply Sorted_StronglySorted; [apply _|].
    apply order_by_desc_sorted. }
  split; [|split; [|split]].
  - rewrite rev_reverse, reverse_Permutation, take_drop. symmetry.
    apply order_by_desc_perm.
  - intros e r He Hr. rewrite rev_reverse, elem_of_reverse in He.
    exact (StronglySorted_app_1_elem_of _ _ _ _ _ Hss He Hr).
  - rewrite rev_reverse.
    apply (Sorted_reverse newer_first), StronglySorted_Sorted.
    exact (StronglySorted_app_1_l _ _ _ Hss).
  - rewrite length_take. unfold sorted.
    rewrite (Permutation_length (order_by_desc_perm l)). reflexivity.
Qed.

End ListingFacts.

(** C9.  With [N] persisted events and a limit below [N], [/events]
    returns exactly [limit] entries; they are the most recent events by
    timestamp (no event left out is more recent than a returned one), in
    ascending order of timestamp. *)
Theorem list_events_most_recent
    (rt : Runtime)
    (order_by_desc : list models.Event -> list models.Event)
    (negative_limit : Z -> list models.Event -> list models.Event)
    (w : World) (limit : Z) :
  (forall l, order_by_desc l ≡ₚ l) ->
  (forall l, Sorted newer_first (order_by_desc l)) ->
  0 <= limit < Z.of_nat (length (table w)) ->
  exists selected rest,
    list_events order_by_desc negative_limit limit w = map event_data_of selected /\
    Z.of_nat (length (list_events order_by_desc negative_limit limit w)) = limit /\
    table w ≡ₚ selected ++ rest /\
    (forall e r, e ∈ selected -> r ∈ rest ->
       models.timestamp r <= models.timestamp e) /\
    Sorted older_first selected.
Proof.
  intros Hperm Hsorted [Hpos Hlt].
  destruct (query_selects order_by_desc negative_limit Hperm Hsorted limit (table w) Hpos)
    as (Hp & Hrecent & Hasc & Hlen).
  exists (rev (query_limit negative_limit limit (order_by_desc (table w)))),
         (drop (Z.to_nat limit) (order_by_desc (table w))).
  split; [reflexivity|]. split; [|split; [exact Hp|split; [exact Hrecent | exact Hasc]]].
  unfold list_events. rewrite length_map, length_rev, Hlen. lia.
Qed.

Lemma list_events_most_recent_witness :
  let w := mkWorld ∅ Demo.rows (ConnectionManager_init 500) [] [] in
  map (dict_get "id")
      (list_events (rt := Demo.reliable) Demo.demo_order_by_desc Demo.demo_negative_limit 2 w)
    = [Some (JInt 2); Some (JInt 4)] /\
  exists selected rest,
    list_events (rt := Demo.reliable) Demo.demo_order_by_desc Demo.demo_negative_limit 2 w
      = map (event_data_of (rt := Demo.reliable)) selected /\
    Z.of_nat (length (list_events (rt := Demo.reliable) Demo.demo_order_by_desc
                                  Demo.demo_negative_limit 2 w)) = 2 /\
    Demo.rows ≡ₚ selected ++ rest /\
    (forall e r, e ∈ selected -> r ∈ rest -> models.timestamp r <= models.timestamp e) /\
    Sorted older_first selected.
Proof.
  cbv zeta. split; [vm_compute; reflexivity|].
  refine (list_events_most_recent Demo.reliable Demo.demo_order_by_desc
            Demo.demo_negative_limit
            (mkWorld ∅ Demo.rows (ConnectionManager_init 500) [] []) 2 _ _ _).
  - intros l. apply (merge_sort_Permutation newer_first).
  - intros l. apply (Sorted_merge_sort newer_first).
  - cbn. lia.
Defined.

(* ===================================================================== *)
(** ** Further properties of the signature check *)
(* ===================================================================== *)

Lemma signature_round_trip_witness :
  check_signature (Demo.cfg (Some "s3cr3t-key"%string)) Demo.body_metrics
    "db926c9d0af2ed7a524d4cc62d41188f94da11608ca831ff07620ba460100f1d" (Demo.world0 500)
    = (Ret tt, Demo.world0 500) /\
  auth.verify_hmac (secrets (Demo.cfg (Some "s3cr3t-key"%string))) Demo.body_metrics
    (Some "db926c9d0af2ed7a524d4cc62d41188f94da11608ca831ff07620ba460100f1d"%string)
    = Ret true.
Proof.
  assert (Hhex : hexdigest (encode "s3cr3t-key") Demo.body_metrics =
                 "db926c9d0af2ed7a524d4cc62d41188f94da11608ca831ff07620ba460100f1d"%string)
    by (vm_compute; reflexivity).
  rewrite <- Hhex.
  refine (signature_round_trip (Demo.cfg (Some "s3cr3t-key"%string))
            "s3cr3t-key" Demo.body_metrics (Demo.world0 500) _ _).
  - reflexivity.
  - discriminate.
Defined.

Lemma signature_ascii_flip_is_401_witness :
  (* the first digit [d] replaced by [e] *)
  auth.verify_hmac (secrets (Demo.cfg (Some "s3cr3t-key"%string))) Demo.body_metrics
    (Some "eb926c9d0af2ed7a524d4cc62d41188f94da11608ca831ff07620ba460100f1d"%string)
    = Raise (HTTPException 401 "Invalid HMAC signature").
Proof.
  assert (Hforged : str_replace 0 "e" (hexdigest (encode "s3cr3t-key") Demo.body_metrics) =
                    "eb926c9d0af2ed7a524d4cc62d41188f94da11608ca831ff07620ba460100f1d"%string)
    by (vm_compute; reflexivity).
  rewrite <- Hforged.
  refine (proj2 (signature_ascii_flip_is_401
                   (Demo.cfg (Some "s3cr3t-key"%string)) "s3cr3t-key" Demo.body_metrics
                   (Demo.world0 500) 0%nat "e"%char "d"%char _ _ _ _ _)).
  - reflexivity.
  - discriminate.
  - vm_compute. reflexivity.
  - discriminate.
  - vm_compute. reflexivity.
Defined.

(* ===================================================================== *)
(** ** The bound of the backlog as an invariant *)
(* ===================================================================== *)

Section BoundInvariant.
Context {rt : Runtime}.

Lemma init_within_bound (BACKLOG_SIZE : Z) :
  0 < BACKLOG_SIZE -> backlog_within_bound (ConnectionManager_init BACKLOG_SIZE).
Proof. intros Hpos. split; [exact Hpos | cbn; lia]. Qed.

Lemma broadcast_within_bound (msg : message) (w : World) :
  backlog_within_bound (manager w) ->
  fst (broadcast msg w) = Ret tt /\
  backlog_within_bound (manager (snd (broadcast msg w))).
Proof.
  intros [Hmax Hlen]. split; [apply broadcast_returns; exact Hmax|].
  destruct (frontend_ready (manager w)) eqn:Hready.
  - unfold broadcast. cbn. rewrite Hready. cbn.
    destruct (safe_broadcast_keeps msg (with_broadcasts (broadcasts w ++ [msg]) w))
      as (Hb & Hm & _).
    unfold backlog_within_bound. rewrite Hb, Hm. cbn. split; assumption.
  - rewrite (broadcast_buffers msg w Hready Hmax).
    unfold backlog_within_bound, with_manager, set_backlog.
    cbn [snd manager _backlog _max_backlog].
    rewrite (buffered_lastn _ _ msg Hmax Hlen).
    split; [exact Hmax|].
    pose proof (lastn_length (Z.to_nat (_max_backlog (manager w)))
                  (_backlog (manager w) ++ [msg])). lia.
Qed.

Lemma run_op_within_bound (o : op) (w : World) :
  backlog_within_bound (manager w) ->
  fst (run_op o w) = Ret tt /\ backlog_within_bound (manager (snd (run_op o w))).
Proof.
  intros Hinv. destruct o as [ws|ws|msg]; cbn [run_op].
  - split; [reflexivity | exact Hinv].
  - split; [reflexivity | exact Hinv].
  - apply broadcast_within_bound. exact Hinv.
Qed.

Lemma mark_ready_within_bound (w : World) :
  backlog_within_bound (manager w) -> backlog_within_bound (manager (mark_ready w)).
Proof.
  intros [Hmax _].
  destruct (mark_ready_parts w) as (_ & _ & _ & Hm). cbv zeta in Hm.
  unfold backlog_within_bound. rewrite mark_ready_backlog_empty, Hm.
  cut (0 < _max_backlog (manager
         match _backlog (manager w), active_connections (manager w) with
         | _ :: _, _ :: _ =>
             fold_left (fun w ev => _safe_broadcast ev w)
               (slice_from (- _max_backlog (manager w)) (_backlog (manager w)))
               (with_manager (set_ready true (manager w)) w)
         | _, _ => with_manager (set_ready true (manager w)) w
         end)); [intros Hpos; split; [exact Hpos | cbn; lia]|].
  destruct (_backlog (manager w)) as [|ev bl]; [exact Hmax|].
  destruct (active_connections (manager w)) as [|c conns]; [exact Hmax|].
  match goal with
  | |- context [fold_left ?f ?evs ?w1] => destruct (flush_keeps evs w1) as (_ & Hk & _)
  end.
  cbv zeta in Hk. rewrite Hk. exact Hmax.
Qed.

End BoundInvariant.

(** With a bound of zero the first buffered broadcast raises: [pop(0)] on
    an empty list. *)
Example broadcast_zero_bound :
  fst (broadcast (rt := Demo.reliable) [("id"%string, JInt 1)] (Demo.world0 0))
  = Raise IndexError.
Proof. reflexivity. Qed.

(** The thresholds on the values of §8: 30 degrees or a vibration of 0.9
    are anomalies, 20 degrees with 0.1 is not, and a vibration of exactly
    0.8 is not. *)
Example anomaly_thresholds :
  is_anomaly 30 0.1 = true /\ is_anomaly 20 0.9 = true /\
  is_anomaly 20 0.1 = false /\ is_anomaly 18 0.8 = false /\
  is_anomaly 25 0 = false /\ is_anomaly 17.9 0 = true.
Proof. repeat split; reflexivity. Qed.

(* ===================================================================== *)
(** ** Requests that [/ingest] refuses *)
(* ===================================================================== *)

Section RefusalFacts.
Context {rt : Runtime}.
Variable cfg : Config.

(** The rate limiter raises no HTTP error of its own, rejects without
    recording, and accepts by recording the time of the request. *)
Lemma check_rate_limit_cases (ip : string) (now : float) (w : World) :
  (exists e, check_rate_limit cfg ip now w = (Raise e, w) /\ e = OverflowError) \/
  check_rate_limit cfg ip now w = (Ret false, w) \/
  (exists kept,
      check_rate_limit cfg ip now w =
      (Ret true, with_rate_store (<[ip := kept ++ [now]]> (_rate_store w)) w)).
Proof.
  unfold check_rate_limit, window_start, float_of_int.
  destruct (PrimFloat.is_infinity _).
  - left. eexists. split; reflexivity.
  - destruct (_ >=? _).
    + right. left. reflexivity.
    + right. right. eexists. reflexivity.
Qed.

Lemma require_api_key_cases (api_key : option string) :
  auth.require_api_key (secrets cfg) api_key = Ret true \/
  auth.require_api_key (secrets cfg) api_key =
    Raise (HTTPException 500 "API_KEY not configured on server") \/
  auth.require_api_key (secrets cfg) api_key =
    Raise (HTTPException 401 "Invalid or missing API Key").
Proof.
  unfold auth.require_api_key.
  destruct (negb (truthy _)); [right; left; reflexivity|].
  destruct (negb (bool_decide _)); [right; right; reflexivity | left; reflexivity].
Qed.

Lemma check_signature_cases (bd : bytes) (sig : string) (w : World) :
  check_signature cfg bd sig w = (Ret tt, w) \/
  check_signature cfg bd sig w = (Raise (HTTPException 401 "Invalid HMAC signature"), w) \/
  check_signature cfg bd sig w = (Raise TypeError, w).
Proof.
  unfold check_signature, bind, lift, raise, ret, auth.compare_digest.
  destruct (auth.HMAC_SECRET (secrets cfg)) as [[|c0 s0]|]; try (left; reflexivity).
  destruct (isascii _ && isascii _); [|right; right; reflexivity].
  destruct (String.eqb _ _); cbn; [left | right; left]; reflexivity.
Qed.

(** [broadcast] raises nothing but the [IndexError] of [pop(0)], and only
    with a bound of zero or less; the call was counted, nothing else
    changed. *)
Lemma broadcast_raises (msg : message) (w w' : World) (e : exn) :
  broadcast msg w = (Raise e, w') ->
  e = IndexError /\ _max_backlog (manager w) <= 0 /\
  w' = with_broadcasts (broadcasts w ++ [msg]) w.
Proof.
  unfold broadcast. cbn.
  destruct (frontend_ready (manager w)); cbn; [discriminate|].
  destruct (Z.geb_spec (Z.of_nat (length (_backlog (manager w)))) (_max_backlog (manager w)))
    as [Hge|Hlt]; [|discriminate].
  destruct (_backlog (manager w)); [|discriminate].
  intros Heq. injection Heq as <- <-. cbn in Hge. repeat split. lia.
Qed.

End RefusalFacts.



(** X4.  With a secret configured, the handler's inline check and the
    unused dependency [verify_hmac] take the same decision on every body
    and every signature header, present or not: both accept, both answer
    401, or both let the [TypeError] of a non-ASCII header escape.  They
    differ only in the detail text when the header is missing or empty. *)
Theorem inline_check_agrees_with_verify_hmac
    (cfg : Config) (secret : string) (bd : bytes) (sig : option string) (w : World) :
  auth.HMAC_SECRET (secrets cfg) = Some secret ->
  secret <> EmptyString ->
  let inline := fst (check_signature cfg bd (or_empty (Some (default EmptyString sig))) w) in
  let dependency := auth.verify_hmac (secrets cfg) bd sig in
  http_status inline = http_status dependency /\
  (inline = Ret tt <-> dependency = Ret true) /\
  (truthy sig = false ->
     inline = Raise (HTTPException 401 "Invalid HMAC signature") /\
     dependency = Raise (HTTPException 401 "Missing X-Signature header")).
Proof.
  intros Hs Hne inline dependency. unfold inline, dependency.
  rewrite (check_signature_configured cfg secret bd _ w Hs Hne).
  destruct (truthy sig) eqn:Hsig.
  - rewrite (verify_hmac_configured _ secret bd sig Hs Hne Hsig).
    replace (or_empty (Some (default EmptyString sig))) with (or_empty sig)
      by (destruct sig; reflexivity).
    destruct (auth.compare_digest _ _) as [[|]|e]; cbn.
    + repeat split; intros; discriminate.
    + repeat split; intros; discriminate.
    + repeat split; intros; discriminate.
  - assert (Hempty : or_empty (Some (default EmptyString sig)) = EmptyString)
      by (destruct sig as [[|c s]|]; [reflexivity | discriminate Hsig | reflexivity]).
    rewrite Hempty.
    assert (Hcmp : auth.compare_digest (hexdigest (encode secret) bd) EmptyString = Ret false).
    { apply compare_digest_differ; [apply hexdigest_isascii | reflexivity|].
      intros Heq. pose proof (hexdigest_length (encode secret) bd) as Hlen.
      rewrite Heq in Hlen. discriminate Hlen. }
    rewrite Hcmp. unfold auth.verify_hmac. rewrite Hs.
    destruct secret as [|c0 s0]; [contradiction|]. rewrite Hsig. cbn.
    repeat split; intros; discriminate.
Qed.

Lemma inline_check_agrees_with_verify_hmac_witness :
  http_status (fst (check_signature (Demo.cfg (Some "s3cret"%string)) Demo.body_bare
                      EmptyString (Demo.world0 500)))
  = http_status (auth.verify_hmac (secrets (Demo.cfg (Some "s3cret"%string)))
                   Demo.body_bare None).
Proof.
  refine (proj1 (inline_check_agrees_with_verify_hmac (Demo.cfg (Some "s3cret"%string))
                   "s3cret" Demo.body_bare None (Demo.world0 500) _ _)).
  - reflexivity.
  - discriminate.
Defined.

(* ===================================================================== *)
(** ** From [/ingest] to [/events] *)
(* ===================================================================== *)

Section RoundTripFacts.
Context {rt : Runtime}.
Variable order_by_desc : list models.Event -> list models.Event.
Variable negative_limit : Z -> list models.Event -> list models.Event.
Hypothesis order_by_desc_perm : forall l, order_by_desc l ≡ₚ l.
Hypothesis order_by_desc_sorted : forall l, Sorted newer_first (order_by_desc l).

(** The row with the strictly latest timestamp is the first row of the
    ordered query. *)
Lemma order_by_desc_latest (l : list models.Event) (e : models.Event) :
  Forall (fun r => models.timestamp r < models.timestamp e) l ->
  exists older, order_by_desc (l ++ [e]) = e :: older.
Proof.
  intros Hold.
  pose proof (order_by_desc_perm (l ++ [e])) as Hp.
  pose proof (order_by_desc_sorted (l ++ [e])) as Hsorted.
  destruct (order_by_desc (l ++ [e])) as [|h older] eqn:Hq.
  - apply Permutation_nil_l in Hp. destruct l; discriminate Hp.
  - exists older. f_equal.
    apply Sorted_StronglySorted in Hsorted; [|apply _].
    apply StronglySorted_inv in Hsorted as [_ Hall].
    assert (Hh : h ∈ l ++ [e]) by (rewrite <- Hp; apply list_elem_of_here).
    assert (He : e ∈ h :: older) by (rewrite Hp, elem_of_app, list_elem_of_singleton; auto).
    apply elem_of_app in Hh as [Hh|Hh]; [|apply list_elem_of_singleton in Hh; exact Hh].
    apply elem_of_cons in He as [He|He]; [congruence|].
    rewrite Forall_forall in Hall, Hold.
    pose proof (Hall e He) as Hge. pose proof (Hold h Hh) as Hlt.
    unfold newer_first in Hge. lia.
Qed.

Lemma list_events_latest (limit : Z) (w : World) (e : models.Event) (older : list models.Event) :
  0 < limit ->
  order_by_desc (table w) = e :: older ->
  exists earlier,
    list_events order_by_desc negative_limit limit w = earlier ++ [event_data_of e].
Proof.
  intros Hpos Hq. unfold list_events.
  rewrite query_limit_take by lia. rewrite Hq.
  destruct (Z.to_nat limit) as [|n] eqn:Hn; [lia|].
  cbn [take rev]. rewrite map_app. eexists. reflexivity.
Qed.

End RoundTripFacts.

(** X5.  An accepted event whose insertion time is later than every
    stored timestamp is the last entry of [/events] for any positive
    limit: the listing ends with the newest event, carrying the id the
    [/ingest] response announced, the device id of the request and the
    stored payload. *)
Theorem ingested_event_is_listed_last
    (rt : Runtime)
    (order_by_desc : list models.Event -> list models.Event)
    (negative_limit : Z -> list models.Event -> list models.Event)
    (cfg : Config) (request : Request) (clock : Clock) (w w' : World)
    (resp : dict) (limit : Z) :
  (forall l, order_by_desc l ≡ₚ l) ->
  (forall l, Sorted newer_first (order_by_desc l)) ->
  Forall (fun r => models.timestamp r < func_now clock) (table w) ->
  0 < limit ->
  ingest_event cfg request clock w = (Ret resp, w') ->
  exists parsed evt earlier listed,
    json_loads (body request) = Some parsed /\
    IngestEvent_validate parsed = inr evt /\
    list_events order_by_desc negative_limit limit w' = earlier ++ [listed] /\
    dict_get "id" listed = dict_get "id" resp /\
    dict_get "device_id" listed = Some (JStr (device_id evt)) /\
    dict_get "payload" listed = Some (JObj (db_event_payload evt)) /\
    dict_get "timestamp" listed = Some (JStr (isoformat (func_now clock))).
Proof.
  intros Hperm Hsorted Hold Hpos Hrun.
  destruct (ingest_event_accepted cfg _ _ _ _ _ Hrun)
    as (w1 & parsed & evt & w3 & _ & _ & _ & Hjson & Hval & _ & _ & Hresp).
  destruct (ingest_event_table cfg _ _ _ _ _ Hrun) as (parsed' & evt' & Hjson' & Hval' & Htab).
  rewrite Hjson in Hjson'. injection Hjson' as <-.
  rewrite Hval in Hval'. injection Hval' as <-.
  destruct (order_by_desc_latest order_by_desc Hperm Hsorted (table w)
              (new_event evt clock w) Hold) as (older & Hq).
  rewrite <- Htab in Hq.
  destruct (list_events_latest order_by_desc negative_limit limit w' _ _ Hpos Hq)
    as (earlier & Hlist).
  exists parsed, evt, earlier, (event_data_of (new_event evt clock w)).
  rewrite Hresp. repeat split; first [assumption | reflexivity].
Qed.

Lemma ingested_event_is_listed_last_witness :
  let w := mkWorld ∅ Demo.rows (ConnectionManager_init 500) [] [] in
  let w' := snd (ingest_event (rt := Demo.reliable) (Demo.cfg None)
                   (Demo.request None Demo.body_bare) Demo.clock0 w) in
  exists earlier listed,
    list_events (rt := Demo.reliable) Demo.demo_order_by_desc Demo.demo_negative_limit 1 w'
      = earlier ++ [listed] /\
    dict_get "id" listed = Some (JInt 5).
Proof.
  intros w w'.
  destruct (ingested_event_is_listed_last Demo.reliable Demo.demo_order_by_desc
              Demo.demo_negative_limit (Demo.cfg None) (Demo.request None Demo.body_bare)
              Demo.clock0 w w' (accepted 5) 1)
    as (_ & _ & earlier & listed & _ & _ & Hlist & Hid & _).
  - intros l. apply (merge_sort_Permutation newer_first).
  - intros l. apply (Sorted_merge_sort newer_first).
  - repeat constructor.
  - lia.
  - vm_compute. reflexivity.
  - exists earlier, listed. split; [exact Hlist | exact Hid].
Defined.

(* ===================================================================== *)
(** ** The rate limiter across clients *)
(* ===================================================================== *)

Section RateStoreFacts.
Variable cfg : Config.

(** A check reads and writes the entry of its own client only. *)
Lemma check_rate_limit_local (ip : string) (now : float) (w v : World) :
  _rate_store w !! ip = _rate_store v !! ip ->
  fst (check_rate_limit cfg ip now w) = fst (check_rate_limit cfg ip now v) /\
  _rate_store (snd (check_rate_limit cfg ip now w)) !! ip =
  _rate_store (snd (check_rate_limit cfg ip now v)) !! ip.
Proof.
  intros Heq. unfold check_rate_limit. rewrite Heq.
  destruct (window_start cfg now); [|split; [reflexivity | exact Heq]].
  destruct (_ >=? _); cbn; [split; [reflexivity | exact Heq]|].
  rewrite !lookup_insert_eq. split; reflexivity.
Qed.

Lemma check_rate_limit_other (ip other : string) (now : float) (w : World) :
  other <> ip ->
  _rate_store (snd (check_rate_limit cfg ip now w)) !! other = _rate_store w !! other.
Proof.
  intros Hne. unfold check_rate_limit.
  destruct (window_start cfg now); [|reflexivity].
  destruct (_ >=? _); cbn; [reflexivity|].
  apply lookup_insert_ne. congruence.
Qed.

Lemma times_of_cons (ip client : string) (now : float) (rest : list (string * float)) :
  times_of ip ((client, now) :: rest) =
  if String.eqb client ip then now :: times_of ip rest else times_of ip rest.
Proof. unfold times_of. cbn. destruct (String.eqb client ip); reflexivity. Qed.

Lemma verdicts_of_cons (ip client : string) (now : float) (rest : list (string * float))
      (r : bool) (rs : list bool) :
  verdicts_of ip ((client, now) :: rest) (r :: rs) =
  if String.eqb client ip then r :: verdicts_of ip rest rs else verdicts_of ip rest rs.
Proof. unfold verdicts_of. cbn. destruct (String.eqb client ip); reflexivity. Qed.

Lemma checks_independent (ip : string) (reqs : list (string * float)) (w v w' : World)
      (rs : list bool) :
  _rate_store w !! ip = _rate_store v !! ip ->
  checks cfg reqs w = (Ret rs, w') ->
  exists v',
    requests cfg ip (times_of ip reqs) v = (Ret (verdicts_of ip reqs rs), v') /\
    _rate_store v' !! ip = _rate_store w' !! ip.
Proof.
  revert w v w' rs. induction reqs as [|[client now] rest IH]; intros w v w' rs Heq Hrun.
  - cbn in Hrun. injection Hrun as <- <-. exists v. split; [reflexivity | congruence].
  - cbn [checks] in Hrun. unfold bind, ret in Hrun.
    destruct (check_rate_limit cfg client now w) as [[r|e] w1] eqn:Hcheck; [|discriminate].
    destruct (checks cfg rest w1) as [[rs1|e] w2] eqn:Hrest; [|discriminate].
    injection Hrun as <- <-.
    rewrite times_of_cons, verdicts_of_cons.
    destruct (String.eqb_spec client ip) as [->|Hne].
    + destruct (check_rate_limit_local ip now w v Heq) as [Hfst Hsnd].
      rewrite Hcheck in Hfst, Hsnd. cbn [fst snd] in Hfst, Hsnd.
      destruct (check_rate_limit cfg ip now v) as [o v1] eqn:Hv. cbn [fst snd] in Hfst, Hsnd.
      subst o.
      destruct (IH w1 v1 w2 rs1 Hsnd Hrest) as (v' & Hreq & Hstore).
      exists v'. cbn [requests]. unfold bind at 1. rewrite Hv.
      unfold bind, ret. rewrite Hreq.
      split; [reflexivity | exact Hstore].
    + pose proof (check_rate_limit_other client ip now w) as Hother.
      rewrite Hcheck in Hother. cbn [snd] in Hother.
      apply (IH w1 v w2 rs1); [|exact Hrest].
      rewrite Hother by congruence. exact Heq.
Qed.

(** One check keeps every stored list within the maximum and removes no
    client. *)
Lemma check_rate_limit_bounded (ip : string) (now : float) (w : World) :
  (forall c ts, _rate_store w !! c = Some ts ->
                Z.of_nat (length ts) <= RATE_LIMIT_MAX cfg) ->
  let w' := snd (check_rate_limit cfg ip now w) in
  (forall c ts, _rate_store w' !! c = Some ts ->
                Z.of_nat (length ts) <= RATE_LIMIT_MAX cfg) /\
  (forall c, is_Some (_rate_store w !! c) -> is_Some (_rate_store w' !! c)) /\
  (RATE_LIMIT_MAX cfg <= 0 -> w' = w /\ fst (check_rate_limit cfg ip now w) <> Ret true).
Proof.
  intros Hinv. unfold check_rate_limit.
  destruct (window_start cfg now) as [start|e];
    [|cbn; split; [exact Hinv | split; [auto | intros _; split; [reflexivity | discriminate]]]].
  destruct (Z.geb_spec (Z.of_nat (length (filter (fun t => in_window start t = true)
                                            (default [] (_rate_store w !! ip)))))
                       (RATE_LIMIT_MAX cfg)) as [Hge|Hlt]; cbn.
  - split; [exact Hinv | split; [auto | intros _; split; [reflexivity | discriminate]]].
  - split; [|split].
    + intros c ts. destruct (decide (c = ip)) as [->|Hne].
      * rewrite lookup_insert_eq. intros Hsome. injection Hsome as <-.
        rewrite length_app. cbn [length]. unfold in_window in Hlt. lia.
      * rewrite lookup_insert_ne by congruence. apply Hinv.
    + intros c Hc. destruct (decide (c = ip)) as [->|Hne].
      * rewrite lookup_insert_eq. eexists. reflexivity.
      * rewrite lookup_insert_ne by congruence. exact Hc.
    + intros Hmax. unfold in_window in Hlt. lia.
Qed.

End RateStoreFacts.

(** X6.  The rate limiter is per client: in any interleaving of requests
    from any clients, the verdicts one client gets, and the timestamps
    kept for it, are those it would get if its own requests were the only
    ones. *)
Theorem rate_limit_is_per_client
    (cfg : Config) (ip : string) (reqs : list (string * float)) (w w' : World)
    (rs : list bool) :
  checks cfg reqs w = (Ret rs, w') ->
  exists v',
    requests cfg ip (times_of ip reqs) w = (Ret (verdicts_of ip reqs rs), v') /\
    _rate_store v' !! ip = _rate_store w' !! ip.
Proof. intros Hrun. exact (checks_independent cfg ip reqs w w w' rs eq_refl Hrun). Qed.

Lemma rate_limit_is_per_client_witness :
  let cfg := mkConfig (auth.mkSecrets (Some "api-key-1"%string) None) 60 1 in
  let reqs := [("10.0.0.1", 1000); ("10.0.0.2", 1001); ("10.0.0.1", 1002);
               ("10.0.0.2", 1100)]%string%float in
  exists v',
    requests cfg "10.0.0.2" [1001; 1100]%float (Demo.world0 500)
      = (Ret [true; true], v') /\
    _rate_store v' !! "10.0.0.2"%string = Some [1100%float].
Proof.
  intros cfg reqs.
  destruct (rate_limit_is_per_client cfg "10.0.0.2" reqs (Demo.world0 500)
              (snd (checks cfg reqs (Demo.world0 500))) [true; true; false; true])
    as (v' & Hreq & Hstore).
  - vm_compute. reflexivity.
  - exists v'. split; [exact Hreq|]. rewrite Hstore. vm_compute. reflexivity.
Defined.

(** X7.  Starting from a store whose lists are within [RATE_LIMIT_MAX]
    (the empty store is), any run of checks keeps at most
    [RATE_LIMIT_MAX] timestamps per client and never removes a client's
    entry; with a maximum of zero or less nothing is ever accepted or
    recorded. *)
Theorem rate_store_stays_bounded
    (cfg : Config) (reqs : list (string * float)) (w : World) :
  (forall c ts, _rate_store w !! c = Some ts ->
                Z.of_nat (length ts) <= RATE_LIMIT_MAX cfg) ->
  let w' := snd (checks cfg reqs w) in
  (forall c ts, _rate_store w' !! c = Some ts ->
                Z.of_nat (length ts) <= RATE_LIMIT_MAX cfg) /\
  (forall c, is_Some (_rate_store w !! c) -> is_Some (_rate_store w' !! c)) /\
  (RATE_LIMIT_MAX cfg <= 0 ->
     w' = w /\
     forall rs, fst (checks cfg reqs w) = Ret rs -> rs = replicate (length reqs) false).
Proof.
  revert w. induction reqs as [|[client now] rest IH]; intros w Hinv; cbv zeta.
  - cbn. repeat split; auto. intros rs Heq. injection Heq as <-. reflexivity.
  - destruct (check_rate_limit_bounded cfg client now w Hinv) as (Hb & Hk & Hz).
    cbv zeta in Hb, Hk, Hz.
    cbn [checks]. unfold bind, ret.
    destruct (check_rate_limit cfg client now w) as [[r|e] w1] eqn:Hcheck;
      cbn [fst snd] in *.
    + destruct (IH w1 Hb) as (Hb' & Hk' & Hz'). cbv zeta in Hb', Hk', Hz'.
      destruct (checks cfg rest w1) as [[rs1|e] w2] eqn:Hrest; cbn [fst snd] in *.
      * split; [exact Hb'|]. split; [intros c Hc; apply Hk', Hk, Hc|].
        intros Hmax. destruct (Hz Hmax) as [-> Hr]. destruct (Hz' Hmax) as [-> Hrs].
        split; [reflexivity|]. intros rs Heq. injection Heq as <-.
        cbn [length replicate]. rewrite (Hrs rs1 eq_refl).
        destruct r; [contradiction Hr; reflexivity | reflexivity].
      * split; [exact Hb'|]. split; [intros c Hc; apply Hk', Hk, Hc|].
        intros Hmax. destruct (Hz Hmax) as [-> Hr]. destruct (Hz' Hmax) as [-> Hrs].
        split; [reflexivity | discriminate].
    + split; [exact Hb|]. split; [exact Hk|].
      intros Hmax. destruct (Hz Hmax) as [-> Hr]. split; [reflexivity | discriminate].
Qed.

Lemma rate_store_stays_bounded_witness :
  let cfg := mkConfig (auth.mkSecrets (Some "api-key-1"%string) None) 60 1 in
  let reqs := [("10.0.0.1", 1000); ("10.0.0.2", 1001); ("10.0.0.1", 1002);
               ("10.0.0.2", 1100)]%string%float in
  exists ts,
    _rate_store (snd (checks cfg reqs (Demo.world0 500))) !! "10.0.0.2"%string = Some ts /\
    Z.of_nat (length ts) <= 1.
Proof.
  intros cfg reqs. exists [1100%float].
  assert (Hstore : _rate_store (snd (checks cfg reqs (Demo.world0 500))) !! "10.0.0.2"%string
                   = Some [1100%float]) by (vm_compute; reflexivity).
  split; [exact Hstore|].
  refine (proj1 (rate_store_stays_bounded cfg reqs (Demo.world0 500) _)
                "10.0.0.2"%string [1100%float] Hstore).
  intros c ts Hc. cbn in Hc. rewrite lookup_empty in Hc. discriminate Hc.
Defined.

(* ===================================================================== *)
(** ** Delivery and pruning *)
(* ===================================================================== *)

Section PruneFacts.
Context {rt : Runtime}.

Lemma succeeded_cons (fr : frame) (sent : list frame) :
  succeeded (fr :: sent) =
  if frame_ok fr then frame_ws fr :: succeeded sent else succeeded sent.
Proof. unfold succeeded. cbn. destruct (frame_ok fr); reflexivity. Qed.

Lemma failed_cons (fr : frame) (sent : list frame) :
  failed (fr :: sent) =
  if frame_ok fr then failed sent else frame_ws fr :: failed sent.
Proof. unfold failed. cbn. destruct (frame_ok fr); reflexivity. Qed.

Lemma attempts_cons (n : nat) (ws : WebSocket) (conns : list WebSocket) (msg : message) :
  attempts n (ws :: conns) msg =
  (ws, msg, send_json n ws msg) :: attempts (S n) conns msg.
Proof.
  unfold attempts. cbn [imap]. rewrite Nat.add_0_r. f_equal.
  apply imap_ext. intros i x _. cbn. do 2 f_equal. lia.
Qed.

Lemma attempts_ws (n : nat) (conns : list WebSocket) (msg : message) :
  map frame_ws (attempts n conns msg) = conns.
Proof.
  revert n. induction conns as [|ws conns IH]; intros n; [reflexivity|].
  rewrite attempts_cons. cbn. f_equal. apply IH.
Qed.

(** The first loop of [_safe_broadcast] makes exactly these attempts and
    reports exactly the connections whose send raised. *)
Lemma send_pass_attempts (conns : list WebSocket) (msg : message) (sent : list frame) :
  send_pass conns msg sent =
  (failed (attempts (length sent) conns msg),
   sent ++ attempts (length sent) conns msg).
Proof.
  revert sent. induction conns as [|ws conns IH]; intros sent.
  - cbn. rewrite app_nil_r. reflexivity.
  - cbn [send_pass]. rewrite IH, attempts_cons, failed_cons.
    rewrite length_app, <- app_assoc. cbn [length app frame_ok frame_ws fst snd].
    replace (length sent + 1)%nat with (S (length sent)) by lia.
    destruct (send_json (length sent) ws msg); reflexivity.
Qed.

Lemma failed_subset (sent : list frame) (ws : WebSocket) :
  ws ∈ failed sent -> ws ∈ map frame_ws sent.
Proof.
  induction sent as [|fr sent IH]; [intros H; exact H|].
  rewrite failed_cons. cbn [map]. destruct (frame_ok fr).
  - intros H. apply list_elem_of_further, IH, H.
  - intros H. apply elem_of_cons in H as [->|H];
      [apply list_elem_of_here | apply list_elem_of_further, IH, H].
Qed.

Lemma filter_all {A} (P : A -> Prop) `{forall x, Decision (P x)} (l : list A) :
  Forall P l -> filter P l = l.
Proof.
  induction 1 as [|x l Hx Hl IH]; [reflexivity|].
  rewrite filter_cons_True by exact Hx. rewrite IH. reflexivity.
Qed.

Lemma filter_iff_elem {A} (P Q : A -> Prop) `{forall x, Decision (P x)}
      `{forall x, Decision (Q x)} (l : list A) :
  (forall x, x ∈ l -> P x <-> Q x) -> filter P l = filter Q l.
Proof.
  induction l as [|x l IH]; intros Hpq; [reflexivity|].
  rewrite !filter_cons.
  rewrite IH by (intros y Hy; apply Hpq, list_elem_of_further, Hy).
  pose proof (Hpq x (list_elem_of_here x l)) as Hx.
  destruct (decide (P x)), (decide (Q x)); tauto || reflexivity.
Qed.

(** Without duplicates, removing the first occurrence removes the
    connection. *)
Lemma list_remove_filter (ws : WebSocket) (l : list WebSocket) :
  NoDup l -> list_remove ws l = filter (fun x => x <> ws) l.
Proof.
  induction 1 as [|x l Hnot Hnd IH]; [reflexivity|].
  cbn [list_remove]. destruct (Nat.eqb_spec x ws) as [->|Hne].
  - rewrite filter_cons_False by (intros H; apply H; reflexivity).
    symmetry. apply filter_all. apply Forall_forall. intros y Hy ->. contradiction.
  - rewrite filter_cons_True by exact Hne. rewrite IH. reflexivity.
Qed.

Lemma disconnect_filter (ws : WebSocket) (m : ConnectionManager) :
  NoDup (active_connections m) ->
  active_connections (disconnect ws m) = filter (fun x => x <> ws) (active_connections m).
Proof.
  intros Hnd. unfold disconnect. cbn [active_connections].
  destruct (existsb (Nat.eqb ws) (active_connections m)) eqn:Hin.
  - apply list_remove_filter, Hnd.
  - symmetry. apply filter_all. apply Forall_forall. intros y Hy ->.
    assert (Hex : existsb (Nat.eqb ws) (active_connections m) = true).
    { apply existsb_exists. exists ws. split; [|apply Nat.eqb_refl].
      apply list_elem_of_In, Hy. }
    congruence.
Qed.

Lemma disconnect_all_filter (stale : list WebSocket) (m : ConnectionManager) :
  NoDup (active_connections m) ->
  active_connections (fold_left (fun m x => disconnect x m) stale m) =
  filter (fun x => x ∉ stale) (active_connections m).
Proof.
  revert m. induction stale as [|x stale IH]; intros m Hnd; cbn [fold_left].
  - symmetry. apply filter_all, Forall_forall. intros y _. apply not_elem_of_nil.
  - rewrite IH by (rewrite disconnect_filter by exact Hnd; apply NoDup_filter, Hnd).
    rewrite disconnect_filter by exact Hnd. rewrite list_filter_filter.
    apply list_filter_iff. intros y. rewrite not_elem_of_cons. tauto.
Qed.

(** Among distinct connections, those not reported stale are those whose
    send succeeded. *)
Lemma not_failed_succeeded (sent : list frame) :
  NoDup (map frame_ws sent) ->
  filter (fun x => x ∉ failed sent) (map frame_ws sent) = succeeded sent.
Proof.
  induction sent as [|fr sent IH]; [reflexivity|].
  cbn [map]. intros Hnd. apply NoDup_cons in Hnd as [Hnot Hnd].
  assert (Hfresh : frame_ws fr ∉ failed sent)
    by (intros Hin; apply Hnot, failed_subset, Hin).
  rewrite failed_cons, succeeded_cons. destruct (frame_ok fr).
  - rewrite filter_cons_True by exact Hfresh. rewrite (IH Hnd). reflexivity.
  - rewrite filter_cons_False by (intros H; apply H, list_elem_of_here).
    rewrite <- (IH Hnd). apply filter_iff_elem. intros y Hin.
    rewrite not_elem_of_cons. split; [tauto|]. intros Hy. split; [|exact Hy].
    intros ->. contradiction.
Qed.

End PruneFacts.



Section LiveFacts.
Context {rt : Runtime}.

(** While ready, a reliable connection registered once receives every
    broadcast as it comes. *)
Lemma broadcasts_live_reliable (ws : WebSocket) (msgs : list message) (w : World) :
  reliable_ws ws ->
  frontend_ready (manager w) = true ->
  registrations ws (active_connections (manager w)) = 1%nat ->
  exists w',
    run_ops (map Broadcast msgs) w = (Ret tt, w') /\
    delivered_to ws (wire w') = delivered_to ws (wire w) ++ msgs /\
    _backlog (manager w') = _backlog (manager w) /\
    frontend_ready (manager w') = true /\
    registrations ws (active_connections (manager w')) = 1%nat.
Proof.
  intros Hrel. revert w. induction msgs as [|msg msgs IH]; intros w Hready Hreg.
  - exists w. rewrite app_nil_r. repeat split; assumption.
  - cbn [map run_ops run_op]. unfold bind at 1.
    assert (Hb : broadcast msg w =
                 (Ret tt, _safe_broadcast msg (with_broadcasts (broadcasts w ++ [msg]) w))).
    { unfold broadcast. cbn. rewrite Hready. reflexivity. }
    rewrite Hb.
    destruct (safe_broadcast_reliable ws msg (with_broadcasts (broadcasts w ++ [msg]) w) Hrel)
      as (Hd & Hr & Hbl & _ & Hroe).
    cbv zeta in Hd, Hr, Hbl, Hroe. cbn [manager wire with_broadcasts] in Hd, Hr, Hbl, Hroe.
    set (w1 := _safe_broadcast msg _) in *.
    assert (Hready1 : frontend_ready (manager w1) = true).
    { destruct (Hroe (or_introl Hready)) as [H|H]; [exact H|].
      rewrite H, Hreg in Hr. discriminate Hr. }
    destruct (IH w1 Hready1) as (w' & Hrun & Hd' & Hbl' & Hready' & Hreg');
      [rewrite Hr; exact Hreg|].
    exists w'. rewrite Hrun, Hd', Hd, Hreg, Hbl', Hbl, <- app_assoc.
    repeat split; assumption.
Qed.

End LiveFacts.

Section StretchFacts.
Context {rt : Runtime}.

(** Run without interruption, the stretches are [mark_ready]. *)
Lemma mark_ready_stretches (w : World) :
  mark_ready w = mark_ready_end (flush (fst (mark_ready_begin w)) (snd (mark_ready_begin w))).
Proof.
  unfold mark_ready, mark_ready_end, mark_ready_begin, flush. cbn [fst snd].
  cbv zeta.
  destruct (_backlog (manager (with_manager (set_ready true (manager w)) w)));
    [reflexivity|].
  destruct (active_connections (manager (with_manager (set_ready true (manager w)) w)));
    reflexivity.
Qed.

Lemma mark_ready_begin_keeps (w : World) :
  let w1 := snd (mark_ready_begin w) in
  frontend_ready (manager w1) = true /\
  active_connections (manager w1) = active_connections (manager w) /\
  _backlog (manager w1) = _backlog (manager w) /\
  _max_backlog (manager w1) = _max_backlog (manager w) /\
  wire w1 = wire w.
Proof. cbv zeta. unfold mark_ready_begin. cbn. repeat split; reflexivity. Qed.

(** The entries fixed at the start are the retained part of the backlog,
    when somebody is connected. *)
Lemma mark_ready_begin_slice (w : World) :
  0 < _max_backlog (manager w) ->
  active_connections (manager w) <> [] ->
  fst (mark_ready_begin w) = lastn (Z.to_nat (_max_backlog (manager w))) (_backlog (manager w)).
Proof.
  intros Hmax Hconn. unfold mark_ready_begin. cbn.
  destruct (_backlog (manager w)) as [|ev bl] eqn:Hbl; [reflexivity|].
  destruct (active_connections (manager w)) as [|c conns]; [contradiction|].
  rewrite <- Hbl. apply slice_from_retained, Hmax.
Qed.

End StretchFacts.

(** X9.  A connection whose sends succeed, registered once, lets
    broadcasts accumulate from an empty backlog and then signals
    readiness.  When the calls do not overlap (the flush of [mark_ready]
    completes before the next broadcast starts), it receives the retained
    backlog, oldest first, followed by every later broadcast in the order
    of the calls, each exactly once.  A broadcast that runs while the
    flush is suspended finds the flag already up and is sent at once: it
    reaches the connection between the backlog entries delivered before
    it and those delivered after, so the order of arrival is then not the
    order of the broadcasts. *)
Theorem buffered_then_live_in_order
    (rt : Runtime) (w : World) (ws : WebSocket) (ops : list op) (live : list message) :
  frontend_ready (manager w) = false ->
  _backlog (manager w) = [] ->
  0 < _max_backlog (manager w) ->
  reliable_ws ws ->
  registrations ws (active_connections (manager (snd (run_ops ops w)))) = 1%nat ->
  let w1 := snd (run_ops ops w) in
  let retained := lastn (Z.to_nat (_max_backlog (manager w))) (omap broadcast_of ops) in
  (* calls one after another *)
  (exists w3,
      run_ops (map Broadcast live) (mark_ready w1) = (Ret tt, w3) /\
      delivered_to ws (wire w3) = delivered_to ws (wire w) ++ retained ++ live /\
      _backlog (manager w3) = []) /\
  (* a broadcast while the flush is under way *)
  (fst (mark_ready_begin w1) = retained /\
   forall sooner later msg,
     retained = sooner ++ later ->
     let w2 := flush sooner (snd (mark_ready_begin w1)) in
     let w3 := snd (broadcast msg w2) in
     let w4 := mark_ready_end (flush later w3) in
     fst (broadcast msg w2) = Ret tt /\
     delivered_to ws (wire w4) = delivered_to ws (wire w) ++ sooner ++ [msg] ++ later /\
     _backlog (manager w4) = []).
Proof.
  intros Hready Hempty Hmax Hrel Hreg w1 retained.
  destruct (run_ops_not_ready ops w Hready Hmax)
    as (w1' & Hrun & Hr1 & Hw1 & Hm1 & Hb1 & _); [rewrite Hempty; cbn; lia|].
  assert (Hw1' : w1 = w1') by (unfold w1; rewrite Hrun; reflexivity).
  rewrite Hrun in Hreg. cbn [snd] in Hreg. clearbody w1. subst w1'.
  rewrite Hempty in Hb1. cbn [app] in Hb1. fold retained in Hb1.
  assert (Hlen : (length retained <= Z.to_nat (_max_backlog (manager w)))%nat)
    by apply lastn_length.
  assert (Hconn : active_connections (manager w1) <> [])
    by (intros Hnil; rewrite Hnil in Hreg; discriminate Hreg).
  assert (Hslice : fst (mark_ready_begin w1) = retained).
  { rewrite mark_ready_begin_slice by (rewrite ?Hm1; assumption).
    rewrite Hm1, Hb1. apply lastn_short, Hlen. }
  split; [|split; [exact Hslice|]].
  - destruct (mark_ready_reliable ws w1 Hrel) as (Hd & Hreg2).
    rewrite Hreg in Hreg2.
    assert (Hready2 : frontend_ready (manager (mark_ready w1)) = true).
    { destruct (mark_ready_ready_or_empty w1) as [H|H]; [exact H|].
      rewrite H in Hreg2. discriminate Hreg2. }
    destruct (broadcasts_live_reliable ws live (mark_ready w1) Hrel Hready2 Hreg2)
      as (w3 & Hrun3 & Hd3 & Hb3 & _).
    exists w3. split; [exact Hrun3|]. split; [|rewrite Hb3; apply mark_ready_backlog_empty].
    rewrite Hd3, Hd, Hw1, Hreg, <- app_assoc. do 2 f_equal.
    rewrite Hb1.
    destruct retained as [|ev bl] eqn:Hbl; [reflexivity|].
    destruct (active_connections (manager w1)) as [|c conns]; [discriminate Hreg|].
    rewrite flat_map_replicate_1, Hm1, slice_from_retained by exact Hmax.
    apply lastn_short, Hlen.
  - intros sooner later msg Hsplit w2 w3 w4.
    destruct (mark_ready_begin_keeps w1) as (Hup & Hact & _ & _ & Hwire).
    cbv zeta in Hup, Hact, Hwire.
    (* the entries delivered before the broadcast *)
    destruct (flush_reliable ws sooner (snd (mark_ready_begin w1)) Hrel)
      as (Hd2 & Hreg2 & _ & _ & Hroe2).
    cbv zeta in Hd2, Hreg2, Hroe2. fold (flush sooner (snd (mark_ready_begin w1))) in *.
    fold w2 in Hd2, Hreg2, Hroe2.
    rewrite Hact, Hreg in Hd2, Hreg2. rewrite Hwire, Hw1, flat_map_replicate_1 in Hd2.
    assert (Hready2 : frontend_ready (manager w2) = true).
    { destruct (Hroe2 (or_introl Hup)) as [H|H]; [exact H|].
      rewrite H in Hreg2. discriminate Hreg2. }
    (* the broadcast finds the flag up *)
    destruct (broadcasts_live_reliable ws [msg] w2 Hrel Hready2 Hreg2)
      as (w3' & Hrun3 & Hd3 & _ & Hready3 & Hreg3).
    cbn [map run_ops run_op] in Hrun3. unfold bind, ret in Hrun3.
    destruct (broadcast msg w2) as [[[]|x] w3''] eqn:Hb; [|discriminate Hrun3].
    injection Hrun3 as ->. subst w3. cbn [snd] in *.
    (* the entries delivered after it *)
    destruct (flush_reliable ws later w3' Hrel) as (Hd4 & _).
    cbv zeta in Hd4. fold (flush later w3') in Hd4.
    rewrite Hreg3, flat_map_replicate_1 in Hd4.
    split; [reflexivity|]. split; [|reflexivity].
    unfold w4, mark_ready_end. cbn [wire with_manager].
    rewrite Hd4, Hd3, Hd2, <- !app_assoc. reflexivity.
Qed.

Lemma buffered_then_live_in_order_witness :
  let ops := Connect 7%nat :: map Broadcast (Demo.numbered 3) in
  let live := map (fun i => [("id"%string, JInt i)]) [4; 5] in
  let w1 := snd (run_ops (rt := Demo.reliable) ops (Demo.world0 2)) in
  (exists w3,
      run_ops (rt := Demo.reliable) (map Broadcast live)
        (mark_ready (rt := Demo.reliable) w1) = (Ret tt, w3) /\
      delivered_to 7%nat (wire w3) = map (fun i => [("id"%string, JInt i)]) [2; 3; 4; 5]) /\
  delivered_to 7%nat
    (wire (mark_ready_end
             (flush (rt := Demo.reliable) [[("id"%string, JInt 3)]]
                (snd (broadcast (rt := Demo.reliable) [("id"%string, JInt 4)]
                        (flush (rt := Demo.reliable) [[("id"%string, JInt 2)]]
                           (snd (mark_ready_begin w1))))))))
  = map (fun i => [("id"%string, JInt i)]) [2; 4; 3].
Proof.
  intros ops live w1.
  destruct (buffered_then_live_in_order Demo.reliable (Demo.world0 2) 7%nat ops live)
    as ((w3 & Hrun & Hd & _) & _ & Hover).
  - reflexivity.
  - reflexivity.
  - cbn. lia.
  - intros k msg. reflexivity.
  - vm_compute. reflexivity.
  - split.
    + exists w3. split; [exact Hrun|]. rewrite Hd. vm_compute. reflexivity.
    + destruct (Hover [[("id"%string, JInt 2)]] [[("id"%string, JInt 3)]]
                  [("id"%string, JInt 4)]) as (_ & Hd4 & _).
      * vm_compute. reflexivity.
      * fold w1 in Hd4. rewrite Hd4. reflexivity.
Defined.

(* ===================================================================== *)
(** ** The backlog bound over the life of the process *)
(* ===================================================================== *)

Section LifecycleFacts.
Context {rt : Runtime}.
Variable cfg : Config.
Variable WS_TOKEN : string.

Lemma broadcast_bounded_by (n : Z) (msg : message) (w : World) :
  bounded_by n (manager w) ->
  fst (broadcast msg w) = Ret tt /\ bounded_by n (manager (snd (broadcast msg w))).
Proof.
  intros [Hn Hinv]. destruct (broadcast_within_bound msg w Hinv) as [Hret Hinv'].
  split; [exact Hret|]. split; [|exact Hinv'].
  unfold broadcast. cbn. destruct (frontend_ready (manager w)); cbn.
  - destruct (safe_broadcast_keeps msg (with_broadcasts (broadcasts w ++ [msg]) w))
      as (_ & Hm & _). cbv zeta in Hm. rewrite Hm. exact Hn.
  - destruct (_ >=? _); [|exact Hn]. destruct (_backlog (manager w)); exact Hn.
Qed.

Lemma mark_ready_bounded_by (n : Z) (w : World) :
  bounded_by n (manager w) -> bounded_by n (manager (mark_ready w)).
Proof.
  intros [Hn Hinv]. split; [|apply mark_ready_within_bound, Hinv].
  destruct (mark_ready_parts w) as (_ & _ & _ & Hm). cbv zeta in Hm. rewrite Hm.
  destruct (_backlog (manager w)) as [|ev bl]; [exact Hn|].
  destruct (active_connections (manager w)) as [|c conns]; [exact Hn|].
  match goal with
  | |- context [fold_left ?f ?evs ?w1] => destruct (flush_keeps evs w1) as (_ & Hk & _)
  end.
  cbv zeta in Hk. rewrite Hk. exact Hn.
Qed.

Lemma anomaly_detection_bounded_by (n : Z) (event_data : dict) (w : World) :
  bounded_by n (manager w) ->
  bounded_by n (manager (snd (anomaly_detection event_data w))).
Proof.
  intros Hinv. unfold anomaly_detection, try_pass, bind, lift, ret. cbn.
  destruct (extract_metrics event_data) as [[temp vib]|]; cbn; [|exact Hinv].
  destruct (is_anomaly temp vib); [|exact Hinv].
  apply broadcast_bounded_by, Hinv.
Qed.

(** [/ingest] keeps the bound and never ends in the [IndexError] of an
    empty backlog. *)
Lemma ingest_event_bounded_by (n : Z) (request : Request) (clock : Clock) (w : World) :
  bounded_by n (manager w) ->
  fst (ingest_event cfg request clock w) <> Raise IndexError /\
  bounded_by n (manager (snd (ingest_event cfg request clock w))).
Proof.
  intros Hinv. rewrite ingest_event_unfold.
  destruct (require_api_key_cases cfg (x_api_key request)) as [Hk|[Hk|Hk]]; rewrite Hk;
    [|split; [discriminate | exact Hinv]..].
  pose proof (check_rate_limit_frame cfg (client_ip request) (time_time clock) w)
    as (_ & Hm1 & _).
  destruct (check_rate_limit_cases cfg (client_ip request) (time_time clock) w)
    as [(e & Hr & ->)|[Hr|(kept & Hr)]]; rewrite Hr in *; cbn [fst snd] in *;
    [split; [discriminate | exact Hinv]..|].
  set (w1 := with_rate_store _ w) in *.
  destruct (check_signature_cases cfg (body request) (presented_signature request) w1)
    as [Hs|[Hs|Hs]]; rewrite Hs; cbn [fst snd];
    [|split; [discriminate | rewrite Hm1; exact Hinv]..].
  destruct (json_loads (body request)) as [parsed|];
    [|cbn [fst snd]; split; [discriminate | rewrite Hm1; exact Hinv]].
  destruct (IngestEvent_validate parsed) as [err|evt];
    [cbn [fst snd]; split; [discriminate | rewrite Hm1; exact Hinv]|].
  cbv zeta.
  set (e := new_event evt clock w1).
  destruct (broadcast_bounded_by n (event_data_of e) (with_table (table w1 ++ [e]) w1))
    as [Hret Hinv3]; [cbn [manager with_table]; rewrite Hm1; exact Hinv|].
  destruct (broadcast _ _) as [[[]|x] w3]; cbn [fst snd] in *; [|discriminate Hret].
  split; [discriminate|]. apply anomaly_detection_bounded_by, Hinv3.
Qed.

Lemma step_bounded_by (n : Z) (ev : event) (w : World) :
  bounded_by n (manager w) -> bounded_by n (manager (step cfg WS_TOKEN ev w)).
Proof.
  intros Hinv. destruct ev as [ws token|msg|ws|msg|request clock]; cbn [step].
  - unfold ws_open. destruct (_ && _); exact Hinv.
  - unfold ws_receive. destruct (String.eqb _ _); [|exact Hinv].
    apply mark_ready_bounded_by, Hinv.
  - exact Hinv.
  - apply broadcast_bounded_by, Hinv.
  - apply ingest_event_bounded_by, Hinv.
Qed.

End LifecycleFacts.

(** X10.  With a positive [BACKLOG_SIZE], whatever handshakes, text
    frames, closes, broadcasts and [/ingest] requests arrive and in
    whatever order, the backlog never holds more than [BACKLOG_SIZE]
    messages and the bound itself never changes; in every state reached,
    a broadcast returns normally and [/ingest] never fails on the
    backlog's [pop(0)]. *)
Theorem backlog_bound_is_invariant
    (rt : Runtime) (cfg : Config) (WS_TOKEN : string) (evs : list event) (w : World) :
  0 < _max_backlog (manager w) ->
  Z.of_nat (length (_backlog (manager w))) <= _max_backlog (manager w) ->
  let w' := run cfg WS_TOKEN evs w in
  Z.of_nat (length (_backlog (manager w'))) <= _max_backlog (manager w) /\
  _max_backlog (manager w') = _max_backlog (manager w) /\
  (forall msg, fst (broadcast msg w') = Ret tt) /\
  (forall request clock, fst (ingest_event cfg request clock w') <> Raise IndexError).
Proof.
  intros Hmax Hlen w'.
  assert (Hinv : bounded_by (_max_backlog (manager w)) (manager w')).
  { unfold w', run. clear w'.
    assert (H0 : bounded_by (_max_backlog (manager w)) (manager w))
      by (split; [reflexivity | split; assumption]).
    revert H0. generalize (_max_backlog (manager w)) as n. clear Hmax Hlen.
    revert w. induction evs as [|ev evs IH]; intros w n H0; [exact H0|].
    cbn [fold_left]. apply IH, step_bounded_by, H0. }
  destruct Hinv as (Hn & Hpos & Hle).
  split; [rewrite <- Hn; exact Hle|]. split; [exact Hn|]. split.
  - intros msg. apply broadcast_returns, Hpos.
  - intros request clock.
    apply (ingest_event_bounded_by cfg (_max_backlog (manager w)) request clock w').
    split; [exact Hn | split; assumption].
Qed.

Lemma backlog_bound_is_invariant_witness :
  let evs := [Publish [("id"%string, JInt 1)]; Handshake 7%nat None;
              Post (Demo.request None Demo.body_hot) Demo.clock0;
              Publish [("id"%string, JInt 2)]; Text "frontend:ready";
              Post (Demo.request None Demo.body_hot) Demo.clock0; Hangup 7%nat;
              Publish [("id"%string, JInt 3)]; Publish [("id"%string, JInt 4)]] in
  let w' := run (rt := Demo.reliable) (Demo.cfg None) EmptyString evs (Demo.world0 2) in
  Z.of_nat (length (_backlog (manager w'))) <= 2.
Proof.
  intros evs w'.
  refine (proj1 (backlog_bound_is_invariant Demo.reliable (Demo.cfg None) EmptyString evs
                   (Demo.world0 2) _ _)).
  - cbn. lia.
  - cbn. lia.
Defined.

Section DrainedFacts.
Context {rt : Runtime}.
Variable cfg : Config.
Variable WS_TOKEN : string.

Lemma disconnect_ready_up (x : WebSocket) (m : ConnectionManager) :
  frontend_ready (disconnect x m) = true -> frontend_ready m = true.
Proof.
  unfold disconnect. cbn.
  destruct (if existsb _ _ then _ else _); [discriminate | intros H; exact H].
Qed.

Lemma disconnect_all_ready_up (stale : list WebSocket) (m : ConnectionManager) :
  frontend_ready (fold_left (fun m x => disconnect x m) stale m) = true ->
  frontend_ready m = true.
Proof.
  revert m. induction stale as [|x stale IH]; intros m; cbn [fold_left]; [auto|].
  intros H. apply (disconnect_ready_up x), IH, H.
Qed.

Lemma safe_broadcast_drained (msg : message) (w : World) :
  drained (manager w) -> drained (manager (_safe_broadcast msg w)).
Proof.
  intros Hinv Hready. destruct (safe_broadcast_keeps msg w) as (Hb & _). cbv zeta in Hb.
  rewrite Hb. apply Hinv. revert Hready. unfold _safe_broadcast.
  destruct (send_pass _ _ _) as [stale sent]. cbn. apply disconnect_all_ready_up.
Qed.

Lemma broadcast_drained (msg : message) (w : World) :
  drained (manager w) -> drained (manager (snd (broadcast msg w))).
Proof.
  intros Hinv. unfold broadcast. cbn.
  destruct (frontend_ready (manager w)) eqn:Hready; cbn.
  - apply safe_broadcast_drained. exact Hinv.
  - destruct (_ >=? _); [destruct (_backlog (manager w))|];
      intros H; cbn in H; congruence.
Qed.

Lemma anomaly_detection_drained (event_data : dict) (w : World) :
  drained (manager w) -> drained (manager (snd (anomaly_detection event_data w))).
Proof.
  intros Hinv. unfold anomaly_detection, try_pass, bind, lift, ret. cbn.
  destruct (extract_metrics event_data) as [[temp vib]|]; cbn; [|exact Hinv].
  destruct (is_anomaly temp vib); [|exact Hinv].
  apply broadcast_drained, Hinv.
Qed.

Lemma ingest_event_drained (request : Request) (clock : Clock) (w : World) :
  drained (manager w) -> drained (manager (snd (ingest_event cfg request clock w))).
Proof.
  intros Hinv. rewrite ingest_event_unfold.
  destruct (auth.require_api_key _ _); [|exact Hinv].
  pose proof (check_rate_limit_frame cfg (client_ip request) (time_time clock) w)
    as (_ & Hm1 & _).
  destruct (check_rate_limit _ _ _ _) as [[[|]|] w1]; cbn [snd] in *;
    [|rewrite Hm1; exact Hinv..].
  pose proof (check_signature_frame cfg (body request) (presented_signature request) w1)
    as Hw2.
  destruct (check_signature _ _ _ _) as [[|] w2]; cbn [snd] in *; subst w2;
    [|rewrite Hm1; exact Hinv].
  destruct (json_loads (body request)) as [parsed|]; [|cbn [snd]; rewrite Hm1; exact Hinv].
  destruct (IngestEvent_validate parsed) as [err|evt];
    [cbn [snd]; rewrite Hm1; exact Hinv|].
  cbv zeta. set (e := new_event evt clock w1).
  pose proof (broadcast_drained (event_data_of e) (with_table (table w1 ++ [e]) w1)) as Hb.
  cbn [manager with_table] in Hb. rewrite Hm1 in Hb. specialize (Hb Hinv).
  destruct (broadcast _ _) as [[|] w3]; cbn [snd] in *; [|exact Hb].
  apply anomaly_detection_drained, Hb.
Qed.

Lemma step_drained (ev : event) (w : World) :
  drained (manager w) -> drained (manager (step cfg WS_TOKEN ev w)).
Proof.
  intros Hinv. destruct ev as [ws token|msg|ws|msg|request clock]; cbn [step].
  - unfold ws_open. destruct (_ && _); exact Hinv.
  - unfold ws_receive. destruct (String.eqb _ _); [|exact Hinv].
    intros _. apply mark_ready_backlog_empty.
  - intros Hready. apply Hinv, (disconnect_ready_up ws), Hready.
  - apply broadcast_drained, Hinv.
  - apply ingest_event_drained, Hinv.
Qed.

End DrainedFacts.

(** X14.  When the calls do not overlap (each handshake, frame, close,
    broadcast and [/ingest] request runs to completion before the next
    starts), then in every state between two calls [GET /ready] answers
    [true] only with an empty backlog.  Inside [mark_ready] this is not
    so: the flag is raised before the flush and the backlog is cleared
    after it, so a [GET /ready] served while the flush is suspended at one
    of its sends answers [true] with the backlog still full. *)
Theorem ready_means_drained
    (rt : Runtime) (cfg : Config) (WS_TOKEN : string) (evs : list event) (w : World) :
  (frontend_ready (manager w) = true -> _backlog (manager w) = []) ->
  let w' := run cfg WS_TOKEN evs w in
  (* between calls *)
  (ready_status w' = [("ready"%string, JBool true)] -> _backlog (manager w') = []) /\
  (* while a flush is under way *)
  (forall sooner later,
      fst (mark_ready_begin w') = sooner ++ later ->
      sooner ++ later <> [] ->
      let v := flush sooner (snd (mark_ready_begin w')) in
      _backlog (manager v) = _backlog (manager w') /\
      _backlog (manager v) <> [] /\
      (active_connections (manager v) <> [] ->
       ready_status v = [("ready"%string, JBool true)])).
Proof.
  intros H0 w'. split.
  - intros Hup.
    assert (Hinv : drained (manager w')).
    { unfold w', run. clear Hup w'. revert w H0.
      induction evs as [|ev evs IH]; intros w H0; [exact H0|].
      cbn [fold_left]. apply IH. exact (step_drained cfg WS_TOKEN ev w H0). }
    apply Hinv. unfold ready_status in Hup. congruence.
  - clearbody w'. intros sooner later Hslice Hsome v.
    destruct (mark_ready_begin_keeps w') as (Hup & _ & Hbl & _).
    cbv zeta in Hup, Hbl.
    destruct (flush_keeps sooner (snd (mark_ready_begin w'))) as (Hb & _ & Hroe).
    cbv zeta in Hb, Hroe. fold (flush sooner (snd (mark_ready_begin w'))) in Hb, Hroe.
    fold v in Hb, Hroe.
    split; [rewrite Hb; exact Hbl|]. split.
    + rewrite Hb, Hbl. intros Hnil. apply Hsome. rewrite <- Hslice.
      unfold mark_ready_begin. cbn. rewrite Hnil. reflexivity.
    + intros Hconn. unfold ready_status.
      destruct (Hroe (or_introl Hup)) as [H|H]; [rewrite H; reflexivity | contradiction].
Qed.

Lemma ready_means_drained_witness :
  let evs := [Publish [("id"%string, JInt 1)]; Handshake 7%nat None;
              Text "frontend:ready"; Publish [("id"%string, JInt 2)]] in
  let busy := [Handshake 7%nat None; Publish [("id"%string, JInt 1)];
               Publish [("id"%string, JInt 2)]] in
  let w' := run (rt := Demo.reliable) (Demo.cfg None) EmptyString busy (Demo.world0 2) in
  let v := flush (rt := Demo.reliable) [[("id"%string, JInt 1)]]
             (snd (mark_ready_begin w')) in
  _backlog (manager (run (rt := Demo.reliable) (Demo.cfg None) EmptyString evs
                         (Demo.world0 2))) = [] /\
  ready_status v = [("ready"%string, JBool true)] /\
  length (_backlog (manager v)) = 2%nat.
Proof.
  intros evs busy w' v. split; [|split].
  - apply (ready_means_drained Demo.reliable (Demo.cfg None) EmptyString evs (Demo.world0 2)).
    + cbn. discriminate.
    + vm_compute. reflexivity.
  - destruct (ready_means_drained Demo.reliable (Demo.cfg None) EmptyString busy
                (Demo.world0 2)) as (_ & Hmid); [cbn; discriminate|].
    destruct (Hmid [[("id"%string, JInt 1)]] [[("id"%string, JInt 2)]])
      as (_ & _ & Hready).
    + vm_compute. reflexivity.
    + discriminate.
    + apply Hready. vm_compute. discriminate.
  - destruct (ready_means_drained Demo.reliable (Demo.cfg None) EmptyString busy
                (Demo.world0 2)) as (_ & Hmid); [cbn; discriminate|].
    destruct (Hmid [[("id"%string, JInt 1)]] [[("id"%string, JInt 2)]])
      as (Hsame & _ & _).
    + vm_compute. reflexivity.
    + discriminate.
    + fold w' v in Hsame. rewrite Hsame. vm_compute. reflexivity.
Defined.

(** X15.  While the flag is up and nobody is connected (a readiness
    signal processed after the manager dropped every connection leaves
    this state), broadcasts are neither sent nor buffered: the messages
    are lost, and a frontend that connects and signals readiness
    afterwards receives none of them. *)
Theorem broadcast_without_connection_is_lost
    (rt : Runtime) (msgs : list message) (w : World) :
  frontend_ready (manager w) = true ->
  active_connections (manager w) = [] ->
  _backlog (manager w) = [] ->
  exists w',
    run_ops (map Broadcast msgs) w = (Ret tt, w') /\
    broadcasts w' = broadcasts w ++ msgs /\
    wire w' = wire w /\
    manager w' = manager w /\
    forall ws,
      wire (mark_ready (with_manager (connect ws (manager w')) w')) = wire w.
Proof.
  intros Hready Hnone Hempty. revert w Hready Hnone Hempty.
  induction msgs as [|msg msgs IH]; intros w Hready Hnone Hempty.
  - exists w. rewrite app_nil_r. repeat split; try reflexivity.
    intros ws. rewrite mark_ready_idle by (left; exact Hempty). reflexivity.
  - cbn [map run_ops run_op]. unfold bind at 1.
    assert (Hb : broadcast msg w = (Ret tt, with_broadcasts (broadcasts w ++ [msg]) w)).
    { unfold broadcast. cbn. rewrite Hready. cbn.
      unfold _safe_broadcast. cbn. rewrite Hnone. cbn.
      destruct w as [rs tb m wr bc]. reflexivity. }
    rewrite Hb.
    destruct (IH (with_broadcasts (broadcasts w ++ [msg]) w) Hready Hnone Hempty)
      as (w' & Hrun & Hbc & Hw & Hm & Hlate).
    exists w'. split; [exact Hrun|].
    split; [rewrite Hbc; cbn; rewrite <- app_assoc; reflexivity|].
    split; [exact Hw|]. split; [exact Hm | exact Hlate].
Qed.

Lemma broadcast_without_connection_is_lost_witness :
  let w := mark_ready (rt := Demo.reliable) (Demo.world0 500) in
  exists w',
    run_ops (rt := Demo.reliable) (map Broadcast (Demo.numbered 3)) w = (Ret tt, w') /\
    wire (mark_ready (rt := Demo.reliable) (with_manager (connect 7%nat (manager w')) w'))
    = [].
Proof.
  intros w.
  destruct (broadcast_without_connection_is_lost Demo.reliable (Demo.numbered 3) w)
    as (w' & Hrun & _ & _ & _ & Hlate).
  - reflexivity.
  - reflexivity.
  - reflexivity.
  - exists w'. split; [exact Hrun | exact (Hlate 7%nat)].
Defined.

(* ===================================================================== *)
(** ** Facts about [strip], [lower] and [split] *)
(* ===================================================================== *)

Section StringFacts.

Lemma append_cons (c : ascii) (a b : string) :
  (String c a ++ b)%string = String c (a ++ b)%string.
Proof. reflexivity. Qed.

Lemma lstrip_blank (s : string) : blank s = true -> lstrip s = EmptyString.
Proof.
  induction s as [|c s IH]; [reflexivity|]. cbn [blank lstrip rstrip]. intros H.
  apply andb_true_iff in H as [Hc Hs]. rewrite Hc. exact (IH Hs).
Qed.

Lemma rstrip_blank (s : string) : blank s = true -> rstrip s = EmptyString.
Proof.
  induction s as [|c s IH]; [reflexivity|]. cbn [blank lstrip rstrip]. intros H.
  apply andb_true_iff in H as [Hc Hs]. rewrite (IH Hs), Hc. reflexivity.
Qed.

Lemma lstrip_app_blank (pre s : string) :
  blank pre = true -> lstrip (pre ++ s) = lstrip s.
Proof.
  induction pre as [|c pre IH]; [reflexivity|]. rewrite append_cons. cbn [blank lstrip]. intros H.
  apply andb_true_iff in H as [Hc Hs]. rewrite Hc. exact (IH Hs).
Qed.

Lemma rstrip_app_blank (s suf : string) :
  blank suf = true -> rstrip (s ++ suf) = rstrip s.
Proof.
  intros Hsuf. induction s as [|c s IH]; [exact (rstrip_blank suf Hsuf)|].
  rewrite append_cons. cbn [rstrip]. rewrite IH. reflexivity.
Qed.

(** What [rstrip] returns has no trailing whitespace, and what [lstrip]
    returns has no leading whitespace. *)
Lemma rstrip_rstrip (s : string) : rstrip (rstrip s) = rstrip s.
Proof.
  induction s as [|c s IH]; [reflexivity|]. cbn [rstrip].
  destruct (rstrip s) as [|d r] eqn:Hr.
  - destruct (isspace c) eqn:Hc; [reflexivity|]. cbn [rstrip]. rewrite Hc. reflexivity.
  - change (rstrip (String c (String d r))) with
      (match rstrip (String d r) with
       | EmptyString => if isspace c then EmptyString else String c EmptyString
       | r' => String c r'
       end).
    rewrite IH. reflexivity.
Qed.

Lemma lstrip_head (s : string) :
  match lstrip s with
  | EmptyString => True
  | String c _ => isspace c = false
  end.
Proof.
  induction s as [|c s IH]; [exact I|]. cbn [lstrip].
  destruct (isspace c) eqn:Hc; [exact IH | exact Hc].
Qed.

Lemma lstrip_rstrip (s : string) : lstrip (rstrip (lstrip s)) = rstrip (lstrip s).
Proof.
  pose proof (lstrip_head s) as Hhead.
  destruct (lstrip s) as [|c t]; [reflexivity|]. cbn [rstrip].
  destruct (rstrip t); [rewrite Hhead|]; cbn [lstrip]; rewrite Hhead; reflexivity.
Qed.

Lemma strip_strip (s : string) : strip (strip s) = strip s.
Proof. unfold strip. rewrite lstrip_rstrip. apply rstrip_rstrip. Qed.

Lemma strip_blank (s : string) : blank s = true -> strip s = EmptyString.
Proof. intros H. unfold strip. rewrite (lstrip_blank s H). reflexivity. Qed.

(** Surrounding whitespace does not matter to [strip]. *)
Lemma strip_padding (pre s suf : string) :
  blank pre = true -> blank suf = true -> strip (pre ++ s ++ suf) = strip s.
Proof.
  intros Hpre Hsuf. unfold strip. rewrite (lstrip_app_blank pre _ Hpre).
  destruct (blank s) eqn:Hs.
  - rewrite (lstrip_blank s Hs), lstrip_blank; [reflexivity|].
    clear Hpre. induction s as [|c s IH]; [exact Hsuf|].
    rewrite append_cons. cbn [blank] in Hs |- *. apply andb_true_iff in Hs as [Hc Hs].
    rewrite Hc. exact (IH Hs).
  - assert (Happ : lstrip (s ++ suf) = (lstrip s ++ suf)%string).
    { clear Hpre. induction s as [|c s IH]; [discriminate Hs|].
      rewrite append_cons. cbn [blank lstrip] in Hs |- *. destruct (isspace c); [|reflexivity].
      apply IH. exact Hs. }
    rewrite Happ. apply rstrip_app_blank, Hsuf.
Qed.

(** Lower-casing moves no character into or out of the whitespace. *)
Lemma isspace_lower_char (c : ascii) : isspace (lower_char c) = isspace c.
Proof. destruct c as [[] [] [] [] [] [] [] []]; vm_compute; reflexivity. Qed.

Lemma lower_char_space (c : ascii) : isspace c = true -> lower_char c = c.
Proof. destruct c as [[] [] [] [] [] [] [] []]; vm_compute; congruence. Qed.

Lemma lower_app (a b : string) : lower (a ++ b) = (lower a ++ lower b)%string.
Proof.
  induction a as [|c a IH]; [reflexivity|].
  rewrite append_cons. cbn [lower]. rewrite append_cons, IH. reflexivity.
Qed.

Lemma lower_blank (s : string) : blank s = true -> lower s = s.
Proof.
  induction s as [|c s IH]; [reflexivity|]. cbn [blank lower]. intros H.
  apply andb_true_iff in H as [Hc Hs].
  rewrite (lower_char_space c Hc), (IH Hs). reflexivity.
Qed.

Lemma lower_lstrip (s : string) : lower (lstrip s) = lstrip (lower s).
Proof.
  induction s as [|c s IH]; [reflexivity|]. cbn [lower lstrip].
  rewrite isspace_lower_char. destruct (isspace c); [exact IH | reflexivity].
Qed.

Lemma lower_rstrip (s : string) : lower (rstrip s) = rstrip (lower s).
Proof.
  induction s as [|c s IH]; [reflexivity|]. cbn [lower rstrip].
  rewrite <- IH, isspace_lower_char.
  destruct (rstrip s) as [|d r]; [destruct (isspace c); reflexivity | reflexivity].
Qed.

Lemma lower_strip (s : string) : lower (strip s) = strip (lower s).
Proof. unfold strip. rewrite lower_rstrip, lower_lstrip. reflexivity. Qed.

End StringFacts.

(* ===================================================================== *)
(** ** The WebSocket route *)
(* ===================================================================== *)

(** X11.  The handshake of [/ws/events] registers the connection exactly
    when no token is configured or the presented token, trimmed, equals
    the configured one, trimmed; otherwise it closes with code 1008 and
    changes nothing.  A token configured as whitespace only is no token:
    every handshake is accepted. *)
Theorem websocket_token_check
    (configured token_param : option string) (ws : WebSocket) (w : World) :
  let WS_TOKEN := WS_FRONTEND_TOKEN configured in
  let presented := strip (default EmptyString token_param) in
  (fst (ws_open WS_TOKEN ws token_param w) = None <->
   WS_TOKEN = EmptyString \/ presented = WS_TOKEN) /\
  (fst (ws_open WS_TOKEN ws token_param w) = None ->
   snd (ws_open WS_TOKEN ws token_param w) = with_manager (connect ws (manager w)) w) /\
  (fst (ws_open WS_TOKEN ws token_param w) <> None ->
   ws_open WS_TOKEN ws token_param w = (Some 1008, w)) /\
  (blank (or_empty configured) = true -> WS_TOKEN = EmptyString).
Proof.
  intros WS_TOKEN presented. unfold ws_open. cbn [or_empty]. fold presented.
  assert (Hexp : strip WS_TOKEN = WS_TOKEN) by apply strip_strip.
  rewrite Hexp.
  destruct (String.eqb_spec presented WS_TOKEN) as [Heq|Hne].
  - rewrite andb_false_r. cbn [fst snd].
    repeat split; auto. intros H. contradiction H. reflexivity.
    intros Hb. apply strip_blank, Hb.
  - rewrite andb_true_r. destruct WS_TOKEN as [|c t] eqn:Htok; cbn [nonempty fst snd].
    + repeat split; auto. intros H. contradiction H. reflexivity.
    + split; [split; [discriminate | intros [H|H]; [discriminate H | contradiction]]|].
      split; [discriminate|]. split; [reflexivity|].
      intros Hb. rewrite <- Htok. apply strip_blank, Hb.
Qed.

(** X12.  The readiness signal is recognised whatever its letter case and
    whatever whitespace surrounds it: such a frame runs [mark_ready]. *)
Theorem ready_signal_is_trimmed_and_case_insensitive
    (rt : Runtime) (pre core suf : string) (w : World) :
  blank pre = true ->
  blank suf = true ->
  lower core = "frontend:ready"%string ->
  ws_receive (pre ++ core ++ suf) w = mark_ready w.
Proof.
  intros Hpre Hsuf Hcore. unfold ws_receive.
  rewrite lower_strip, !lower_app, Hcore.
  rewrite (lower_blank pre Hpre), (lower_blank suf Hsuf).
  rewrite (strip_padding pre _ suf Hpre Hsuf). reflexivity.
Qed.

Lemma ready_signal_is_trimmed_and_case_insensitive_witness :
  ws_receive (rt := Demo.reliable)
    (" " ++ "Frontend:READY" ++ String (ascii_of_nat 10) EmptyString)
    (Demo.hub [7%nat] 500)
  = mark_ready (rt := Demo.reliable) (Demo.hub [7%nat] 500).
Proof.
  apply (ready_signal_is_trimmed_and_case_insensitive Demo.reliable).
  - reflexivity.
  - reflexivity.
  - reflexivity.
Defined.

Section SessionFacts.
Context {rt : Runtime}.

Lemma registrations_snoc (ws x : WebSocket) (l : list WebSocket) :
  registrations ws (l ++ [x]) =
  (registrations ws l + if Nat.eqb x ws then 1 else 0)%nat.
Proof.
  unfold registrations. rewrite filter_app, length_app. f_equal.
  destruct (Nat.eqb_spec x ws) as [->|Hne].
  - rewrite filter_cons_True by reflexivity. reflexivity.
  - rewrite filter_cons_False by exact Hne. reflexivity.
Qed.

Lemma registrations_none (ws : WebSocket) (l : list WebSocket) :
  ws ∉ l <-> registrations ws l = 0%nat.
Proof.
  split.
  - induction l as [|x l IH]; [reflexivity|]. intros Hnot.
    apply not_elem_of_cons in Hnot as [Hne Hnot]. rewrite registrations_cons.
    destruct (Nat.eqb_spec x ws); [congruence | exact (IH Hnot)].
  - intros Hzero Hin. pose proof (registrations_pos ws l Hin). lia.
Qed.

Lemma list_remove_self (ws : WebSocket) (l : list WebSocket) :
  registrations ws (list_remove ws l) = pred (registrations ws l).
Proof.
  induction l as [|x l IH]; [reflexivity|]. cbn [list_remove].
  rewrite registrations_cons. destruct (Nat.eqb_spec x ws) as [->|Hne]; [reflexivity|].
  rewrite registrations_cons. destruct (Nat.eqb_spec x ws); [contradiction | exact IH].
Qed.

Lemma disconnect_registrations (ws x : WebSocket) (m : ConnectionManager) :
  registrations ws (active_connections (disconnect x m)) =
  if Nat.eqb x ws then pred (registrations ws (active_connections m))
  else registrations ws (active_connections m).
Proof.
  destruct (Nat.eqb_spec x ws) as [->|Hne]; [|apply disconnect_other; exact Hne].
  unfold disconnect. cbn [active_connections].
  destruct (existsb (Nat.eqb ws) (active_connections m)) eqn:Hin; [apply list_remove_self|].
  assert (Hnot : ws ∉ active_connections m).
  { intros Hel. apply list_elem_of_In in Hel.
    assert (existsb (Nat.eqb ws) (active_connections m) = true)
      by (apply existsb_exists; exists ws; split; [exact Hel | apply Nat.eqb_refl]).
    congruence. }
  apply registrations_none in Hnot. rewrite Hnot. reflexivity.
Qed.

(** Broadcasting and flushing only ever remove connections. *)
Lemma disconnect_all_le (ws : WebSocket) (stale : list WebSocket) (m : ConnectionManager) :
  (registrations ws (active_connections (fold_left (fun m x => disconnect x m) stale m))
   <= registrations ws (active_connections m))%nat.
Proof.
  revert m. induction stale as [|x stale IH]; intros m; cbn [fold_left]; [lia|].
  etransitivity; [apply IH|]. rewrite disconnect_registrations.
  destruct (Nat.eqb x ws); lia.
Qed.

Lemma safe_broadcast_le (ws : WebSocket) (msg : message) (w : World) :
  (registrations ws (active_connections (manager (_safe_broadcast msg w)))
   <= registrations ws (active_connections (manager w)))%nat.
Proof.
  unfold _safe_broadcast. destruct (send_pass _ _ _) as [stale sent]. cbn.
  apply disconnect_all_le.
Qed.

Lemma flush_le (ws : WebSocket) (evs : list message) (w : World) :
  (registrations ws
     (active_connections (manager (fold_left (fun w ev => _safe_broadcast ev w) evs w)))
   <= registrations ws (active_connections (manager w)))%nat.
Proof.
  revert w. induction evs as [|ev evs IH]; intros w; cbn [fold_left]; [lia|].
  etransitivity; [apply IH | apply safe_broadcast_le].
Qed.

Lemma mark_ready_le (ws : WebSocket) (w : World) :
  (registrations ws (active_connections (manager (mark_ready w)))
   <= registrations ws (active_connections (manager w)))%nat.
Proof.
  destruct (mark_ready_parts w) as (_ & Ha & _). cbv zeta in Ha. rewrite Ha.
  destruct (_backlog (manager w)) as [|ev bl]; [exact (le_n _)|].
  destruct (active_connections (manager w)) as [|c conns] eqn:Hconns.
  - cbn [manager with_manager set_ready active_connections]. rewrite Hconns. lia.
  - etransitivity; [apply flush_le|].
    cbn [manager with_manager set_ready active_connections]. rewrite Hconns. lia.
Qed.

Lemma frames_le (ws : WebSocket) (frames : list string) (w : World) :
  (registrations ws
     (active_connections (manager (fold_left (fun w msg => ws_receive msg w) frames w)))
   <= registrations ws (active_connections (manager w)))%nat.
Proof.
  revert w. induction frames as [|msg frames IH]; intros w; cbn [fold_left]; [lia|].
  etransitivity; [apply IH|]. unfold ws_receive.
  destruct (String.eqb _ _); [apply mark_ready_le | lia].
Qed.

Lemma frames_ignored (frames : list string) (w : World) :
  Forall (fun msg => lower (strip msg) <> "frontend:ready"%string) frames ->
  fold_left (fun w msg => ws_receive msg w) frames w = w.
Proof.
  induction 1 as [|msg frames Hmsg Hall IH]; [reflexivity|]. cbn [fold_left].
  unfold ws_receive at 2. apply String.eqb_neq in Hmsg. rewrite Hmsg. exact IH.
Qed.

Lemma list_remove_snoc (ws : WebSocket) (l : list WebSocket) :
  ws ∉ l -> list_remove ws (l ++ [ws]) = l.
Proof.
  induction l as [|x l IH]; intros Hnot.
  - cbn. rewrite Nat.eqb_refl. reflexivity.
  - apply not_elem_of_cons in Hnot as [Hne Hnot]. cbn.
    destruct (Nat.eqb_spec x ws); [congruence|]. rewrite (IH Hnot). reflexivity.
Qed.

End SessionFacts.

(** X13.  A WebSocket session, from handshake to close, leaves no
    registration behind: a connection that was not registered before is
    not registered afterwards, whether the handshake was refused, the
    peer hung up, or the manager had already dropped it after a failed
    send.  A refused handshake changes nothing at all, and a session that
    never sends the readiness signal leaves the other connections, the
    backlog and the wire as they were. *)
Theorem websocket_session_cleans_up
    (rt : Runtime) (WS_TOKEN : string) (ws : WebSocket) (token_param : option string)
    (frames : list string) (w : World) :
  ws ∉ active_connections (manager w) ->
  let code := fst (websocket_endpoint WS_TOKEN ws token_param frames w) in
  let w' := snd (websocket_endpoint WS_TOKEN ws token_param frames w) in
  (ws ∉ active_connections (manager w')) /\
  (code <> None -> code = Some 1008 /\ w' = w) /\
  (Forall (fun msg => lower (strip msg) <> "frontend:ready"%string) frames ->
   active_connections (manager w') = active_connections (manager w) /\
   _backlog (manager w') = _backlog (manager w) /\
   wire w' = wire w /\ table w' = table w).
Proof.
  intros Hnot code w'. unfold code, w', websocket_endpoint, ws_open.
  destruct (_ && _); cbn [fst snd].
  - split; [exact Hnot|]. split; [intros _; split; reflexivity|].
    intros _. repeat split; reflexivity.
  - split; [|split; [intros H; contradiction H; reflexivity|]].
    + apply registrations_none. unfold ws_closed. cbn [manager with_manager].
      rewrite disconnect_registrations, Nat.eqb_refl.
      pose proof (frames_le ws frames (with_manager (connect ws (manager w)) w)) as Hle.
      cbn [manager with_manager connect active_connections] in Hle.
      rewrite registrations_snoc, Nat.eqb_refl in Hle.
      apply registrations_none in Hnot. rewrite Hnot in Hle. lia.
    + intros Hall. rewrite (frames_ignored frames _ Hall).
      unfold ws_closed, disconnect, connect. cbn.
      assert (Hin : existsb (Nat.eqb ws) (active_connections (manager w) ++ [ws]) = true).
      { apply existsb_exists. exists ws. split; [|apply Nat.eqb_refl].
        apply in_or_app. right. left. reflexivity. }
      rewrite Hin, (list_remove_snoc ws _ Hnot). repeat split; reflexivity.
Qed.

Lemma websocket_session_cleans_up_witness :
  let w := mkWorld ∅ [] (mkManager [7%nat] false (Demo.numbered 2) 500) [] [] in
  registrations 8%nat
    (active_connections
       (manager (snd (websocket_endpoint (rt := Demo.broken) "tok" 8%nat
                        (Some "tok"%string) ["hello"; "frontend:ready"]%string w))))
  = 0%nat.
Proof.
  intros w. apply registrations_none.
  refine (proj1 (websocket_session_cleans_up Demo.broken "tok" 8%nat (Some "tok"%string)
                   ["hello"; "frontend:ready"]%string w _)).
  cbn. rewrite list_elem_of_singleton. lia.
Defined.

(* ===================================================================== *)
(** ** Start-up: masked secrets and CORS origins *)
(* ===================================================================== *)

Section StartupFacts.

Lemma length_append (a b : string) :
  String.length (a ++ b) = (String.length a + String.length b)%nat.
Proof.
  induction a as [|c a IH]; [reflexivity|].
  rewrite append_cons. cbn [String.length]. rewrite IH. reflexivity.
Qed.

Lemma substring_all (s : string) : substring 0 (String.length s) s = s.
Proof. induction s as [|c s IH]; [reflexivity|]. cbn. rewrite IH. reflexivity. Qed.

Lemma substring_prefix (a b : string) : substring 0 (String.length a) (a ++ b) = a.
Proof.
  induction a as [|c a IH]; [destruct b; reflexivity|].
  rewrite append_cons. cbn. rewrite IH. reflexivity.
Qed.

Lemma substring_skip (a b : string) (n : nat) :
  substring (String.length a) n (a ++ b) = substring 0 n b.
Proof.
  induction a as [|c a IH]; [reflexivity|].
  rewrite append_cons. cbn [String.length substring]. exact IH.
Qed.

End StartupFacts.

(** X16.  [mask_secret] prints the first three and the last three
    characters of a secret of more than six characters and nothing of
    what lies between: two secrets with the same ends have the same mask,
    whatever their length.  An unset secret and a secret of six
    characters or fewer are both reported as [MISSING]. *)
Theorem mask_secret_hides_middle (head middle tail : string) :
  String.length head = 3%nat ->
  String.length tail = 3%nat ->
  middle <> EmptyString ->
  mask_secret (Some (head ++ middle ++ tail)%string) = (head ++ "***" ++ tail)%string /\
  (forall s, (String.length s <= 6)%nat -> mask_secret (Some s) = "MISSING"%string) /\
  mask_secret None = "MISSING"%string.
Proof.
  intros Hhead Htail Hmid. split; [|split; [|reflexivity]].
  - unfold mask_secret, first3, last3.
    assert (Hlen : String.length (head ++ middle ++ tail)%string
                   = (6 + String.length middle)%nat)
      by (rewrite !length_append, Hhead, Htail; lia).
    assert (Hpos : (0 < String.length middle)%nat)
      by (destruct middle; [contradiction | cbn; lia]).
    assert (Hne : nonempty (head ++ middle ++ tail)%string = true)
      by (destruct (head ++ middle ++ tail)%string; [discriminate Hlen | reflexivity]).
    rewrite Hne, Hlen.
    destruct (Nat.ltb_spec 6 (6 + String.length middle)) as [_|Hle]; [|lia].
    cbn [andb]. f_equal.
    + rewrite <- Hhead. apply substring_prefix.
    + f_equal.
      replace (6 + String.length middle - 3)%nat
        with (String.length (head ++ middle)%string)
        by (rewrite length_append, Hhead; lia).
      replace (head ++ middle ++ tail)%string with ((head ++ middle) ++ tail)%string.
      * rewrite substring_skip, <- Htail. apply substring_all.
      * clear. induction head as [|c h IH]; [reflexivity|].
        rewrite !append_cons, IH. reflexivity.
  - intros s Hs. unfold mask_secret.
    destruct (Nat.ltb_spec 6 (String.length s)) as [Hlt|_]; [lia|].
    rewrite andb_false_r. reflexivity.
Qed.

Lemma mask_secret_hides_middle_witness :
  mask_secret (Some "sk-live-0123456789-xyz"%string) = "sk-***xyz"%string /\
  mask_secret (Some "sk-?xyz"%string) = "sk-***xyz"%string.
Proof.
  split.
  - refine (proj1 (mask_secret_hides_middle "sk-" "live-0123456789-" "xyz" _ _ _));
      [reflexivity | reflexivity | discriminate].
  - reflexivity.
Defined.

Section OriginFacts.
Variable sep : ascii.

Lemma split_not_nil (s : string) : split sep s <> [].
Proof.
  destruct s as [|c s]; [discriminate|]. cbn [split].
  destruct (Ascii.eqb c sep); [discriminate|]. destruct (split sep s); discriminate.
Qed.

(** No piece of a split contains the separator. *)
Lemma split_no_sep (s : string) :
  Forall (fun x => has_char sep x = false) (split sep s).
Proof.
  induction s as [|c s IH]; [repeat constructor|]. cbn [split].
  destruct (Ascii.eqb c sep) eqn:Hc; [constructor; [reflexivity | exact IH]|].
  destruct (split sep s) as [|h t].
  - constructor; [cbn; rewrite Hc; reflexivity | constructor].
  - apply Forall_cons in IH as [Hh Ht].
    constructor; [cbn; rewrite Hc, Hh; reflexivity | exact Ht].
Qed.

Lemma split_single (x : string) : has_char sep x = false -> split sep x = [x].
Proof.
  induction x as [|c x IH]; [reflexivity|]. cbn [has_char split]. intros H.
  apply orb_false_iff in H as [Hc Hx]. rewrite Hc, (IH Hx). reflexivity.
Qed.

Lemma split_app (x t : string) :
  has_char sep x = false -> split sep (x ++ String sep t) = x :: split sep t.
Proof.
  induction x as [|c x IH]; intros H.
  - change (EmptyString ++ String sep t)%string with (String sep t).
    cbn [split]. rewrite Ascii.eqb_refl. reflexivity.
  - cbn [has_char] in H. apply orb_false_iff in H as [Hc Hx].
    rewrite append_cons. cbn [split]. rewrite Hc, (IH Hx). reflexivity.
Qed.

Lemma split_join (l : list string) :
  l <> [] -> Forall (fun x => has_char sep x = false) l -> split sep (join sep l) = l.
Proof.
  induction l as [|x l IH]; [contradiction|]. intros _ Hall.
  apply Forall_cons in Hall as [Hx Hl]. destruct l as [|y l].
  - cbn [join]. apply split_single, Hx.
  - change (join sep (x :: y :: l)) with (x ++ String sep (join sep (y :: l)))%string.
    rewrite (split_app _ _ Hx), IH; [reflexivity | discriminate | exact Hl].
Qed.

Lemma has_char_lstrip (s : string) :
  has_char sep s = false -> has_char sep (lstrip s) = false.
Proof.
  induction s as [|c s IH]; [reflexivity|]. cbn [has_char lstrip]. intros H.
  destruct (isspace c); [|exact H].
  apply orb_false_iff in H as [_ Hs]. exact (IH Hs).
Qed.

Lemma has_char_rstrip (s : string) :
  has_char sep s = false -> has_char sep (rstrip s) = false.
Proof.
  induction s as [|c s IH]; [reflexivity|]. cbn [has_char rstrip]. intros H.
  apply orb_false_iff in H as [Hc Hs]. specialize (IH Hs).
  destruct (rstrip s) as [|d r].
  - destruct (isspace c); [reflexivity|]. cbn. rewrite Hc. reflexivity.
  - cbn [has_char] in IH |- *. rewrite Hc, IH. reflexivity.
Qed.

Lemma has_char_strip (s : string) :
  has_char sep s = false -> has_char sep (strip s) = false.
Proof. intros H. apply has_char_rstrip, has_char_lstrip, H. Qed.

End OriginFacts.

(** An origin as the CORS middleware should get it: not empty, without
    surrounding whitespace, without a comma. *)
Lemma origins_clean (s : string) :
  Forall (fun o => nonempty o = true /\ strip o = o /\ has_char "," o = false) (origins s).
Proof.
  unfold origins. apply Forall_map, Forall_forall. intros o Hin.
  apply list_elem_of_filter in Hin as [Hne Hin]. cbn.
  split; [exact Hne|]. split; [apply strip_strip|].
  apply has_char_strip.
  pose proof (split_no_sep "," s) as Hall. rewrite Forall_forall in Hall. exact (Hall o Hin).
Qed.

Lemma origins_join (l : list string) :
  Forall (fun o => nonempty o = true /\ strip o = o /\ has_char "," o = false) l ->
  origins (join "," l) = l.
Proof.
  intros Hall. destruct l as [|x l]; [reflexivity|].
  unfold origins. rewrite split_join; [|discriminate|].
  - rewrite filter_all.
    + induction Hall as [|y k (_ & Hy & _) _ IH]; [reflexivity|]. cbn [map].
      rewrite Hy, IH. reflexivity.
    + eapply Forall_impl; [exact Hall|]. cbn. intros y (Hne & Hy & _). rewrite Hy. exact Hne.
  - eapply Forall_impl; [exact Hall|]. cbn. intros y (_ & _ & Hc). exact Hc.
Qed.

(** X17.  The CORS origins read from [CORS_ORIGINS] are normalised:
    every entry is non-empty, carries no surrounding whitespace and no
    comma, so blank entries and stray commas of the variable never reach
    the middleware; and writing the list back, comma-separated, and
    reading it again gives the same list. *)
Theorem origins_are_normalised (env : string) :
  Forall (fun o => o <> EmptyString /\ strip o = o /\ has_char "," o = false)
         (origins env) /\
  origins (join "," (origins env)) = origins env.
Proof.
  split.
  - eapply Forall_impl; [apply origins_clean|]. cbn. intros o (Hne & Hs & Hc).
    split; [intros ->; discriminate Hne | split; assumption].
  - apply origins_join, origins_clean.
Qed.

(* ===================================================================== *)
(** ** The body-size middleware in front of [/ingest] *)
(* ===================================================================== *)



(* ===================================================================== *)
(** ** The simulator toggle *)
(* ===================================================================== *)

(** X19.  After any sequence of toggle requests the simulator flag is the
    initial flag flipped once per request that presented the configured
    API key: requests with a wrong or missing key (401) never change it,
    with no API key configured (unset or empty) no request can change it
    (500, whatever the key), and an authorised response reports the flag
    it has just set. *)
Theorem simulator_toggle_parity
    (env : auth.Secrets) (keys : list (option string)) (active : bool) :
  snd (toggles env keys active) = xorb active (Nat.odd (authorised env keys)) /\
  map http_status (fst (toggles env keys active)) =
    map (fun k => if truthy (auth.API_KEY env)
                  then if bool_decide (k = auth.API_KEY env) then 200 else 401
                  else 500) keys /\
  (forall k, k = auth.API_KEY env -> truthy (auth.API_KEY env) = true ->
             simulator_toggle env k active =
             (Ret (simulator_state (negb active)), negb active)).
Proof.
  split; [|split].
  - revert active. unfold authorised.
    induction keys as [|k keys IH]; intros active;
      [cbn; destruct (truthy _), active; reflexivity|].
    cbn [toggles]. unfold simulator_toggle at 1, auth.require_api_key.
    destruct (truthy (auth.API_KEY env)) eqn:Hcfg; cbn [negb].
    + destruct (bool_decide_reflect (k = auth.API_KEY env)) as [Hk|Hk]; cbn [negb].
      * specialize (IH (negb active)).
        destruct (toggles env keys (negb active)) as [os a2]. cbn [snd] in *.
        rewrite IH, filter_cons_True by exact Hk. cbn [length].
        rewrite Nat.odd_succ, <- Nat.negb_odd.
        destruct active, (Nat.odd _); reflexivity.
      * specialize (IH active).
        destruct (toggles env keys active) as [os a2]. cbn [snd] in *.
        rewrite IH, filter_cons_False by exact Hk. reflexivity.
    + specialize (IH active). destruct (toggles env keys active) as [os a2].
      cbn [snd] in *. exact IH.
  - revert active. induction keys as [|k keys IH]; intros active; [reflexivity|].
    cbn [toggles map]. unfold simulator_toggle at 1, auth.require_api_key.
    destruct (truthy (auth.API_KEY env)) eqn:Hcfg; cbn [negb].
    + destruct (bool_decide (k = auth.API_KEY env)); cbn [negb].
      * specialize (IH (negb active)).
        destruct (toggles env keys (negb active)) as [os a2]. cbn [fst map] in *.
        rewrite IH. reflexivity.
      * specialize (IH active).
        destruct (toggles env keys active) as [os a2]. cbn [fst map] in *.
        rewrite IH. reflexivity.
    + specialize (IH active). destruct (toggles env keys active) as [os a2].
      cbn [fst map] in *. rewrite IH. reflexivity.
  - intros k Hk Hcfg. unfold simulator_toggle, auth.require_api_key.
    rewrite Hcfg, (bool_decide_eq_true_2 _ Hk). reflexivity.
Qed.

(** X20.  With a secret configured, the signature check accepts one
    string only, the lower-case hexadecimal HMAC-SHA256 of the body under
    the secret: every other header value, of whatever length or case, is
    refused (401, or the unhandled [TypeError] of a non-ASCII value), by
    the handler's inline check and by [verify_hmac] alike. *)
Theorem signature_check_is_exact
    (cfg : Config) (secret : string) (bd : bytes) (sig : string) (w : World) :
  auth.HMAC_SECRET (secrets cfg) = Some secret ->
  secret <> EmptyString ->
  (fst (check_signature cfg bd sig w) = Ret tt <-> sig = hexdigest (encode secret) bd) /\
  (auth.verify_hmac (secrets cfg) bd (Some sig) = Ret true <->
   sig = hexdigest (encode secret) bd) /\
  (sig <> hexdigest (encode secret) bd ->
   fst (check_signature cfg bd sig w) = Raise (HTTPException 401 "Invalid HMAC signature") \/
   fst (check_signature cfg bd sig w) = Raise TypeError).
Proof.
  intros Hs Hne.
  pose proof (check_signature_configured cfg secret bd sig w Hs Hne) as Hinline.
  assert (Hcmp : auth.compare_digest (hexdigest (encode secret) bd) sig =
                 if isascii sig then Ret (String.eqb (hexdigest (encode secret) bd) sig)
                 else Raise TypeError)
    by (unfold auth.compare_digest; rewrite hexdigest_isascii; reflexivity).
  rewrite Hcmp in Hinline.
  split; [|split].
  - rewrite Hinline. split.
    + destruct (isascii sig); [|discriminate].
      destruct (String.eqb_spec (hexdigest (encode secret) bd) sig) as [Heq|Hdiff];
        [intros _; symmetry; exact Heq | discriminate].
    + intros ->. rewrite hexdigest_isascii, String.eqb_refl. reflexivity.
  - split.
    + destruct (truthy (Some sig)) eqn:Hsig.
      * rewrite (verify_hmac_configured _ secret bd (Some sig) Hs Hne Hsig).
        cbn [or_empty]. rewrite Hcmp. destruct (isascii sig); [|discriminate].
        destruct (String.eqb_spec (hexdigest (encode secret) bd) sig) as [Heq|Hdiff];
          [intros _; symmetry; exact Heq | discriminate].
      * unfold auth.verify_hmac. rewrite Hs. destruct secret; [contradiction|].
        rewrite Hsig. discriminate.
    + intros ->. rewrite (verify_hmac_configured _ secret bd _ Hs Hne (hexdigest_truthy _ _)).
      cbn [or_empty]. rewrite compare_digest_same by apply hexdigest_isascii. reflexivity.
  - intros Hdiff. rewrite Hinline. destruct (isascii sig); [|right; reflexivity].
    destruct (String.eqb_spec (hexdigest (encode secret) bd) sig) as [Heq|_];
      [congruence | left; reflexivity].
Qed.

Lemma signature_check_is_exact_witness :
  fst (check_signature (Demo.cfg (Some "s3cret"%string)) Demo.body_bare
         "deadbeef" (Demo.world0 500))
  = Raise (HTTPException 401 "Invalid HMAC signature").
Proof.
  destruct (signature_check_is_exact (Demo.cfg (Some "s3cret"%string)) "s3cret"
              Demo.body_bare "deadbeef" (Demo.world0 500))
    as (_ & _ & Hrefused).
  - reflexivity.
  - discriminate.
  - destruct Hrefused as [H|H].
    + vm_compute. discriminate.
    + exact H.
    + vm_compute in H. discriminate H.
Defined.

(** X21.  When the limit is at least the number of stored events,
    [/events] returns all of them, each once, oldest first. *)
Theorem list_events_within_limit
    (rt : Runtime)
    (order_by_desc : list models.Event -> list models.Event)
    (negative_limit : Z -> list models.Event -> list models.Event)
    (w : World) (limit : Z) :
  (forall l, order_by_desc l ≡ₚ l) ->
  (forall l, Sorted newer_first (order_by_desc l)) ->
  Z.of_nat (length (table w)) <= limit ->
  exists selected,
    list_events order_by_desc negative_limit limit w = map event_data_of selected /\
    selected ≡ₚ table w /\
    Sorted older_first selected /\
    length (list_events order_by_desc negative_limit limit w) = length (table w).
Proof.
  intros Hperm Hsorted Hlimit.
  assert (Hpos : 0 <= limit) by lia.
  destruct (query_selects order_by_desc negative_limit Hperm Hsorted limit (table w) Hpos)
    as (Hp & _ & Hasc & Hlen).
  exists (rev (query_limit negative_limit limit (order_by_desc (table w)))).
  split; [reflexivity|]. split; [|split; [exact Hasc|]].
  - rewrite Hp at 2. rewrite drop_ge, app_nil_r; [reflexivity|].
    rewrite (Permutation_length (Hperm (table w))). lia.
  - unfold list_events. rewrite length_map, length_rev, Hlen. lia.
Qed.

Lemma list_events_within_limit_witness :
  let w := mkWorld ∅ Demo.rows (ConnectionManager_init 500) [] [] in
  map (dict_get "id")
      (list_events (rt := Demo.reliable) Demo.demo_order_by_desc Demo.demo_negative_limit
                   200 w)
  = [Some (JInt 1); Some (JInt 3); Some (JInt 2); Some (JInt 4)] /\
  length (list_events (rt := Demo.reliable) Demo.demo_order_by_desc
                      Demo.demo_negative_limit 200 w) = 4%nat.
Proof.
  intros w. split; [vm_compute; reflexivity|].
  destruct (list_events_within_limit Demo.reliable Demo.demo_order_by_desc
              Demo.demo_negative_limit w 200) as (selected & _ & _ & _ & Hlen).
  - intros l. apply (merge_sort_Permutation newer_first).
  - intros l. apply (Sorted_merge_sort newer_first).
  - cbn. lia.
  - exact Hlen.
Defined.
